(** * GoAngent: the log-correlation pipeline, embedded and verified

    Shallow embedding of the Go sources of the agent:
    - [log_preprocessor.go]: [ParseLogs], [MinePatterns], [CreateBundle]
      and [Process] (module [Preprocessor]);
    - the [main.go] with the stream endpoints: [readFileAutoUTF],
      [parseLine] and [tailFile], the file source [ReadLogs],
      [parseLines], [sourceFromConfig] and [logsHandler] (module [Agent]);
    - the [main.go] without them: [formatLogLine] and its patterns,
      [loadConfig], the file source [ReadLogs], [parseLines] and
      [sanitizeBinary] (module [Legacy]).

    Go strings are byte sequences: they are modelled as [string] (a list
    of 8-bit [ascii]), compared bytewise as Go's [<] does.  What the
    program takes from its runtime (the clock, [sort.Slice], the order of
    map iteration, the tables of package unicode) is a parameter of the
    embedding, constrained by its documented contract only.  Go's own
    [sort.Slice] is embedded as well ([Go.Slice]), for the one property
    that depends on more than its contract. *)

From Stdlib Require Import ZArith Lia Ascii String Floats OrdersEx.
From Stdlib.Strings Require Import Byte.
From Stdlib Require Import Sorting.Sorted.
From stdpp Require Import gmap strings list sorting.

Local Open Scope string_scope.
Local Open Scope Z_scope.

(** ** Go's standard library, as far as the sources use it *)

Module Go.

(** [a < b] on Go strings: bytewise lexicographic order. *)
Definition str_lt (a b : string) : bool := String.ltb a b.
Definition str_gt (a b : string) : bool := String.ltb b a.
Definition str_le (a b : string) : bool := String.leb a b.

(** [strings.Contains(s, substr)]. *)
Fixpoint Contains (s substr : string) : bool :=
  if String.prefix substr s then true
  else match s with
       | EmptyString => false
       | String _ s' => Contains s' substr
       end.

(** [strings.Join(elems, sep)]. *)
Fixpoint Join (elems : list string) (sep : string) : string :=
  match elems with
  | [] => ""
  | [e] => e
  | e :: rest => e +:+ sep +:+ Join rest sep
  end.

(** A byte of a string as a number, and back. *)
Definition byte_val (c : ascii) : Z := Z.of_N (N_of_ascii c).
Definition byte_of (z : Z) : ascii := ascii_of_N (Z.to_N z).

(** [c >= utf8.RuneSelf]: the byte starts or continues a multi-byte rune. *)
Definition non_ascii (c : ascii) : bool := 128 <=? byte_val c.

Fixpoint all_ascii (s : string) : bool :=
  match s with
  | EmptyString => true
  | String c s' => negb (non_ascii c) && all_ascii s'
  end.

(** The table [asciiSpace] of package strings. *)
Definition asciiSpace (c : ascii) : bool :=
  let v := byte_val c in
  (v =? 9) || (v =? 10) || (v =? 11) || (v =? 12) || (v =? 13) || (v =? 32).

Definition is_upper (c : ascii) : bool :=
  let v := byte_val c in (65 <=? v) && (v <=? 90).

Definition lower_byte (c : ascii) : ascii :=
  if is_upper c then byte_of (byte_val c + 32) else c.

Fixpoint lower_bytes (s : string) : string :=
  match s with
  | EmptyString => EmptyString
  | String c s' => String (lower_byte c) (lower_bytes s')
  end.

Fixpoint rev_string_onto (s acc : string) : string :=
  match s with
  | EmptyString => acc
  | String c s' => rev_string_onto s' (String c acc)
  end.

Definition rev_string (s : string) : string := rev_string_onto s "".

(** ** Wrap-around of the 64-bit [int] *)
Definition int_min : Z := - 2 ^ 63.
Definition int_max : Z := 2 ^ 63 - 1.
Definition int_wrap (z : Z) : Z := (z + 2 ^ 63) mod 2 ^ 64 - 2 ^ 63.
Definition int_add (a b : Z) : Z := int_wrap (a + b).

(** Values held by an [interface{}] after JSON decoding.  The sources only
    ever test such a value with the type assertion [.(string)]. *)
Inductive Value : Type :=
| VString (s : string)
| VNumber (f : float)
| VBool (b : bool)
| VNil.

(** [v, ok := entry[key].(string)] *)
Definition assert_string (entry : gmap string Value) (key : string) : string * bool :=
  match entry !! key with
  | Some (VString s) => (s, true)
  | _ => ("", false)
  end.

(** What the unicode-aware slow paths of package strings compute on text
    that holds a non-ASCII byte.  The tables of package unicode are not
    part of the sources, so these are taken as given. *)
Record Unicode : Type := {
  TrimFunc_IsSpace : string -> string;
  TrimRightFunc_IsSpace : string -> string;
  Map_ToLower : string -> string
}.

Section WithUnicode.
Variable U : Unicode.

(** [strings.TrimSpace]: the ASCII fast path of the library, falling back
    to the unicode functions at the first non-ASCII byte met. *)
Fixpoint trim_right (r : string) : string + string :=
  (* [r] is the text reversed; [inl] is the text to keep, reversed;
     [inr] is the text handed to [TrimRightFunc], reversed *)
  match r with
  | EmptyString => inl EmptyString
  | String c r' =>
      if non_ascii c then inr r
      else if asciiSpace c then trim_right r'
      else inl r
  end.

Fixpoint TrimSpace (s : string) : string :=
  match s with
  | EmptyString => EmptyString
  | String c s' =>
      if non_ascii c then TrimFunc_IsSpace U s
      else if asciiSpace c then TrimSpace s'
      else match trim_right (rev_string s) with
           | inl kept => rev_string kept
           | inr rest => TrimRightFunc_IsSpace U (rev_string rest)
           end
  end.

(** [strings.ToLower]: bytes [A-Z] are shifted when the text is ASCII. *)
Definition ToLower (s : string) : string :=
  if all_ascii s then lower_bytes s else Map_ToLower U s.

End WithUnicode.

(** ** Package regexp, for the patterns of the sources

    A pattern is matched bytewise through its derivatives.  The classes
    are those of Go's RE2 syntax: [\d] is [0-9], [\s] is [\t\n\f\r ],
    [\w] is [0-9A-Za-z_] and [.] is any byte but the newline. *)
Inductive regex : Type :=
| Void
| Eps
| Class (p : ascii -> bool)
| Cat (r1 r2 : regex)
| Alt (r1 r2 : regex)
| Star (r : regex).

Fixpoint nullable (r : regex) : bool :=
  match r with
  | Void => false
  | Eps => true
  | Class _ => false
  | Cat r1 r2 => nullable r1 && nullable r2
  | Alt r1 r2 => nullable r1 || nullable r2
  | Star _ => true
  end.

Fixpoint deriv (c : ascii) (r : regex) : regex :=
  match r with
  | Void => Void
  | Eps => Void
  | Class p => if p c then Eps else Void
  | Cat r1 r2 =>
      if nullable r1 then Alt (Cat (deriv c r1) r2) (deriv c r2)
      else Cat (deriv c r1) r2
  | Alt r1 r2 => Alt (deriv c r1) (deriv c r2)
  | Star r1 => Cat (deriv c r1) (Star r1)
  end.

Definition Plus (r : regex) : regex := Cat r (Star r).

Fixpoint Repeat (n : nat) (r : regex) : regex :=
  match n with
  | O => Eps
  | S n' => Cat r (Repeat n' r)
  end.

Definition Chr (c : ascii) : regex := Class (Ascii.eqb c).

Definition digit (c : ascii) : bool :=
  let v := byte_val c in (48 <=? v) && (v <=? 57).
Definition space (c : ascii) : bool :=
  let v := byte_val c in
  (v =? 9) || (v =? 10) || (v =? 12) || (v =? 13) || (v =? 32).
Definition word (c : ascii) : bool :=
  let v := byte_val c in
  ((48 <=? v) && (v <=? 57)) || ((65 <=? v) && (v <=? 90))
  || ((97 <=? v) && (v <=? 122)) || (v =? 95).
Definition any_char (c : ascii) : bool := negb (byte_val c =? 10).

(** The text is in the language of [r]: a pattern written [^r$]. *)
Fixpoint full_match (r : regex) (s : string) : bool :=
  match s with
  | EmptyString => nullable r
  | String c s' => full_match (deriv c r) s'
  end.

(** Length of the shortest prefix of the text in the language of [r]: the
    match of a pattern written [^r].  (Go prefers the leftmost-first
    match; the patterns the sources replace with have one length only.) *)
Fixpoint prefix_match (r : regex) (s : string) : option nat :=
  if nullable r then Some O
  else match s with
       | EmptyString => None
       | String c s' => S <$> prefix_match (deriv c r) s'
       end.

(** [re.MatchString(s)] for a pattern [^r]. *)
Definition MatchString_prefix (r : regex) (s : string) : bool :=
  bool_decide (is_Some (prefix_match r s)).

Fixpoint drop_string (n : nat) (s : string) : string :=
  match n, s with
  | O, _ => s
  | S n', String _ s' => drop_string n' s'
  | S _, EmptyString => EmptyString
  end.

(** [re.ReplaceAllString(s, repl)] for a pattern [^r] that does not match
    the empty text: only a match at offset zero is replaced, since [^]
    holds nowhere else. *)
Definition ReplaceAllString_prefix (r : regex) (s repl : string) : string :=
  match prefix_match r s with
  | Some n => repl +:+ drop_string n s
  | None => s
  end.

(** ** Package strconv: [Atoi] *)

(** The two errors of a [*NumError]: [ErrSyntax] and [ErrRange]. *)
Inductive NumError : Type :=
| ErrSyntax
| ErrRange.

(** The value of a decimal digit. *)
Definition digit_value (c : ascii) : option Z :=
  let v := byte_val c in
  if (48 <=? v) && (v <=? 57) then Some (v - 48) else None.

Definition maxUint64 : Z := 2 ^ 64 - 1.

(** The loop of [ParseUint(s, 10, 64)]: the value with no error, zero with
    the syntax error, or the greatest value with the range error. *)
Fixpoint parse_uint_digits (s : string) (n : Z) : Z * option NumError :=
  match s with
  | EmptyString => (n, None)
  | String c s' =>
      match digit_value c with
      | None => (0, Some ErrSyntax)
      | Some d =>
          if n >=? maxUint64 / 10 + 1 then (maxUint64, Some ErrRange)
          else
            let n1 := n * 10 + d in
            if n1 >? maxUint64 then (maxUint64, Some ErrRange)
            else parse_uint_digits s' n1
      end
  end.

Definition ParseUint (s : string) : Z * option NumError :=
  if (s =? "")%string then (0, Some ErrSyntax) else parse_uint_digits s 0.

(** [ParseInt(s, 10, 0)] with a 64-bit [int]. *)
Definition ParseInt (s : string) : Z * option NumError :=
  match s with
  | EmptyString => (0, Some ErrSyntax)
  | String c s' =>
      let neg := Ascii.eqb c "-" in
      let s1 := if Ascii.eqb c "+" || Ascii.eqb c "-" then s' else s in
      match ParseUint s1 with
      | (_, Some ErrSyntax) => (0, Some ErrSyntax)
      | (un, _) =>
          let cutoff := 2 ^ 63 in
          if negb neg && (un >=? cutoff) then (cutoff - 1, Some ErrRange)
          else if neg && (un >? cutoff) then (- cutoff, Some ErrRange)
          else (if neg then - un else un, None)
      end
  end.

(** The loop of the fast path of [Atoi]. *)
Fixpoint atoi_digits (s : string) (n : Z) : option Z :=
  match s with
  | EmptyString => Some n
  | String ch s' =>
      match digit_value ch with
      | Some d => atoi_digits s' (n * 10 + d)
      | None => None
      end
  end.

(** [strconv.Atoi]: the fast path for texts of fewer than 19 bytes, which
    cannot overflow, and [ParseInt] for the others. *)
Definition Atoi (s : string) : Z * option NumError :=
  let sLen := Z.of_nat (String.length s) in
  if (0 <? sLen) && (sLen <? 19) then
    match s with
    | EmptyString => (0, Some ErrSyntax)
    | String c s' =>
        let signed := Ascii.eqb c "-" || Ascii.eqb c "+" in
        let s1 := if signed then s' else s in
        if signed && (Z.of_nat (String.length s1) <? 1) then (0, Some ErrSyntax)
        else match atoi_digits s1 0 with
             | None => (0, Some ErrSyntax)
             | Some n => (if Ascii.eqb c "-" then - n else n, None)
             end
    end
  else ParseInt s.

(** ** Package bufio: a [Scanner] with the split function [ScanLines] *)

Definition MaxScanTokenSize : Z := 64 * 1024.

(** [dropCR] on a line kept in reverse: one carriage return at the end of
    the line is dropped. *)
Definition dropCR_rev (acc : string) : string :=
  match acc with
  | String c r => if Ascii.eqb c (ascii_of_nat 13) then r else acc
  | EmptyString => EmptyString
  end.

(** The tokens of the successive calls of [Scan], with [true] when the
    scan ended on [ErrTooLong].  [acc] is the line being read, in reverse,
    and [n] its length.  A newline ends a line; what follows the last
    newline is a line if it is not empty; a line whose first
    [MaxScanTokenSize] bytes hold no newline fills the buffer and ends the
    scan. *)
Fixpoint scan_from (s : string) (acc : string) (n : Z) : list string * bool :=
  match s with
  | EmptyString =>
      if n =? 0 then ([], false) else ([rev_string (dropCR_rev acc)], false)
  | String c s' =>
      if Ascii.eqb c (ascii_of_nat 10) then
        let '(tokens, err) := scan_from s' EmptyString 0 in
        (rev_string (dropCR_rev acc) :: tokens, err)
      else if MaxScanTokenSize <=? n + 1 then ([], true)
      else scan_from s' (String c acc) (n + 1)
  end.

Definition scan_lines (s : string) : list string * bool := scan_from s EmptyString 0.

(** ** Package sort: [Slice] *)

(** [bits.Len(uint(n))]: the number of bits of [n]. *)
Definition bits_Len (n : nat) : nat :=
  if (n =? 0)%nat then 0%nat else S (Nat.log2 n).

(** [xorshift.Next], on the 64-bit state [r]. *)
Definition xorshift_Next (r : Z) : Z :=
  let r := Z.lxor r (Z.shiftl r 13 mod 2 ^ 64) in
  let r := Z.lxor r (Z.shiftr r 7) in
  Z.lxor r (Z.shiftl r 17 mod 2 ^ 64).

(** [nextPowerOfTwo(length)] *)
Definition nextPowerOfTwo (length : nat) : Z := Z.shiftl 1 (Z.of_nat (bits_Len length)).

Inductive sortedHint : Type :=
| unknownHint
| increasingHint
| decreasingHint.

Section WithLess.
Context {A : Type}.

(** The [less] given to [sort.Slice] reads the slice as it is when it is
    called; [less] below compares two elements.  [data] is the slice.
    The indices are in range at every call the sort makes. *)
Variable less : A -> A -> bool.

Definition Less (data : list A) (i j : nat) : bool :=
  match data !! i, data !! j with
  | Some x, Some y => less x y
  | _, _ => false
  end.

Definition Swap (data : list A) (i j : nat) : list A :=
  match data !! i, data !! j with
  | Some x, Some y => <[i := y]> (<[j := x]> data)
  | _, _ => data
  end.

(** The inner loop of [insertionSort_func]:
    [for j := i; j > a && data.Less(j, j-1); j--]. *)
Fixpoint insertion_step (a : nat) (data : list A) (j : nat) : list A :=
  match j with
  | O => data
  | S j' =>
      if (a <? j)%nat && Less data j j'
      then insertion_step a (Swap data j j') j'
      else data
  end.

(** [insertionSort_func(data, a, b)] *)
Definition insertionSort_func (data : list A) (a b : nat) : list A :=
  foldl (insertion_step a) data (seq (a + 1) (b - (a + 1))).

(** The loop of [siftDown_func]; the root moves down at each turn, so
    [hi] turns are enough. *)
Fixpoint siftDown_loop (n : nat) (data : list A) (root hi first : nat) : list A :=
  match n with
  | O => data
  | S n' =>
      let child := (2 * root + 1)%nat in
      if (hi <=? child)%nat then data
      else
        let child :=
          if (child + 1 <? hi)%nat && Less data (first + child) (first + child + 1)
          then (child + 1)%nat else child in
        if negb (Less data (first + root) (first + child)) then data
        else siftDown_loop n' (Swap data (first + root) (first + child)) child hi first
  end.

Definition siftDown_func (data : list A) (lo hi first : nat) : list A :=
  siftDown_loop hi data lo hi first.

(** [heapSort_func(data, a, b)], for [a < b]. *)
Definition heapSort_func (data : list A) (a b : nat) : list A :=
  let first := a in
  let lo := 0%nat in
  let hi := (b - a)%nat in
  let data :=
    foldl (fun data i => siftDown_func data i hi first) data
          (rev (seq 0 ((hi - 1) / 2 + 1))) in
  foldl (fun data i => siftDown_func (Swap data first (first + i)) lo i first) data
        (rev (seq 0 hi)).

(** [order2_func]: the two indices in order, and the count of swaps. *)
Definition order2_func (data : list A) (a b swaps : nat) : nat * nat * nat :=
  if Less data b a then (b, a, S swaps) else (a, b, swaps).

(** [median_func]: the index of the median, and the count of swaps. *)
Definition median_func (data : list A) (a b c swaps : nat) : nat * nat :=
  let '(a, b, swaps) := order2_func data a b swaps in
  let '(b, c, swaps) := order2_func data b c swaps in
  let '(a, b, swaps) := order2_func data a b swaps in
  (b, swaps).

Definition medianAdjacent_func (data : list A) (a swaps : nat) : nat * nat :=
  median_func data (a - 1) a (a + 1) swaps.

Definition shortestNinther : nat := 50.
Definition maxSwaps : nat := 4 * 3.

Definition choosePivot_func (data : list A) (a b : nat) : nat * sortedHint :=
  let l := (b - a)%nat in
  let swaps := 0%nat in
  let i := (a + l / 4 * 1)%nat in
  let j := (a + l / 4 * 2)%nat in
  let k := (a + l / 4 * 3)%nat in
  let '(j, swaps) :=
    if (8 <=? l)%nat then
      let '(i, j, k, swaps) :=
        if (shortestNinther <=? l)%nat then
          let '(i, swaps) := medianAdjacent_func data i swaps in
          let '(j, swaps) := medianAdjacent_func data j swaps in
          let '(k, swaps) := medianAdjacent_func data k swaps in
          (i, j, k, swaps)
        else (i, j, k, swaps) in
      median_func data i j k swaps
    else (j, swaps) in
  if (swaps =? 0)%nat then (j, increasingHint)
  else if (swaps =? maxSwaps)%nat then (j, decreasingHint)
  else (j, unknownHint).

(** [reverseRange_func(data, a, b)]: the loop [for i < j] makes
    [(b - a) / 2] turns. *)
Definition reverseRange_func (data : list A) (a b : nat) : list A :=
  foldl (fun data t => Swap data (a + t) (b - 1 - t)) data (seq 0 ((b - a) / 2)).

(** [for i <= j && data.Less(i, a) { i++ }], with [n] the number of
    indices from [i] to [j]. *)
Fixpoint skip_less (data : list A) (a n i : nat) : nat :=
  match n with
  | O => i
  | S n' => if Less data i a then skip_less data a n' (S i) else i
  end.

(** [for i <= j && !data.Less(j, a) { j-- }] *)
Fixpoint skip_not_less (data : list A) (a n j : nat) : nat :=
  match n with
  | O => j
  | S n' => if Less data j a then j else skip_not_less data a n' (j - 1)
  end.

(** The [for] loop of [partition_func]; each turn brings [i] and [j]
    closer, so as many turns as there are indices between them are
    enough. *)
Fixpoint partition_loop (n : nat) (data : list A) (a i j : nat) : list A * nat :=
  let i := skip_less data a (S j - i) i in
  let j := skip_not_less data a (S j - i) j in
  if (j <? i)%nat then (data, j)
  else
    match n with
    | O => (data, j)
    | S n' => partition_loop n' (Swap data i j) a (S i) (j - 1)
    end.

(** [partition_func(data, a, b, pivot)], for [a < b]: the slice, the new
    index of the pivot, and whether the slice was already partitioned. *)
Definition partition_func (data : list A) (a b pivot : nat) : list A * nat * bool :=
  let data := Swap data a pivot in
  let i := (a + 1)%nat in
  let j := (b - 1)%nat in
  let i := skip_less data a (S j - i) i in
  let j := skip_not_less data a (S j - i) j in
  if (j <? i)%nat then (Swap data j a, j, true)
  else
    let data := Swap data i j in
    let '(data, j) := partition_loop (b - a) data a (S i) (j - 1) in
    (Swap data j a, j, false).

(** [for i <= j && !data.Less(a, i) { i++ }] and
    [for i <= j && data.Less(a, j) { j-- }] *)
Fixpoint skip_not_greater (data : list A) (a n i : nat) : nat :=
  match n with
  | O => i
  | S n' => if Less data a i then i else skip_not_greater data a n' (S i)
  end.

Fixpoint skip_greater (data : list A) (a n j : nat) : nat :=
  match n with
  | O => j
  | S n' => if Less data a j then skip_greater data a n' (j - 1) else j
  end.

Fixpoint partitionEqual_loop (n : nat) (data : list A) (a i j : nat) : list A * nat :=
  let i := skip_not_greater data a (S j - i) i in
  let j := skip_greater data a (S j - i) j in
  if (j <? i)%nat then (data, i)
  else
    match n with
    | O => (data, i)
    | S n' => partitionEqual_loop n' (Swap data i j) a (S i) (j - 1)
    end.

(** [partitionEqual_func(data, a, b, pivot)], for [a < b]. *)
Definition partitionEqual_func (data : list A) (a b pivot : nat) : list A * nat :=
  let data := Swap data a pivot in
  partitionEqual_loop (b - a) data a (a + 1) (b - 1).

(** [for i < b && !data.Less(i, i-1) { i++ }], with [n] the number of
    indices from [i] to [b - 1]. *)
Fixpoint skip_ordered (data : list A) (n i : nat) : nat :=
  match n with
  | O => i
  | S n' => if Less data i (i - 1) then i else skip_ordered data n' (S i)
  end.

(** [for j := i - 1; j >= 1; j--], started at [j]. *)
Fixpoint shift_left (data : list A) (j : nat) : list A :=
  match j with
  | O => data
  | S j' => if negb (Less data j j') then data else shift_left (Swap data j j') j'
  end.

(** [for j := i + 1; j < b; j++], with [n] the number of indices from
    [j] to [b - 1]. *)
Fixpoint shift_right (data : list A) (n j : nat) : list A :=
  match n with
  | O => data
  | S n' =>
      if negb (Less data j (j - 1)) then data
      else shift_right (Swap data j (j - 1)) n' (S j)
  end.

Definition maxSteps : nat := 5.
Definition shortestShifting : nat := 50.

(** The loop [for j := 0; j < maxSteps; j++] of
    [partialInsertionSort_func], with [n] turns left. *)
Fixpoint partialInsertionSort_loop (n : nat) (data : list A) (a b i : nat)
  : list A * bool :=
  match n with
  | O => (data, false)
  | S n' =>
      let i := skip_ordered data (b - i) i in
      if (i =? b)%nat then (data, true)
      else if (b - a <? shortestShifting)%nat then (data, false)
      else
        let data := Swap data i (i - 1) in
        let data := if (2 <=? i - a)%nat then shift_left data (i - 1) else data in
        let data :=
          if (2 <=? b - i)%nat then shift_right data (b - (i + 1)) (i + 1) else data in
        partialInsertionSort_loop n' data a b i
  end.

Definition partialInsertionSort_func (data : list A) (a b : nat) : list A * bool :=
  partialInsertionSort_loop maxSteps data a b (a + 1).

(** [breakPatterns_func(data, a, b)] *)
Definition breakPatterns_func (data : list A) (a b : nat) : list A :=
  let length := (b - a)%nat in
  if (8 <=? length)%nat then
    let modulus := nextPowerOfTwo length in
    let idx := (a + length / 4 * 2 - 1)%nat in
    fst (foldl (fun '(data, random) i =>
                  let random := xorshift_Next random in
                  let other := Z.to_nat (Z.land random (modulus - 1)) in
                  let other := if (length <=? other)%nat then (other - length)%nat
                               else other in
                  (Swap data (idx - 1 + i) (a + other), random))
               (data, Z.of_nat length) (seq 0 3))
  else data.

Definition maxInsertion : nat := 12.

(** One turn of the loop of [pdqsort_func(data, a, b, limit)] on a part
    too long for the insertion sort, with the two flags of the loop.
    [rec data a b limit wasBalanced wasPartitioned] is the loop itself,
    for the turns that follow and for the nested calls (which start with
    both flags set). *)
Definition pdqsort_turn (rec : list A -> nat -> nat -> nat -> bool -> bool -> list A)
    (data : list A) (a b limit : nat) (wasBalanced wasPartitioned : bool) : list A :=
  let length := (b - a)%nat in
  if (limit =? 0)%nat then heapSort_func data a b
  else
    let '(data, limit) :=
      if negb wasBalanced then (breakPatterns_func data a b, (limit - 1)%nat)
      else (data, limit) in
    let '(pivot, hint) := choosePivot_func data a b in
    let '(data, pivot, hint) :=
      match hint with
      | decreasingHint =>
          (reverseRange_func data a b, (b - 1 - (pivot - a))%nat, increasingHint)
      | _ => (data, pivot, hint)
      end in
    let '(data, sorted) :=
      match hint with
      | increasingHint =>
          if wasBalanced && wasPartitioned
          then partialInsertionSort_func data a b
          else (data, false)
      | _ => (data, false)
      end in
    if sorted then data
    else if (0 <? a)%nat && negb (Less data (a - 1) pivot) then
      let '(data, mid) := partitionEqual_func data a b pivot in
      rec data mid b limit wasBalanced wasPartitioned
    else
      let '(data, mid, alreadyPartitioned) := partition_func data a b pivot in
      let leftLen := (mid - a)%nat in
      let rightLen := (b - mid)%nat in
      let balanceThreshold := (length / 8)%nat in
      if (leftLen <? rightLen)%nat then
        let data := rec data a mid limit true true in
        rec data (mid + 1)%nat b limit (balanceThreshold <=? leftLen)%nat
            alreadyPartitioned
      else
        let data := rec data (mid + 1)%nat b limit true true in
        rec data a mid limit (balanceThreshold <=? rightLen)%nat alreadyPartitioned.

(** The loop of [pdqsort_func].  Each turn and each nested call works on
    a shorter part of the slice, so [b - a] turns are enough. *)
Fixpoint pdqsort_loop (n : nat) (data : list A) (a b limit : nat)
    (wasBalanced wasPartitioned : bool) : list A :=
  if (b - a <=? maxInsertion)%nat then insertionSort_func data a b
  else
    match n with
    | O => data
    | S n' => pdqsort_turn (pdqsort_loop n') data a b limit wasBalanced wasPartitioned
    end.

Definition pdqsort_func (data : list A) (a b limit : nat) : list A :=
  pdqsort_loop (b - a) data a b limit true true.

(** [sort.Slice(x, less)] *)
Definition Slice (x : list A) : list A :=
  let length := length x in
  let limit := bits_Len length in
  pdqsort_func x 0 length limit.

End WithLess.
End Go.

(** ** log_preprocessor.go *)

Module Preprocessor.
Import Go.

(** A Go [(value, error)] pair: the error is [errors.New(msg)]. *)
Inductive result (A : Type) : Type :=
| Ok (a : A)
| Err (msg : string).
Arguments Ok {A} a.
Arguments Err {A} msg.

Record RawLogGo : Type := {
  Timestamp : string;
  Level : string;
  Service : string;
  Pod : option string;
  Message : string;
  ErrorClass : option string
}.

Record LogPatternGo : Type := {
  Pattern : string;
  Count : Z;
  FirstOccurrence : string;
  LastOccurrence : string;
  PatternErrorClass : option string
}.

Record SequenceItemGo : Type := {
  ItemTimestamp : string;
  ItemType : string;
  ItemMessage : string;
  SequenceIndex : Z
}.

Record MetricsGo : Type := {
  ErrorRateZ : float;
  LatencyZ : float
}.

Record CorrelationBundleGo : Type := {
  WindowStart : string;
  WindowEnd : string;
  RootService : option string;
  AffectedServices : list string;
  LogPatterns : list LogPatternGo;
  Events : list string;
  Metrics : MetricsGo;
  DependencyGraph : list string;
  Sequence : list SequenceItemGo;
  DerivedRootCauseHint : string
}.

(** What the program takes from its runtime:
    - [clock n] is the [n]-th reading of
      [time.Now().UTC().Format(time.RFC3339)];
    - [sort_Slice less x] is the slice after [sort.Slice(x, less)];
    - [range_order] is the order in which one [for ... range] loop visits
      the entries of a map;
    - [unicode] stands for the tables of package unicode. *)
Record Runtime : Type := {
  clock : nat -> string;
  sort_Slice : (RawLogGo -> RawLogGo -> bool) -> list RawLogGo -> list RawLogGo;
  range_order : forall A : Type, list A -> list A;
  unicode : Unicode
}.

(** What [sort.Slice] asks of its [less]: a transitive ordering whose
    incomparability is transitive too. *)
Record StrictWeak {A : Type} (less : A -> A -> bool) : Prop := {
  sw_irrefl : forall a, less a a = false;
  sw_trans : forall a b c, less a b = true -> less b c = true -> less a c = true;
  sw_incomp : forall a b c,
    less a b = false -> less b a = false ->
    less b c = false -> less c b = false ->
    less a c = false /\ less c a = false
}.

(** The documented contract of the runtime.  [sort.Slice] permutes the
    slice and leaves it sorted: no element is [less] than its predecessor,
    which is what [sort.SliceIsSorted] tests.  Package sort says of it:
    "The sort is not guaranteed to be stable: equal elements may be
    reversed from their original order. For a stable sort, use
    SliceStable."  So nothing is assumed about elements that compare
    equal.  A [range] loop visits every entry of a map once, in an order
    that is left open. *)
Record RuntimeOk (R : Runtime) : Prop := {
  sort_Slice_perm : forall less x, sort_Slice R less x ≡ₚ x;
  sort_Slice_sorted : forall less x,
    StrictWeak less ->
    Sorted (fun a b => less b a = false) (sort_Slice R less x);
  range_order_perm : forall A (l : list A), range_order R A l ≡ₚ l
}.

Section WithRuntime.
Variable R : Runtime.

(** One iteration of the loop of [ParseLogs]; [tick] counts the readings
    of the clock made so far. *)
Definition parse_entry (tick : nat) (entry : gmap string Value) : RawLogGo * nat :=
  let '(timestamp, tick') :=
    match assert_string entry "timestamp" with
    | (v, true) => if negb (v =? "")%string then (v, tick)
                   else (clock R tick, S tick)
    | (_, false) => (clock R tick, S tick)
    end in
  let level :=
    match assert_string entry "level" with
    | (v, true) => if negb (v =? "")%string then v else "INFO"
    | (_, false) => "INFO"
    end in
  let service :=
    match assert_string entry "service" with
    | (v, true) => if negb (v =? "")%string then v else "unknown"
    | (_, false) => "unknown"
    end in
  let pod :=
    match assert_string entry "pod" with
    | (v, true) => Some v
    | (_, false) => None
    end in
  let message :=
    match assert_string entry "message" with
    | (v, true) => v
    | (_, false) => ""
    end in
  let errorClass :=
    match assert_string entry "errorClass" with
    | (v, true) => Some v
    | (_, false) => None
    end in
  ({| Timestamp := timestamp; Level := level; Service := service;
      Pod := pod; Message := message; ErrorClass := errorClass |}, tick').

(** [parsedLogs] when the loop of [ParseLogs] is left. *)
Fixpoint parse_entries (tick : nat) (rawData : list (gmap string Value)) : list RawLogGo :=
  match rawData with
  | [] => []
  | entry :: rest =>
      let '(log, tick') := parse_entry tick entry in
      log :: parse_entries tick' rest
  end.

(** The [less] handed to [sort.Slice]. *)
Definition timestamp_less (a b : RawLogGo) : bool :=
  str_lt (Timestamp a) (Timestamp b).

(** [rawData] is [None] for the nil slice. *)
Definition ParseLogs (rawData : option (list (gmap string Value))) : result (list RawLogGo) :=
  match rawData with
  | None => Err "rawData is nil"
  | Some entries => Ok (sort_Slice R timestamp_less (parse_entries 0 entries))
  end.

(** The body of the loop of [MinePatterns]. *)
Definition mine_step (patternMap : gmap string LogPatternGo) (log : RawLogGo)
  : gmap string LogPatternGo :=
  let key := Message log in
  let p :=
    match patternMap !! key with
    | Some p => p
    | None => {| Pattern := key; Count := 0;
                 FirstOccurrence := Timestamp log;
                 LastOccurrence := Timestamp log;
                 PatternErrorClass := ErrorClass log |}
    end in
  let count := int_add (Count p) 1 in
  let first := if str_lt (Timestamp log) (FirstOccurrence p)
               then Timestamp log else FirstOccurrence p in
  let last := if str_gt (Timestamp log) (LastOccurrence p)
              then Timestamp log else LastOccurrence p in
  <[key := {| Pattern := Pattern p; Count := count;
              FirstOccurrence := first; LastOccurrence := last;
              PatternErrorClass := PatternErrorClass p |}]> patternMap.

Definition mine_map (logs : list RawLogGo) : gmap string LogPatternGo :=
  fold_left mine_step logs ∅.

Definition MinePatterns (logs : list RawLogGo) : list LogPatternGo :=
  (range_order R _ (map_to_list (mine_map logs))).*2.

Definition is_root_level (log : RawLogGo) : bool :=
  (Level log =? "ERROR")%string || (Level log =? "FATAL")%string
  || (Level log =? "CRITICAL")%string.

Definition sequence_item (i : nat) (log : RawLogGo) : SequenceItemGo :=
  {| ItemTimestamp := Timestamp log;
     ItemType := "log";
     ItemMessage := "[" +:+ Service log +:+ "] " +:+ Message log;
     SequenceIndex := Z.of_nat i |}.

Definition CreateBundle (logs : list RawLogGo) (patterns : list LogPatternGo)
  : result CorrelationBundleGo :=
  match logs with
  | [] => Err "cannot create bundle from empty logs"
  | first :: _ =>
      let windowStart := Timestamp first in
      let windowEnd := Timestamp (List.last logs first) in
      let affectedServicesMap : gset string :=
        fold_left (fun m log => {[Service log]} ∪ m) logs ∅ in
      let affectedServices := range_order R _ (elements affectedServicesMap) in
      let sequence := imap sequence_item logs in
      let rootService := Service <$> List.find is_root_level logs in
      let fullText := ToLower (unicode R) (Join (map Message logs) " ") in
      let latencyZ :=
        if Contains fullText "timeout" || Contains fullText "messages"
        then 3%float else 0%float in
      let errorRateZ :=
        if existsb (fun l => (Level l =? "ERROR")%string) logs
        then 5%float else 0%float in
      Ok {| WindowStart := windowStart;
            WindowEnd := windowEnd;
            RootService := rootService;
            AffectedServices := affectedServices;
            LogPatterns := patterns;
            Events := [];
            Metrics := {| ErrorRateZ := errorRateZ; LatencyZ := latencyZ |};
            DependencyGraph := affectedServices;
            Sequence := sequence;
            DerivedRootCauseHint :=
              match rootService with
              | Some s => "Issue detected in " +:+ s
              | None => "Unknown issue"
              end |}
  end.

Definition Process (rawData : option (list (gmap string Value))) : result CorrelationBundleGo :=
  match ParseLogs rawData with
  | Err e => Err e
  | Ok logs =>
      let patterns := MinePatterns logs in
      match CreateBundle logs patterns with
      | Err e => Err e
      | Ok bundle => Ok bundle
      end
  end.

End WithRuntime.

End Preprocessor.

(** ** main.go (sidecar agent with the stream endpoints) *)

Module Agent.
Import Go.
Export Preprocessor (result, Ok, Err).

Record LogOutput : Type := {
  Timestamp : string;
  Level : string;
  Service : string;
  Message : string
}.

(** *** UTF-16 file reader *)

Definition byte_Z (b : byte) : Z := Z.of_N (Byte.to_N b).

(** [string(data)] for a byte slice. *)
Definition string_of_bytes (data : list byte) : string := string_of_list_byte data.

(** [binary.LittleEndian.Uint16(b)] and [binary.BigEndian.Uint16(b)];
    shorter slices make Go panic, which [readFileAutoUTF] never lets
    happen (it reads at [2+i*2] for [i < (len(data)-2)/2] only). *)
Definition LittleEndian_Uint16 (b : list byte) : Z :=
  match b with
  | b0 :: b1 :: _ => Z.lor (byte_Z b0) (Z.shiftl (byte_Z b1) 8)
  | _ => 0
  end.

Definition BigEndian_Uint16 (b : list byte) : Z :=
  match b with
  | b0 :: b1 :: _ => Z.lor (byte_Z b1) (Z.shiftl (byte_Z b0) 8)
  | _ => 0
  end.

Definition surr1 : Z := 0xd800.
Definition surr2 : Z := 0xdc00.
Definition surr3 : Z := 0xe000.
Definition surrSelf : Z := 0x10000.
Definition replacementChar : Z := 0xFFFD.
Definition MaxRune : Z := 0x10FFFF.

(** [utf16.DecodeRune] on a valid surrogate pair. *)
Definition DecodeRune (r1 r2 : Z) : Z :=
  Z.lor (Z.shiftl (r1 - surr1) 10) (r2 - surr2) + surrSelf.

(** [utf16.Decode]. *)
Fixpoint utf16_Decode (s : list Z) : list Z :=
  match s with
  | [] => []
  | r :: rest =>
      if (r <? surr1) || (surr3 <=? r) then r :: utf16_Decode rest
      else match rest with
           | r2 :: rest' =>
               if (surr1 <=? r) && (r <? surr2) && (surr2 <=? r2) && (r2 <? surr3)
               then DecodeRune r r2 :: utf16_Decode rest'
               else replacementChar :: utf16_Decode rest
           | [] => [replacementChar]
           end
  end.

(** The UTF-8 encoding of one rune, as [string(r)] appends it. *)
Definition encode_rune (r : Z) : list byte :=
  let b (z : Z) : byte := default x00 (Byte.of_N (Z.to_N z)) in
  let r := if (r <? 0) || (MaxRune <? r) || ((surr1 <=? r) && (r <? surr3))
           then replacementChar else r in
  if r <? 0x80 then [b r]
  else if r <? 0x800 then
    [b (Z.lor 0xC0 (Z.shiftr r 6)); b (Z.lor 0x80 (Z.land r 0x3F))]
  else if r <? 0x10000 then
    [b (Z.lor 0xE0 (Z.shiftr r 12));
     b (Z.lor 0x80 (Z.land (Z.shiftr r 6) 0x3F));
     b (Z.lor 0x80 (Z.land r 0x3F))]
  else
    [b (Z.lor 0xF0 (Z.shiftr r 18));
     b (Z.lor 0x80 (Z.land (Z.shiftr r 12) 0x3F));
     b (Z.lor 0x80 (Z.land (Z.shiftr r 6) 0x3F));
     b (Z.lor 0x80 (Z.land r 0x3F))].

(** [string(runes)] for a rune slice. *)
Definition string_of_runes (runes : list Z) : string :=
  string_of_bytes (concat (map encode_rune runes)).

(** [u16] once the loop [for i := range u16] has filled it. *)
Definition read_units (Uint16 : list byte -> Z) (data : list byte) : list Z :=
  map (fun i => Uint16 (drop (2 + i * 2)%nat data))
      (seq 0 ((length data - 2) / 2)%nat).

Definition starts_with (data : list byte) (b0 b1 : Z) : bool :=
  match data with
  | d0 :: d1 :: _ => (byte_Z d0 =? b0) && (byte_Z d1 =? b1)
  | _ => false
  end.

(** [readFileAutoUTF], given what [os.ReadFile(path)] returned. *)
Definition readFileAutoUTF (file : result (list byte)) : result string :=
  match file with
  | Err e => Err e
  | Ok data =>
      if (2 <? Z.of_nat (length data)) && starts_with data 0xFF 0xFE then
        Ok (string_of_runes (utf16_Decode (read_units LittleEndian_Uint16 data)))
      else if (2 <? Z.of_nat (length data)) && starts_with data 0xFE 0xFF then
        Ok (string_of_runes (utf16_Decode (read_units BigEndian_Uint16 data)))
      else Ok (string_of_bytes data)
  end.

(** *** Log parser *)

(** [regexp.MustCompile(`^\d{4}-\d{2}-\d{2}`)] *)
Definition timeRegex : regex :=
  Cat (Repeat 4 (Class digit))
      (Cat (Chr "-") (Cat (Repeat 2 (Class digit))
                          (Cat (Chr "-") (Repeat 2 (Class digit))))).

(** The loop over [[]string{"ERROR", "WARN", "DEBUG"}] with its [break]. *)
Fixpoint first_contained (line : string) (levels : list string) (level : string) : string :=
  match levels with
  | [] => level
  | l :: rest => if Contains line l then l else first_contained line rest level
  end.

Section WithUnicode.
Variable U : Unicode.

(** [parseLine]; [now] is [time.Now().UTC().Format(time.RFC3339)]. *)
Definition parseLine (now : string) (line service : string) : LogOutput :=
  let level := first_contained line ["ERROR"; "WARN"; "DEBUG"] "INFO" in
  let msg := TrimSpace U (ReplaceAllString_prefix timeRegex line "") in
  {| Timestamp := now; Level := level; Service := service; Message := msg |}.

(** *** Rotation-safe tail *)

(** The newline byte. *)
Definition nl : string := String (ascii_of_nat 10) "".

(** The size of the buffer of [bufio.NewReader]. *)
Definition defaultBufSize : nat := 4096.

(** The open file and its [bufio.Reader]: the offset of the handle, and
    the bytes already read from the file but not yet returned. *)
Record Reader : Type := {
  offset : nat;
  buffered : string
}.

Record Tailer : Type := {
  reader : Reader;
  lastSize : Z
}.

(** Index of the first newline. *)
Definition newline_index (s : string) : option nat := String.index 0 nl s.

(** [reader.ReadString('\n')] on the file whose content is [cur].  The
    result is the line with [true] for [io.EOF].  The reader returns a
    line held in its buffer without touching the file; otherwise it
    refills the buffer to its capacity, again and again, until a newline
    or the end of the file is met.  Then the text ahead of the reader is
    [buffered ++ rest of the file], cut into blocks of the buffer's size. *)
Definition ReadString (cur : string) (rd : Reader) : (string * bool) * Reader :=
  match newline_index (buffered rd) with
  | Some i =>
      (substring 0 (S i) (buffered rd), false,
       {| offset := offset rd;
          buffered := drop_string (S i) (buffered rd) |})
  | None =>
      let ahead := buffered rd +:+ drop_string (offset rd) cur in
      let total := String.length ahead in
      match newline_index ahead with
      | Some i =>
          let block_end := Nat.min ((i / defaultBufSize + 1) * defaultBufSize) total in
          (substring 0 (S i) ahead, false,
           {| offset := offset rd + (block_end - String.length (buffered rd));
              buffered := substring (S i) (block_end - S i) ahead |})
      | None =>
          (ahead, true,
           {| offset := offset rd + (total - String.length (buffered rd));
              buffered := "" |})
      end
  end.

(** What one turn of the loop of [tailFile] finds: the context cancelled,
    or the file holding [cur].  The file is one file throughout (it is
    truncated or rewritten in place), so [os.Open(path)] succeeds on it. *)
Inductive Poll : Type :=
| Cancelled
| Snapshot (cur : string).

(** How one turn ends. *)
Inductive Turn : Type :=
| Return (err : option string)
| Continue (t : Tailer) (log : option LogOutput).

(** The rotation check in front of each read. *)
Definition check_rotation (cur : string) (t : Tailer) : Tailer :=
  if Z.of_nat (String.length cur) <? lastSize t
  then {| reader := {| offset := 0; buffered := "" |}; lastSize := 0 |}
  else t.

(** One turn of the [for] loop of [tailFile]. *)
Definition tail_turn (now service : string) (p : Poll) (t : Tailer) : Turn :=
  match p with
  | Cancelled => Return None
  | Snapshot cur =>
      let t := check_rotation cur t in
      let '(line, eof, rd) := ReadString cur (reader t) in
      if eof then Continue {| reader := rd; lastSize := lastSize t |} None
      else
        let lastSize' := int_add (lastSize t) (Z.of_nat (String.length line)) in
        let t' := {| reader := rd; lastSize := lastSize' |} in
        let line := TrimSpace U line in
        if (line =? "")%string then Continue t' None
        else Continue t' (Some (parseLine now line service))
  end.

(** What is known of a run of [tailFile] after some turns: the records
    handed to [onLog], and either the value returned or the state of the
    tailer still looping. *)
Record Run : Type := {
  emitted : list LogOutput;
  returned : option (option string);
  state : Tailer
}.

Fixpoint tail_loop (clock : nat -> string) (service : string)
    (polls : list Poll) (t : Tailer) (out : list LogOutput) : Run :=
  match polls with
  | [] => {| emitted := out; returned := None; state := t |}
  | p :: rest =>
      match tail_turn (clock (length out)) service p t with
      | Return err => {| emitted := out; returned := Some err; state := t |}
      | Continue t' None => tail_loop clock service rest t' out
      | Continue t' (Some log) => tail_loop clock service rest t' (out ++ [log])
      end
  end.

(** [tailFile], given what [os.Open(path)] found (the content of the file
    at that time, or the error) and what the following turns find. *)
Definition tailFile (clock : nat -> string) (service : string)
    (opened : result string) (polls : list Poll) : Run :=
  match opened with
  | Err e =>
      {| emitted := []; returned := Some (Some e);
         state := {| reader := {| offset := 0; buffered := "" |}; lastSize := 0 |} |}
  | Ok cur0 =>
      tail_loop clock service polls
        {| reader := {| offset := String.length cur0; buffered := "" |};
           lastSize := 0 |} []
  end.

End WithUnicode.

(** *** Log sources and helpers *)

Record ServerConfig : Type := {
  Addr : string;
  DefaultLines : Z;
  MaxLines : Z
}.

(** [FileLogSource.ReadLogs], given what [os.ReadFile(f.Path)]
    returned.  The error of the scanner is not looked at. *)
Definition ReadLogs (file : result (list byte)) (lines : Z) : result string :=
  match readFileAutoUTF file with
  | Err e => Err e
  | Ok content =>
      let all := fst (scan_lines content) in
      let len := Z.of_nat (length all) in
      if len =? 0 then Ok ""
      else
        let lines := if (lines <=? 0) || (len <? lines) then len else lines in
        let start := len - lines in
        Ok (Join (drop (Z.to_nat start) all) nl)
  end.

(** [parseLines], given the value of the query parameter [lines] (empty
    when it is absent) and [globalConfig.Server]. *)
Definition parseLines (linesStr : string) (server : ServerConfig) : Z :=
  match Atoi linesStr with
  | (n, err) =>
      if bool_decide (err <> None) || (n <=? 0) then DefaultLines server
      else if MaxLines server <? n then MaxLines server
      else n
  end.

Record LogTarget : Type := {
  Type_ : string;
  Path : string;
  URL : string;
  Service_ : string
}.

Record AppConfig : Type := {
  Logs : gmap string LogTarget
}.

Record Config : Type := {
  Server : option ServerConfig;
  Apps : gmap string AppConfig
}.

(** The two implementations of the interface [LogSource]. *)
Inductive LogSource : Type :=
| FileLogSource (path : string)
| APILogSource (url : string).

Definition sourceFromConfig (globalConfig : Config) (app key : string)
  : result (LogSource * LogTarget) :=
  match Apps globalConfig !! app with
  | None => Err "unknown app"
  | Some a =>
      match Logs a !! key with
      | None => Err "unknown log key"
      | Some t =>
          if (Type_ t =? "file")%string then Ok (FileLogSource (Path t), t)
          else Ok (APILogSource (URL t), t)
      end
  end.

(** What a handler does: it answers with an error status, it writes the
    records as JSON, or it panics on a nil pointer. *)
Inductive Response : Type :=
| BadRequest (msg : string)
| Encoded (out : list LogOutput)
| Panic.

Section Handlers.
Variable U : Unicode.

(** [os.ReadFile], and the body read from [http.DefaultClient.Do] (or its
    error). *)
Variable ReadFile : string -> result (list byte).
Variable Get : string -> result string.

(** The method [ReadLogs] of a [LogSource]. *)
Definition source_ReadLogs (src : LogSource) (lines : Z) : result string :=
  match src with
  | FileLogSource path => ReadLogs (ReadFile path) lines
  | APILogSource url => Get url
  end.

(** The loop of [logsHandler] over the lines scanned; [clock i] is what
    [parseLine] reads from the clock for the [i]-th record. *)
Fixpoint handler_loop (clock : nat -> string) (service : string)
    (tokens : list string) (out : list LogOutput) : list LogOutput :=
  match tokens with
  | [] => out
  | text :: rest =>
      let line := TrimSpace U text in
      if (line =? "")%string then handler_loop clock service rest out
      else handler_loop clock service rest
             (out ++ [parseLine U (clock (length out)) line service])
  end.

(** [logsHandler], given the query parameters [app], [log] and [lines].
    The error of [ReadLogs] is dropped. *)
Definition logsHandler (globalConfig : Config) (clock : nat -> string)
    (app key linesStr : string) : Response :=
  match sourceFromConfig globalConfig app key with
  | Err e => BadRequest e
  | Ok (src, target) =>
      match Server globalConfig with
      | None => Panic
      | Some server =>
          let raw :=
            match source_ReadLogs src (parseLines linesStr server) with
            | Ok raw => raw
            | Err _ => ""
            end in
          Encoded (handler_loop clock (Service_ target) (fst (scan_lines raw)) [])
      end
  end.

End Handlers.

End Agent.

(** ** main.go (the agent without the stream endpoints) *)

Module Legacy.
Import Go.

(** [regexp.MustCompile(`^\d{4}-\d{2}-\d{2}[ T]\d{2}:\d{2}:\d{2}`)] *)
Definition timeRegex : regex :=
  Cat Agent.timeRegex
      (Cat (Class (fun c => Ascii.eqb c " " || Ascii.eqb c "T"))
           (Cat (Repeat 2 (Class digit))
                (Cat (Chr ":") (Cat (Repeat 2 (Class digit))
                                    (Cat (Chr ":") (Repeat 2 (Class digit))))))).

(** [regexp.MustCompile(`^\s*at\s+[\w.$_]+\(.*:\d+\)$`)] *)
Definition javaStackLine : regex :=
  Cat (Star (Class space))
   (Cat (Chr "a") (Cat (Chr "t")
    (Cat (Plus (Class space))
     (Cat (Plus (Class (fun c => word c || Ascii.eqb c "." || Ascii.eqb c "$"
                                 || Ascii.eqb c "_")))
      (Cat (Chr "(")
       (Cat (Star (Class any_char))
        (Cat (Chr ":") (Cat (Plus (Class digit)) (Chr ")"))))))))).

(** [formatLogLine]: the [switch] takes the first case that holds. *)
Definition formatLogLine (line : string) : gmap string Value :=
  let result : gmap string Value := {[ "raw" := VString line ]} in
  let result :=
    if MatchString_prefix timeRegex line
    then <["type" := VString "timestamped"]> result else result in
  let result :=
    if full_match javaStackLine line
    then <["type" := VString "stacktrace_line"]> result else result in
  if Contains line "ERROR" then <["severity" := VString "ERROR"]> result
  else if Contains line "WARN" then <["severity" := VString "WARN"]> result
  else if Contains line "INFO" then <["severity" := VString "INFO"]> result
  else if Contains line "DEBUG" then <["severity" := VString "DEBUG"]> result
  else result.

Import Preprocessor (result, Ok, Err).

Record ServerConfig : Type := {
  Addr : string;
  DefaultLines : Z;
  MaxLines : Z
}.

Record AIConfig : Type := {
  BaseURL : string;
  APIKey : string;
  TimeoutSeconds : Z
}.

Record LogTarget : Type := {
  Type_ : string;
  Path : string;
  URL : string
}.

Record AppConfig : Type := {
  Logs : gmap string LogTarget
}.

Record Config : Type := {
  Server : option ServerConfig;
  AI : option AIConfig;
  Apps : gmap string AppConfig
}.

(** [loadConfig], given what [os.ReadFile(path)] returned; [Unmarshal] is
    [yaml.Unmarshal] into a zero [Config]. *)
Definition loadConfig (Unmarshal : list byte -> result Config)
    (file : result (list byte)) : result Config :=
  match file with
  | Err e => Err ("read config: " +:+ e)
  | Ok data =>
      match Unmarshal data with
      | Err e => Err ("parse config: " +:+ e)
      | Ok cfg =>
          let server :=
            match Server cfg with
            | None => {| Addr := ""; DefaultLines := 0; MaxLines := 0 |}
            | Some s => s
            end in
          let server :=
            if DefaultLines server <=? 0
            then {| Addr := Addr server; DefaultLines := 100;
                    MaxLines := MaxLines server |}
            else server in
          let server :=
            if MaxLines server <=? 0
            then {| Addr := Addr server; DefaultLines := DefaultLines server;
                    MaxLines := 1000 |}
            else server in
          Ok {| Server := Some server; AI := AI cfg; Apps := Apps cfg |}
      end
  end.

(** [FileLogSource.ReadLogs], given what [os.Open(f.Path)] found (the
    content of the file, or the error); [ctx i] is [ctx.Err()] when the
    context is found done at the [i]-th line, and [None] when it is
    not. *)
Fixpoint read_all (ctx : nat -> option string) (i : nat) (tokens : list string)
  : result (list string) :=
  match tokens with
  | [] => Ok []
  | line :: rest =>
      match ctx i with
      | Some e => Err e
      | None =>
          match read_all ctx (S i) rest with
          | Err e => Err e
          | Ok allLines => Ok (line :: allLines)
          end
      end
  end.

Definition ReadLogs (opened : result string) (ctx : nat -> option string)
    (lines : Z) : result string :=
  match opened with
  | Err e => Err ("open file: " +:+ e)
  | Ok content =>
      let '(tokens, tooLong) := scan_lines content in
      match read_all ctx 0 tokens with
      | Err e => Err e
      | Ok allLines =>
          if tooLong then Err "scan file: bufio.Scanner: token too long"
          else
            let len := Z.of_nat (length allLines) in
            if len =? 0 then Ok ""
            else
              let lines := if (lines <=? 0) || (len <? lines) then len else lines in
              let start := len - lines in
              let selected := drop (Z.to_nat start) allLines in
              Ok (Join selected Agent.nl +:+ Agent.nl)
      end
  end.

(** [parseLines], given the value of the query parameter [lines] and
    [globalConfig]. *)
Definition parseLines (linesStr : string) (globalConfig : option Config) : Z :=
  let default :=
    match globalConfig with
    | Some cfg =>
        match Server cfg with
        | Some server => DefaultLines server
        | None => 100
        end
    | None => 100
    end in
  if (linesStr =? "")%string then default
  else
    match Atoi linesStr with
    | (n, err) =>
        if bool_decide (err <> None) || (n <=? 0) then default
        else
          match globalConfig with
          | Some cfg =>
              match Server cfg with
              | Some server => if MaxLines server <? n then MaxLines server else n
              | None => n
              end
          | None => n
          end
    end.

(** [sanitizeBinary]: the bytes kept become runes, and the runes a
    string. *)
Definition keeps (b : byte) : bool :=
  let v := Agent.byte_Z b in
  ((32 <=? v) && (v <=? 126)) || (v =? 10) || (v =? 13) || (v =? 9).

Definition sanitizeBinary (data : list byte) : string :=
  Agent.string_of_runes (map Agent.byte_Z (List.filter keeps data)).

End Legacy.

(** ** Reference instances and the vocabulary of the properties *)

Module Reference.
Import Go Preprocessor.

(** An insertion sort that meets the contract of [sort.Slice].  Elements
    are inserted from the last one backwards, each behind the elements it
    is not [less] than. *)
Fixpoint insert_by {A : Type} (less : A -> A -> bool) (x : A) (l : list A) : list A :=
  match l with
  | [] => [x]
  | y :: l' => if less x y then x :: l else y :: insert_by less x l'
  end.

Definition insertion_sort {A : Type} (less : A -> A -> bool) (l : list A) : list A :=
  foldr (insert_by less) [] l.

Definition no_unicode : Unicode :=
  {| TrimFunc_IsSpace := fun s => s;
     TrimRightFunc_IsSpace := fun s => s;
     Map_ToLower := fun s => s |}.

(** A runtime whose clock stands still, whose maps are visited in the
    order of their listing and whose sort is [insertion_sort].  It is an
    instance of the contract, not Go's own sort, which is [go_runtime]'s. *)
Definition runtime0 : Runtime :=
  {| clock := fun _ => "2024-01-01T00:00:00Z";
     sort_Slice := insertion_sort;
     range_order := fun _ l => l;
     unicode := no_unicode |}.

(** The runtime whose sort is Go's own [sort.Slice]; the clock, the order
    of the maps and the tables of package unicode are those of
    [runtime0]. *)
Definition go_runtime : Runtime :=
  {| clock := fun _ => "2024-01-01T00:00:00Z";
     sort_Slice := fun less x => Slice less x;
     range_order := fun _ l => l;
     unicode := no_unicode |}.

(** A raw entry with the four fields the agent sends. *)
Definition entry (timestamp level service message : string) : gmap string Value :=
  {[ "timestamp" := VString timestamp; "level" := VString level;
     "service" := VString service; "message" := VString message ]}.

(** A raw entry without a timestamp. *)
Definition entry_now (level service message : string) : gmap string Value :=
  {[ "level" := VString level; "service" := VString service;
     "message" := VString message ]}.

(** [t] is the least (greatest) timestamp of the records [logs]. *)
Definition min_timestamp (logs : list RawLogGo) (t : string) : Prop :=
  (exists r, r ∈ logs /\ Preprocessor.Timestamp r = t) /\
  forall r, r ∈ logs -> str_le t (Preprocessor.Timestamp r) = true.

Definition max_timestamp (logs : list RawLogGo) (t : string) : Prop :=
  (exists r, r ∈ logs /\ Preprocessor.Timestamp r = t) /\
  forall r, r ∈ logs -> str_le (Preprocessor.Timestamp r) t = true.

(** Records in ascending order of timestamp. *)
Definition ts_le (a b : RawLogGo) : Prop :=
  str_le (Preprocessor.Timestamp a) (Preprocessor.Timestamp b) = true.

(** Two records that arrive with one timestamp. *)
Definition tie_entries : list (gmap string Value) :=
  [entry "2024-01-01T00:00:00Z" "INFO" "svc" "first";
   entry "2024-01-01T00:00:00Z" "INFO" "svc" "second"].

(** Twelve records that arrive with one timestamp, and a thirteenth that
    arrives last with an earlier one. *)
Definition late_entries : list (gmap string Value) :=
  ((fun message => entry "2024-01-01T00:00:05Z" "INFO" "svc" message)
     <$> ["01"; "02"; "03"; "04"; "05"; "06"; "07"; "08"; "09"; "10"; "11"; "12"])
  ++ [entry "2024-01-01T00:00:00Z" "INFO" "svc" "13"].

(** Three records that arrive out of order. *)
Definition window_entries : list (gmap string Value) :=
  [entry "2024-01-01T00:00:03Z" "INFO" "svc" "third";
   entry "2024-01-01T00:00:01Z" "WARN" "svc" "first";
   entry "2024-01-01T00:00:02Z" "INFO" "svc" "second"].

(** The items of a sequence ascend by timestamp. *)
Definition ascending (items : list SequenceItemGo) : Prop :=
  StronglySorted (fun a b => str_le (ItemTimestamp a) (ItemTimestamp b) = true) items.

(** The items of [items] that share a timestamp come in the order they
    have in [arrival]. *)
Definition ties_in_arrival_order (arrival items : list SequenceItemGo) : Prop :=
  forall t : string,
    ItemMessage <$> filter (fun it => ItemTimestamp it = t) items =
    ItemMessage <$> filter (fun it => ItemTimestamp it = t) arrival.

(** The count mined for the message [key]; none is zero. *)
Definition count_of (key : string) (patterns : list LogPatternGo) : Z :=
  match List.find (fun p => (Pattern p =? key)%string) patterns with
  | Some p => Count p
  | None => 0
  end.

(** Merging mined counts per message key, over the parts of a record list. *)
Definition merged_count (R : Runtime) (key : string) (parts : list (list RawLogGo)) : Z :=
  foldr (fun part acc => count_of key (MinePatterns R part) + acc) 0 parts.

(** How many of the records carry the message [key]. *)
Definition occurrences (key : string) (logs : list RawLogGo) : Z :=
  Z.of_nat (length (filter (fun log => Message log = key) logs)).

(** The count held by [patternMap] for [key]; none is zero. *)
Definition map_count (m : gmap string LogPatternGo) (key : string) : Z :=
  match m !! key with
  | Some p => Count p
  | None => 0
  end.

(** Every pattern of the map sits under its own text. *)
Definition keyed (m : gmap string LogPatternGo) : Prop :=
  forall k p, m !! k = Some p -> Pattern p = k.

(** The raw entry carries these three fields as strings. *)
Definition has_fields (e : gmap string Value) (level service message : string) : Prop :=
  e !! "level" = Some (VString level) /\
  e !! "service" = Some (VString service) /\
  e !! "message" = Some (VString message).

(** The three records of the scenario, without timestamps. *)
Definition scenario_entries : list (gmap string Value) :=
  [entry_now "ERROR" "svc-a" "conn timeout";
   entry_now "ERROR" "svc-a" "conn timeout";
   entry_now "INFO" "svc-b" "db ok"].

(** The 16-bit units of a byte sequence, two bytes each; a last byte
    without a partner belongs to no unit. *)
Fixpoint units_of (Uint16 : list byte -> Z) (body : list byte) : list Z :=
  match body with
  | b0 :: b1 :: rest => Uint16 [b0; b1] :: units_of Uint16 rest
  | _ => []
  end.

(** The file is at least three bytes long and begins with a byte-order
    mark. *)
Definition utf16_input (data : list byte) : bool :=
  (3 <=? length data)%nat
  && (Agent.starts_with data 0xFF 0xFE || Agent.starts_with data 0xFE 0xFF).

(** A tailed file: as it is when [tailFile] opens it, after one line was
    appended, and after it was truncated and written anew. *)
Definition file_opened : string := "aaaa" +:+ Agent.nl +:+ "bbbb" +:+ Agent.nl.
Definition file_grown : string := file_opened +:+ "c" +:+ Agent.nl.
Definition file_rotated : string := "new" +:+ Agent.nl.

End Reference.

(** ** Vocabulary of the further properties *)

Module Vocabulary.
Import Go Preprocessor Agent Reference.

(** A record with the four fields the agent fills. *)
Definition sample_log (timestamp level service message : string) : RawLogGo :=
  {| Preprocessor.Timestamp := timestamp; Preprocessor.Level := level;
     Preprocessor.Service := service; Pod := None;
     Preprocessor.Message := message; ErrorClass := None |}.

Definition sample_logs : list RawLogGo :=
  [sample_log "2024-01-01T00:00:03Z" "ERROR" "svc-a" "conn timeout";
   sample_log "2024-01-01T00:00:01Z" "ERROR" "svc-a" "conn timeout";
   sample_log "2024-01-01T00:00:02Z" "INFO" "svc-b" "db ok"].

(** The records that carry the message [key], in their order. *)
Definition group (key : string) (logs : list RawLogGo) : list RawLogGo :=
  filter (fun log => Preprocessor.Message log = key) logs.

(** The counts of a list of patterns, added up. *)
Definition total_count (patterns : list LogPatternGo) : Z :=
  foldr (fun p acc => Count p + acc) 0 patterns.

(** The text holds no blank. *)
Fixpoint space_free (w : string) : bool :=
  match w with
  | EmptyString => true
  | String c w' => negb (Ascii.eqb c " ") && space_free w'
  end.

(** The message of the record, in lower case, holds the word [w]. *)
Definition mentions (w : string) (log : RawLogGo) : bool :=
  Contains (lower_bytes (Preprocessor.Message log)) w.

(** A Unicode scalar value: a code point that is no surrogate. *)
Definition valid_rune (r : Z) : Prop :=
  0 <= r <= MaxRune /\ ~ (surr1 <= r < surr3).

(** A 16-bit unit. *)
Definition is_unit (u : Z) : Prop := 0 <= u < 65536.

Definition byte_of_Z (z : Z) : byte := default x00 (Byte.of_N (Z.to_N z)).

Definition is_ascii_byte (b : byte) : Prop := byte_Z b < 128.

(** 16-bit units written out after a byte-order mark, low byte first and
    high byte first. *)
Definition utf16le_bytes (units : list Z) : list byte :=
  xff :: xfe :: flat_map (fun u => [byte_of_Z (u mod 256); byte_of_Z (u / 256)]) units.

Definition utf16be_bytes (units : list Z) : list byte :=
  xfe :: xff :: flat_map (fun u => [byte_of_Z (u / 256); byte_of_Z (u mod 256)]) units.

(** The pattern matches no text at all. *)
Fixpoint dead (r : regex) : bool :=
  match r with
  | Void => true
  | Eps | Class _ | Star _ => false
  | Cat r1 r2 => dead r1 || dead r2
  | Alt r1 r2 => dead r1 && dead r2
  end.

(** The text begins with one byte of each class, in turn. *)
Fixpoint shaped (classes : list (ascii -> bool)) (s : string) : bool :=
  match classes, s with
  | [], _ => true
  | p :: classes', String c s' => p c && shaped classes' s'
  | _ :: _, EmptyString => false
  end.

(** The text begins with a date written [dddd-dd-dd]. *)
Definition date_shape (s : string) : bool :=
  shaped [digit; digit; digit; digit; Ascii.eqb "-"; digit; digit;
          Ascii.eqb "-"; digit; digit] s.

(** The text without its leading ASCII white space. *)
Fixpoint drop_spaces (s : string) : string :=
  match s with
  | EmptyString => EmptyString
  | String c s' => if asciiSpace c then drop_spaces s' else s
  end.

Fixpoint all_space (s : string) : bool :=
  match s with
  | EmptyString => true
  | String c s' => asciiSpace c && all_space s'
  end.

(** The text begins with ASCII white space. *)
Definition head_space (s : string) : bool :=
  match s with
  | EmptyString => false
  | String c _ => asciiSpace c
  end.

(** The text without ASCII white space at either end. *)
Definition trim_ascii (s : string) : string :=
  rev_string (drop_spaces (rev_string (drop_spaces s))).

(** The text holds no newline. *)
Fixpoint newline_free (s : string) : bool :=
  match s with
  | EmptyString => true
  | String c s' => negb (Ascii.eqb c (ascii_of_nat 10)) && newline_free s'
  end.

(** What a writer appends between two turns of the tailer: one whole line,
    or nothing. *)
Definition line_chunk (line : option string) : string :=
  match line with
  | Some l => l +:+ nl
  | None => ""
  end.

(** The file as the turns find it while [chunks] are appended to [cur]. *)
Fixpoint grow (cur : string) (chunks : list string) : list Poll :=
  match chunks with
  | [] => []
  | c :: rest => Snapshot (cur +:+ c) :: grow (cur +:+ c) rest
  end.

Definition appended (chunks : list string) : string := foldr String.append "" chunks.

(** The record the tailer makes of one line read, if the line is not
    blank. *)
Definition hand_on (U : Unicode) (now service line : string) : option LogOutput :=
  let text := TrimSpace U (line +:+ nl) in
  if (text =? "")%string then None else Some (parseLine U now text service).

(** The records made of the lines [lines], after the records [out]. *)
Fixpoint handed_on (U : Unicode) (clock : nat -> string) (service : string)
    (lines : list string) (out : list LogOutput) : list LogOutput :=
  match lines with
  | [] => out
  | l :: rest =>
      match hand_on U (clock (length out)) service l with
      | Some log => handed_on U clock service rest (out ++ [log])
      | None => handed_on U clock service rest out
      end
  end.

(** The number of newlines of the text. *)
Fixpoint count_newlines (s : string) : nat :=
  match s with
  | EmptyString => 0
  | String c s' =>
      if Ascii.eqb c (ascii_of_nat 10) then S (count_newlines s') else count_newlines s'
  end.

(** The bytes of a text. *)
Definition bytes_of (s : string) : list byte := list_byte_of_string s.

(** The greater of the two bounds of a server. *)
Definition line_limit (default max : Z) : Z := Z.max default max.

(** The text is made of decimal digits. *)
Fixpoint all_digits (s : string) : bool :=
  match s with
  | EmptyString => true
  | String c s' => digit c && all_digits s'
  end.

(** The number that a text of decimal digits writes. *)
Fixpoint decimal (s : string) : Z :=
  match s with
  | EmptyString => 0
  | String c s' => (byte_val c - 48) * 10 ^ Z.of_nat (String.length s') + decimal s'
  end.

(** A context that is never done. *)
Definition background : nat -> option string := fun _ => None.

(** The byte [c], [n] times. *)
Fixpoint repeat_byte (c : ascii) (n : nat) : string :=
  match n with
  | O => EmptyString
  | S n' => String c (repeat_byte c n')
  end.

(** A line that fills the buffer of a scanner. *)
Definition long_line : string := repeat_byte "x" (Z.to_nat MaxScanTokenSize).

(** A file target, the configuration that names it, and a file. *)
Definition sample_target : LogTarget :=
  {| Type_ := "file"; Path := "/var/log/shop.log"; URL := ""; Service_ := "billing" |}.

Definition sample_config : Config :=
  {| Server := Some {| Addr := ""; DefaultLines := 100; MaxLines := 1000 |};
     Apps := {[ "shop" := {| Logs := {[ "app" := sample_target ]} |} ]} |}.

Definition sample_file : list byte :=
  bytes_of ("2024-01-01 ERROR disk full" +:+ nl +:+ "2024-01-01 retrying" +:+ nl).

End Vocabulary.

(** * Properties *)

(** ** The order of Go strings *)

Module StringOrder.
Import Go.

Lemma str_lt_spec a b : str_lt a b = true <-> String_as_OT.lt a b.
Proof.
  change (String_as_OT.lt a b) with (String.compare a b = Lt).
  unfold str_lt, String.ltb.
  destruct (String.compare a b); split; congruence.
Qed.

Lemma str_lt_irrefl a : str_lt a a = false.
Proof.
  destruct (str_lt a a) eqn:E; [|reflexivity].
  apply str_lt_spec in E.
  destruct (StrictOrder_Irreflexive (R:=String_as_OT.lt) a E).
Qed.

Lemma str_lt_trans a b c : str_lt a b = true -> str_lt b c = true -> str_lt a c = true.
Proof.
  rewrite !str_lt_spec. apply (StrictOrder_Transitive (R:=String_as_OT.lt)).
Qed.

Lemma str_lt_le a b : str_lt b a = false <-> str_le a b = true.
Proof.
  unfold str_lt, str_le, String.ltb, String.leb.
  rewrite (String.compare_antisym a b).
  destruct (String.compare b a); simpl; split; congruence.
Qed.

Lemma str_le_refl a : str_le a a = true.
Proof. apply str_lt_le, str_lt_irrefl. Qed.

Lemma str_lt_total a b : str_lt a b = false -> str_lt b a = false -> a = b.
Proof.
  rewrite !str_lt_le. intros H1 H2. apply String.leb_antisym; assumption.
Qed.

Lemma str_le_trans a b c : str_le a b = true -> str_le b c = true -> str_le a c = true.
Proof.
  rewrite <- !str_lt_le. intros Hba Hcb.
  destruct (str_lt c a) eqn:Hca; [|reflexivity].
  destruct (str_lt a b) eqn:Hab.
  - rewrite (str_lt_trans c a b Hca Hab) in Hcb. discriminate.
  - assert (a = b) by (apply str_lt_total; assumption). subst. congruence.
Qed.

End StringOrder.

(** ** [sort.Slice] as package sort has it *)

Module SortFacts.
Import Go.

Section Turns.
Context {A : Type} (less : A -> A -> bool).

(** *** The bounds on the turns of the loops are enough *)

Lemma siftDown_loop_enough (n m : nat) : forall data root hi first,
  (hi - root <= n)%nat -> (hi - root <= m)%nat ->
  siftDown_loop less n data root hi first = siftDown_loop less m data root hi first.
Proof.
  revert m. induction n as [|n IH]; intros m data root hi first Hn Hm.
  - destruct m as [|m]; [reflexivity|]. cbn [siftDown_loop]. cbv zeta.
    replace (hi <=? 2 * root + 1)%nat with true by (symmetry; apply Nat.leb_le; lia).
    reflexivity.
  - destruct m as [|m]; cbn [siftDown_loop]; cbv zeta.
    + replace (hi <=? 2 * root + 1)%nat with true by (symmetry; apply Nat.leb_le; lia).
      reflexivity.
    + destruct (hi <=? 2 * root + 1)%nat eqn:Hc; [reflexivity|].
      apply Nat.leb_gt in Hc.
      destruct (_ && _); (destruct (negb _); [reflexivity|apply IH; lia]).
Qed.

Lemma skip_less_bounds (data : list A) (a n i : nat) :
  (i <= skip_less less data a n i <= i + n)%nat.
Proof.
  revert i. induction n as [|n IH]; intros i; cbn [skip_less]; [lia|].
  destruct (Less less data i a); [specialize (IH (S i))|]; lia.
Qed.

Lemma skip_not_less_bounds (data : list A) (a n j : nat) :
  (j - n <= skip_not_less less data a n j <= j)%nat.
Proof.
  revert j. induction n as [|n IH]; intros j; cbn [skip_not_less]; [lia|].
  destruct (Less less data j a); [|specialize (IH (j - 1)%nat)]; lia.
Qed.

Lemma skip_not_greater_bounds (data : list A) (a n i : nat) :
  (i <= skip_not_greater less data a n i <= i + n)%nat.
Proof.
  revert i. induction n as [|n IH]; intros i; cbn [skip_not_greater]; [lia|].
  destruct (Less less data a i); [|specialize (IH (S i))]; lia.
Qed.

Lemma skip_greater_bounds (data : list A) (a n j : nat) :
  (j - n <= skip_greater less data a n j <= j)%nat.
Proof.
  revert j. induction n as [|n IH]; intros j; cbn [skip_greater]; [lia|].
  destruct (Less less data a j); [specialize (IH (j - 1)%nat)|]; lia.
Qed.

Lemma partition_loop_enough (n m : nat) : forall data a i j,
  (S j - i <= n)%nat -> (S j - i <= m)%nat ->
  partition_loop less n data a i j = partition_loop less m data a i j.
Proof.
  revert m. induction n as [|n IH]; intros m data a i j Hn Hm;
    destruct m as [|m]; cbn [partition_loop]; cbv zeta;
    pose proof (skip_less_bounds data a (S j - i) i) as Hi;
    set (i' := skip_less less data a (S j - i) i) in *;
    pose proof (skip_not_less_bounds data a (S j - i') j) as Hj;
    set (j' := skip_not_less less data a (S j - i') j) in *;
    destruct (j' <? i')%nat eqn:Hc; try reflexivity;
    apply Nat.ltb_ge in Hc; try lia.
  apply IH; lia.
Qed.

Lemma partition_loop_bounds (n : nat) : forall data a i j,
  (1 <= i)%nat -> (i <= j + 2)%nat ->
  (i - 2 <= snd (partition_loop less n data a i j) <= j)%nat.
Proof.
  induction n as [|n IH]; intros data a i j H1 H2;
    cbn [partition_loop]; cbv zeta;
    pose proof (skip_less_bounds data a (S j - i) i) as Hi;
    set (i' := skip_less less data a (S j - i) i) in *;
    pose proof (skip_not_less_bounds data a (S j - i') j) as Hj;
    set (j' := skip_not_less less data a (S j - i') j) in *;
    destruct (j' <? i')%nat eqn:Hc; cbn [snd]; try lia;
    apply Nat.ltb_ge in Hc; try lia.
  specialize (IH (Swap data i' j') a (S i') (j' - 1)%nat). lia.
Qed.

Lemma partition_func_bounds (data : list A) (a b pivot : nat) :
  (a < b)%nat ->
  (a <= snd (fst (partition_func less data a b pivot)) < b)%nat.
Proof.
  intros Hab. unfold partition_func. cbv zeta.
  set (data1 := Swap data a pivot).
  pose proof (skip_less_bounds data1 a (S (b - 1) - (a + 1)) (a + 1)) as Hi.
  set (i' := skip_less less data1 a (S (b - 1) - (a + 1)) (a + 1)) in *.
  pose proof (skip_not_less_bounds data1 a (S (b - 1) - i') (b - 1)) as Hj.
  set (j' := skip_not_less less data1 a (S (b - 1) - i') (b - 1)) in *.
  destruct (j' <? i')%nat eqn:Hc; [cbn [fst snd]; lia|].
  apply Nat.ltb_ge in Hc.
  pose proof (partition_loop_bounds (b - a) (Swap data1 i' j') a (S i') (j' - 1)) as Hl.
  destruct (partition_loop less (b - a) (Swap data1 i' j') a (S i') (j' - 1))
    as [data2 r].
  cbn [fst snd] in *. lia.
Qed.

Lemma partitionEqual_loop_enough (n m : nat) : forall data a i j,
  (S j - i <= n)%nat -> (S j - i <= m)%nat ->
  partitionEqual_loop less n data a i j = partitionEqual_loop less m data a i j.
Proof.
  revert m. induction n as [|n IH]; intros m data a i j Hn Hm;
    destruct m as [|m]; cbn [partitionEqual_loop]; cbv zeta;
    pose proof (skip_not_greater_bounds data a (S j - i) i) as Hi;
    set (i' := skip_not_greater less data a (S j - i) i) in *;
    pose proof (skip_greater_bounds data a (S j - i') j) as Hj;
    set (j' := skip_greater less data a (S j - i') j) in *;
    destruct (j' <? i')%nat eqn:Hc; try reflexivity;
    apply Nat.ltb_ge in Hc; try lia.
  apply IH; lia.
Qed.

Lemma partitionEqual_loop_bounds (n : nat) : forall data a i j,
  (i <= j + 2)%nat ->
  (i <= snd (partitionEqual_loop less n data a i j) <= Nat.max i (j + 1))%nat.
Proof.
  induction n as [|n IH]; intros data a i j H2;
    cbn [partitionEqual_loop]; cbv zeta;
    pose proof (skip_not_greater_bounds data a (S j - i) i) as Hi;
    set (i' := skip_not_greater less data a (S j - i) i) in *;
    pose proof (skip_greater_bounds data a (S j - i') j) as Hj;
    set (j' := skip_greater less data a (S j - i') j) in *;
    destruct (j' <? i')%nat eqn:Hc; cbn [snd]; try lia;
    apply Nat.ltb_ge in Hc; try lia.
  specialize (IH (Swap data i' j') a (S i') (j' - 1)%nat). lia.
Qed.

Lemma partitionEqual_func_bounds (data : list A) (a b pivot : nat) :
  (a < b)%nat ->
  (a < snd (partitionEqual_func less data a b pivot) <= b)%nat.
Proof.
  intros Hab. unfold partitionEqual_func. cbv zeta.
  pose proof (partitionEqual_loop_bounds (b - a) (Swap data a pivot) a
                (a + 1) (b - 1)) as Hl.
  lia.
Qed.

Lemma pdqsort_turn_ext
    (rec1 rec2 : list A -> nat -> nat -> nat -> bool -> bool -> list A)
    (data : list A) (a b limit : nat) (wasBalanced wasPartitioned : bool) :
  (a < b)%nat ->
  (forall data' a' b' limit' w1 w2,
      (b' - a' < b - a)%nat ->
      rec1 data' a' b' limit' w1 w2 = rec2 data' a' b' limit' w1 w2) ->
  pdqsort_turn less rec1 data a b limit wasBalanced wasPartitioned =
  pdqsort_turn less rec2 data a b limit wasBalanced wasPartitioned.
Proof.
  intros Hab Hrec. unfold pdqsort_turn. cbv zeta.
  destruct (limit =? 0)%nat; [reflexivity|].
  destruct (if negb wasBalanced then _ else _) as [data1 limit1].
  destruct (choosePivot_func less data1 a b) as [pivot hint].
  destruct (match hint with decreasingHint => _ | _ => _ end) as [[data2 pivot2] hint2].
  destruct (match hint2 with increasingHint => _ | _ => _ end) as [data3 sorted].
  destruct sorted; [reflexivity|].
  destruct (_ && _).
  - pose proof (partitionEqual_func_bounds data3 a b pivot2 Hab) as Hm.
    destruct (partitionEqual_func less data3 a b pivot2) as [data4 mid].
    cbn [snd] in Hm. apply Hrec. lia.
  - pose proof (partition_func_bounds data3 a b pivot2 Hab) as Hm.
    destruct (partition_func less data3 a b pivot2) as [[data4 mid] already].
    cbn [fst snd] in Hm.
    destruct (mid - a <? b - mid)%nat.
    + rewrite (Hrec data4) by lia. apply Hrec. lia.
    + rewrite (Hrec data4) by lia. apply Hrec. lia.
Qed.

(** The loop of [pdqsort_func] does not depend on the number of turns it
    is allowed, from [b - a] turns on: it comes to its end by itself. *)
Lemma pdqsort_loop_enough (n m : nat) : forall data a b limit w1 w2,
  (b - a <= n)%nat -> (b - a <= m)%nat ->
  pdqsort_loop less n data a b limit w1 w2 = pdqsort_loop less m data a b limit w1 w2.
Proof.
  revert m. induction n as [|n IH]; intros m data a b limit w1 w2 Hn Hm;
    destruct m as [|m]; cbn [pdqsort_loop];
    destruct (b - a <=? maxInsertion)%nat eqn:Hc; try reflexivity;
    apply Nat.leb_gt in Hc; unfold maxInsertion in Hc; try lia.
  apply pdqsort_turn_ext; [lia|].
  intros data' a' b' limit' w1' w2' Hlt. apply IH; lia.
Qed.

End Turns.

Section Ties.
Context {A : Type} (less : A -> A -> bool).
Context (P : A -> Prop) `{!forall x, Decision (P x)}.
Hypothesis less_apart : forall x y, less x y = true -> P x -> P y -> False.

Lemma Less_cons (d : A) (rest : list A) (i j : nat) :
  Less less (d :: rest) (S i) (S j) = Less less rest i j.
Proof. reflexivity. Qed.

Lemma Swap_cons (d : A) (rest : list A) (i j : nat) :
  Swap (d :: rest) (S i) (S j) = d :: Swap rest i j.
Proof.
  unfold Swap. cbn [lookup list_lookup].
  destruct (rest !! i), (rest !! j); reflexivity.
Qed.

Lemma Swap_adjacent_filter (j : nat) : forall data : list A,
  Less less data (S j) j = true ->
  filter P (Swap data (S j) j) = filter P data.
Proof.
  induction j as [|j IH]; intros data.
  - destruct data as [|y [|x suf]]; try discriminate.
    intros Hxy. change (less x y = true) in Hxy.
    change (Swap (y :: x :: suf) 1 0) with (x :: y :: suf). rewrite !filter_cons.
    destruct (decide (P x)), (decide (P y)); try reflexivity.
    exfalso. eauto.
  - destruct data as [|d rest]; [discriminate|].
    rewrite Less_cons, Swap_cons. intros Hl. rewrite !filter_cons, IH by exact Hl.
    reflexivity.
Qed.

Lemma insertion_step_filter (a j : nat) : forall data : list A,
  filter P (insertion_step less a data j) = filter P data.
Proof.
  induction j as [|j IH]; intros data; cbn [insertion_step]; [reflexivity|].
  destruct (a <? S j)%nat; cbn [andb]; [|reflexivity].
  destruct (Less less data (S j) j) eqn:Hl; [|reflexivity].
  rewrite IH. apply Swap_adjacent_filter, Hl.
Qed.

Lemma insertionSort_func_filter (data : list A) (a b : nat) :
  filter P (insertionSort_func less data a b) = filter P data.
Proof.
  unfold insertionSort_func. generalize (seq (a + 1) (b - (a + 1))). intros l.
  revert data. induction l as [|i l IH]; intros data; [reflexivity|].
  cbn [foldl]. rewrite IH. apply insertion_step_filter.
Qed.

(** On a slice of at most [maxInsertion] elements [sort.Slice] is the
    insertion sort, which only ever swaps two neighbours when the right
    one is [less] than the left one.  So elements none of which is [less]
    than another keep their order. *)
Lemma Slice_short_filter (x : list A) :
  (length x <= maxInsertion)%nat ->
  filter P (Slice less x) = filter P x.
Proof.
  intros Hlen. unfold Slice, pdqsort_func. cbv zeta.
  rewrite Nat.sub_0_r. destruct (length x) as [|n] eqn:E.
  - cbn [pdqsort_loop]. cbn. destruct x; [reflexivity|discriminate].
  - cbn [pdqsort_loop]. rewrite Nat.sub_0_r.
    replace (S n <=? maxInsertion)%nat with true by (symmetry; apply Nat.leb_le; lia).
    apply insertionSort_func_filter.
Qed.

End Ties.

End SortFacts.

(** ** The preprocessor *)

Module PreprocessorFacts.
Import Go Preprocessor Reference StringOrder.

Lemma timestamp_less_strict_weak : StrictWeak timestamp_less.
Proof.
  split; unfold timestamp_less.
  - intros a. apply str_lt_irrefl.
  - intros a b c. apply str_lt_trans.
  - intros a b c Hab Hba Hbc Hcb.
    rewrite (str_lt_total _ _ Hab Hba), <- (str_lt_total _ _ Hbc Hcb).
    split; apply str_lt_irrefl.
Qed.

#[local] Instance ts_le_trans : Transitive ts_le.
Proof. intros a b c. apply str_le_trans. Qed.

Lemma parse_entries_length R tick entries :
  length (parse_entries R tick entries) = length entries.
Proof.
  revert tick; induction entries as [|e rest IH]; intros tick; simpl; [reflexivity|].
  destruct (parse_entry R tick e) as [log tick']. simpl. f_equal. apply IH.
Qed.

Section SortedLogs.
Variable R : Runtime.
Hypothesis R_ok : RuntimeOk R.

Lemma sorted_logs_strongly (x : list RawLogGo) :
  StronglySorted ts_le (sort_Slice R timestamp_less x).
Proof.
  apply Sorted_StronglySorted; [apply ts_le_trans|].
  eapply Sorted_ind with (P := Sorted ts_le);
    [constructor| |apply (sort_Slice_sorted R R_ok), timestamp_less_strict_weak].
  intros a l _ IH Hd. constructor; [exact IH|].
  destruct Hd as [|b l' Hb]; constructor. apply str_lt_le. exact Hb.
Qed.

End SortedLogs.

Lemma StronglySorted_imap {A B} (RA : A -> A -> Prop) (RB : B -> B -> Prop)
    (f : nat -> A -> B) (l : list A) :
  (forall i j x y, RA x y -> RB (f i x) (f j y)) ->
  StronglySorted RA l -> StronglySorted RB (imap f l).
Proof.
  intros Hf Hl. revert f Hf.
  induction Hl as [|a l Hl IH Ha]; intros f Hf; simpl; constructor.
  - apply IH. intros i j x y. apply Hf.
  - apply Forall_forall. intros y Hy.
    apply elem_of_lookup_imap in Hy as (i & x & -> & Hx).
    apply Hf. eapply (proj1 (Forall_forall _ _) Ha), list_elem_of_lookup_2, Hx.
Qed.

Lemma sorted_first_least (l : list RawLogGo) first rest :
  StronglySorted ts_le l -> l = first :: rest ->
  forall r, r ∈ l -> ts_le first r.
Proof.
  intros Hs -> r Hr. apply StronglySorted_inv in Hs as [_ Hall].
  apply elem_of_cons in Hr as [->|Hr]; [apply str_le_refl|].
  exact (proj1 (Forall_forall _ _) Hall r Hr).
Qed.

Lemma last_elem_of (l : list RawLogGo) d : l <> [] -> List.last l d ∈ l.
Proof.
  induction l as [|a l IH]; [congruence|]. intros _.
  destruct l as [|b l]; [simpl; left|].
  change (List.last (a :: b :: l) d) with (List.last (b :: l) d).
  right. apply IH. discriminate.
Qed.

Lemma sorted_last_greatest (l : list RawLogGo) d :
  StronglySorted ts_le l ->
  forall r, r ∈ l -> ts_le r (List.last l d).
Proof.
  induction 1 as [|a l Hs IH Ha]; intros r Hr; [inversion Hr|].
  destruct l as [|b l].
  - apply list_elem_of_singleton in Hr as ->. apply str_le_refl.
  - change (List.last (a :: b :: l) d) with (List.last (b :: l) d).
    apply elem_of_cons in Hr as [->|Hr]; [|apply IH, Hr].
    apply (proj1 (Forall_forall _ _) Ha), last_elem_of. discriminate.
Qed.

Lemma insert_by_perm {A} (less : A -> A -> bool) x l : insert_by less x l ≡ₚ x :: l.
Proof.
  induction l as [|y l IH]; simpl; [reflexivity|].
  destruct (less x y); [reflexivity|].
  rewrite IH. apply Permutation_swap.
Qed.

Lemma insertion_sort_perm {A} (less : A -> A -> bool) l : insertion_sort less l ≡ₚ l.
Proof.
  induction l as [|x l IH]; simpl; [reflexivity|].
  rewrite insert_by_perm. f_equiv. exact IH.
Qed.

Lemma strict_weak_asym {A} (less : A -> A -> bool) :
  StrictWeak less -> forall a b, less a b = true -> less b a = false.
Proof.
  intros [Hirr Htr _] a b Hab. destruct (less b a) eqn:Hba; [|reflexivity].
  rewrite <- (Hirr a). symmetry. eapply Htr; eassumption.
Qed.

Lemma insert_by_sorted {A} (less : A -> A -> bool) x l :
  StrictWeak less ->
  Sorted (fun a b => less b a = false) l ->
  Sorted (fun a b => less b a = false) (insert_by less x l).
Proof.
  intros Hsw. induction 1 as [|y l Hs IH Hd]; simpl.
  - repeat constructor.
  - destruct (less x y) eqn:Hxy.
    + constructor; [constructor; assumption|].
      constructor. eapply strict_weak_asym; eassumption.
    + constructor; [exact IH|].
      destruct Hd as [|z l' Hz]; simpl; [constructor; exact Hxy|].
      destruct (less x z); constructor; assumption.
Qed.

Lemma insertion_sort_sorted {A} (less : A -> A -> bool) l :
  StrictWeak less -> Sorted (fun a b => less b a = false) (insertion_sort less l).
Proof.
  intros Hsw. induction l as [|x l IH]; simpl; [constructor|].
  apply insert_by_sorted; assumption.
Qed.

Lemma runtime0_ok : RuntimeOk runtime0.
Proof.
  split; simpl.
  - intros less x. apply insertion_sort_perm.
  - intros less x. apply insertion_sort_sorted.
  - reflexivity.
Qed.

Lemma Process_inv R entries b :
  Process R (Some entries) = Ok b ->
  let logs := sort_Slice R timestamp_less (parse_entries R 0 entries) in
  exists first rest,
    logs = first :: rest /\
    WindowStart b = Preprocessor.Timestamp first /\
    WindowEnd b = Preprocessor.Timestamp (List.last logs first) /\
    Sequence b = imap sequence_item logs.
Proof.
  unfold Process, ParseLogs. cbv zeta.
  destruct (sort_Slice R timestamp_less (parse_entries R 0 entries)) as [|first rest] eqn:E;
    simpl; [discriminate|].
  intros [= <-]. exists first, rest. simpl. repeat split.
Qed.

Lemma Process_nonempty R (R_ok : RuntimeOk R) entry rest :
  exists b, Process R (Some (entry :: rest)) = Ok b.
Proof.
  unfold Process, ParseLogs.
  pose proof (sort_Slice_perm R R_ok timestamp_less (parse_entries R 0 (entry :: rest))) as Hp.
  destruct (sort_Slice R timestamp_less (parse_entries R 0 (entry :: rest))) as [|first logs].
  - apply Permutation_length in Hp. rewrite parse_entries_length in Hp. discriminate.
  - simpl. eexists. reflexivity.
Qed.

(** C1 (as the code has it): for every collection of raw entries that
    [Process] turns into a bundle, the bundle's [Sequence] holds one item
    per record, built from a permutation of the parsed records, and the
    items ascend by timestamp.  The order among records that share a
    timestamp is whatever [sort.Slice] leaves. *)
Theorem C1_sequence_ascending (R : Runtime) (R_ok : RuntimeOk R)
    (entries : list (gmap string Value)) (b : CorrelationBundleGo) :
  Process R (Some entries) = Ok b ->
  length (Sequence b) = length entries /\
  (exists logs, logs ≡ₚ parse_entries R 0 entries /\
                Sequence b = imap sequence_item logs) /\
  ascending (Sequence b).
Proof.
  intros Hb. apply Process_inv in Hb as (first & rest & Hl & _ & _ & Hseq).
  pose proof (sort_Slice_perm R R_ok timestamp_less (parse_entries R 0 entries)) as Hp.
  rewrite Hseq. split; [|split].
  - rewrite length_imap, (Permutation_length Hp). apply parse_entries_length.
  - eexists. split; [exact Hp|reflexivity].
  - eapply StronglySorted_imap; [|apply sorted_logs_strongly, R_ok].
    intros i j x y Hxy. exact Hxy.
Qed.

Lemma C1_sequence_ascending_witness :
  exists b, Process runtime0 (Some window_entries) = Ok b /\
    length (Sequence b) = 3%nat /\ ascending (Sequence b).
Proof.
  eexists. split; [vm_compute; reflexivity|].
  refine (let H := C1_sequence_ascending runtime0 runtime0_ok window_entries _ _ in
          conj (proj1 H) (proj2 (proj2 H))).
  vm_compute; reflexivity.
Defined.

Lemma sequence_filter (t : string) (logs : list RawLogGo) : forall g : nat -> nat,
  ItemMessage <$> filter (fun it => ItemTimestamp it = t)
                         (imap (fun i => sequence_item (g i)) logs) =
  (fun log => ItemMessage (sequence_item 0 log))
    <$> filter (fun log => Preprocessor.Timestamp log = t) logs.
Proof.
  induction logs as [|log logs IH]; intros g; [reflexivity|].
  rewrite imap_cons, !filter_cons. cbn [ItemTimestamp sequence_item].
  specialize (IH (g ∘ S)).
  destruct (decide (Preprocessor.Timestamp log = t)).
  - rewrite !fmap_cons. f_equal. exact IH.
  - exact IH.
Qed.

(** Up to twelve records Go's [sort.Slice] is an insertion sort, and the
    records that share a timestamp leave [Process] in the order they
    came. *)
Lemma Process_short_ties_kept (entries : list (gmap string Value))
    (b : CorrelationBundleGo) :
  (length entries <= maxInsertion)%nat ->
  Process go_runtime (Some entries) = Ok b ->
  ties_in_arrival_order
    (imap sequence_item (parse_entries go_runtime 0 entries)) (Sequence b).
Proof.
  intros Hlen Hb. apply Process_inv in Hb as (first & rest & _ & _ & _ & ->).
  intros t.
  rewrite (sequence_filter t _ id), (sequence_filter t _ id). f_equal.
  change (sort_Slice go_runtime timestamp_less (parse_entries go_runtime 0 entries))
    with (Slice timestamp_less (parse_entries go_runtime 0 entries)).
  apply SortFacts.Slice_short_filter.
  - intros x y Hless Hx Hy. unfold timestamp_less in Hless.
    rewrite Hx, Hy, StringOrder.str_lt_irrefl in Hless. discriminate.
  - rewrite parse_entries_length. exact Hlen.
Qed.

(** C1 fails as stated: [sort.Slice] is not stable.  Twelve records
    arrive under one timestamp, as "01" to "12", and a thirteenth arrives
    last with an earlier one.  [Process], run with Go's own [sort.Slice],
    returns them in ascending order of timestamp, but the twelve are no
    longer in the order they came: "07" leads them and "02" closes them.
    (The pivot, the seventh record, is swapped to the front, the second is
    swapped with the thirteenth, and the insertion sort of the two parts
    moves no record past another with the same timestamp.) *)
Lemma C1_ties_reordered :
  exists b, Process go_runtime (Some late_entries) = Ok b /\
    ItemMessage <$> Sequence b =
      ["[svc] 13"; "[svc] 07"; "[svc] 03"; "[svc] 04"; "[svc] 05"; "[svc] 06";
       "[svc] 01"; "[svc] 08"; "[svc] 09"; "[svc] 10"; "[svc] 11"; "[svc] 12";
       "[svc] 02"] /\
    ascending (Sequence b) /\
    ~ ties_in_arrival_order
        (imap sequence_item (parse_entries go_runtime 0 late_entries)) (Sequence b).
Proof.
  eexists. split; [vm_compute; reflexivity|].
  split; [vm_compute; reflexivity|]. split.
  - unfold ascending. cbn [Sequence]. repeat constructor.
  - intros H. specialize (H "2024-01-01T00:00:05Z"). vm_compute in H. discriminate.
Qed.

(** C5: for every non-empty collection of raw entries, [Process] yields a
    bundle whose [WindowStart] is at most its [WindowEnd], whose
    [WindowStart] is the least timestamp of the parsed records and whose
    [WindowEnd] is the greatest. *)
Theorem C5_window_bounds (R : Runtime) (R_ok : RuntimeOk R)
    (entry : gmap string Value) (rest : list (gmap string Value)) :
  exists b, Process R (Some (entry :: rest)) = Ok b /\
    str_le (WindowStart b) (WindowEnd b) = true /\
    min_timestamp (parse_entries R 0 (entry :: rest)) (WindowStart b) /\
    max_timestamp (parse_entries R 0 (entry :: rest)) (WindowEnd b).
Proof.
  destruct (Process_nonempty R R_ok entry rest) as [b Hb]. exists b.
  split; [exact Hb|].
  apply Process_inv in Hb as (first & logs & Hl & -> & -> & _).
  pose proof (sort_Slice_perm R R_ok timestamp_less (parse_entries R 0 (entry :: rest))) as Hp.
  pose proof (sorted_logs_strongly R R_ok (parse_entries R 0 (entry :: rest))) as Hs.
  set (sorted := sort_Slice R timestamp_less (parse_entries R 0 (entry :: rest))) in *.
  assert (Hfirst : first ∈ sorted) by (rewrite Hl; left).
  assert (Hlast : List.last sorted first ∈ sorted)
    by (apply last_elem_of; rewrite Hl; discriminate).
  split; [|split].
  - apply (sorted_last_greatest sorted first Hs first Hfirst).
  - split.
    + exists first. split; [rewrite <- Hp; exact Hfirst|reflexivity].
    + intros r Hr. rewrite <- Hp in Hr.
      exact (sorted_first_least sorted first logs Hs Hl r Hr).
  - split.
    + exists (List.last sorted first). split; [rewrite <- Hp; exact Hlast|reflexivity].
    + intros r Hr. rewrite <- Hp in Hr.
      exact (sorted_last_greatest sorted first Hs r Hr).
Qed.

Lemma C5_window_bounds_witness :
  exists b, Process runtime0 (Some window_entries) = Ok b /\
    str_le (WindowStart b) (WindowEnd b) = true /\
    min_timestamp (parse_entries runtime0 0 window_entries) (WindowStart b) /\
    max_timestamp (parse_entries runtime0 0 window_entries) (WindowEnd b).
Proof.
  exact (C5_window_bounds runtime0 runtime0_ok
           (entry "2024-01-01T00:00:03Z" "INFO" "svc" "third")
           [entry "2024-01-01T00:00:01Z" "WARN" "svc" "first";
            entry "2024-01-01T00:00:02Z" "INFO" "svc" "second"]).
Defined.

(** C6: [CreateBundle] on an empty record sequence returns the error and
    no bundle, and on every non-empty record sequence it returns a
    bundle. *)
Theorem C6_empty_fails_nonempty_succeeds (R : Runtime) (patterns : list LogPatternGo) :
  CreateBundle R [] patterns = Err "cannot create bundle from empty logs" /\
  forall (first : RawLogGo) (rest : list RawLogGo),
    exists b, CreateBundle R (first :: rest) patterns = Ok b.
Proof.
  split; [reflexivity|]. intros first rest. simpl. eexists. reflexivity.
Qed.

Lemma int_add_small a b :
  int_min <= a + b <= int_max -> int_add a b = a + b.
Proof.
  unfold int_add, int_wrap, int_min, int_max. intros H.
  rewrite Z.mod_small; lia.
Qed.

Lemma mine_step_keyed m log : keyed m -> keyed (mine_step m log).
Proof.
  intros Hm k p. unfold mine_step.
  destruct (decide (Message log = k)) as [<-|Hne].
  - rewrite lookup_insert_eq. intros [= <-]. simpl.
    destruct (m !! Message log) as [q|] eqn:Hq; [apply (Hm _ _ Hq)|reflexivity].
  - rewrite lookup_insert_ne by exact Hne. apply Hm.
Qed.

Lemma mine_fold_keyed logs m : keyed m -> keyed (fold_left mine_step logs m).
Proof.
  revert m; induction logs as [|log logs IH]; intros m Hm; simpl; [exact Hm|].
  apply IH, mine_step_keyed, Hm.
Qed.

Lemma mine_map_keyed logs : keyed (mine_map logs).
Proof. apply mine_fold_keyed. intros k p. rewrite lookup_empty. discriminate. Qed.

Lemma map_count_step m log key :
  map_count (mine_step m log) key =
  if decide (Message log = key) then int_add (map_count m key) 1 else map_count m key.
Proof.
  unfold map_count, mine_step. destruct (decide (Message log = key)) as [<-|Hne].
  - rewrite lookup_insert_eq. simpl. destruct (m !! Message log); reflexivity.
  - rewrite lookup_insert_ne by exact Hne. reflexivity.
Qed.

Lemma occurrences_cons log logs key :
  occurrences key (log :: logs) =
  (if decide (Message log = key) then 1 else 0) + occurrences key logs.
Proof.
  unfold occurrences. rewrite filter_cons.
  destruct (decide (Message log = key)); simpl length; lia.
Qed.

Lemma occurrences_bounds key logs :
  0 <= occurrences key logs <= Z.of_nat (length logs).
Proof.
  unfold occurrences. pose proof (length_filter (fun log => Message log = key) logs). lia.
Qed.

Lemma occurrences_app key l1 l2 :
  occurrences key (l1 ++ l2) = occurrences key l1 + occurrences key l2.
Proof. unfold occurrences. rewrite filter_app, length_app. lia. Qed.

Lemma map_count_fold key logs m :
  0 <= map_count m key ->
  map_count m key + Z.of_nat (length logs) <= int_max ->
  map_count (fold_left mine_step logs m) key = map_count m key + occurrences key logs.
Proof.
  revert m; induction logs as [|log logs IH]; intros m H0 Hmax.
  - unfold occurrences. simpl. lia.
  - simpl fold_left. rewrite occurrences_cons.
    change (length (log :: logs)) with (S (length logs)) in Hmax.
    pose proof (map_count_step m log key) as Hstep.
    assert (Hmin : int_min <= 0) by (unfold int_min; lia).
    destruct (decide (Message log = key)).
    + rewrite int_add_small in Hstep by lia.
      rewrite IH; lia.
    + rewrite IH; lia.
Qed.

Lemma mine_map_count key logs :
  Z.of_nat (length logs) <= int_max ->
  map_count (mine_map logs) key = occurrences key logs.
Proof.
  intros H. unfold mine_map. rewrite map_count_fold.
  - unfold map_count. rewrite lookup_empty. lia.
  - unfold map_count. rewrite lookup_empty. lia.
  - unfold map_count. rewrite lookup_empty. lia.
Qed.

Section Mined.
Variable R : Runtime.
Hypothesis R_ok : RuntimeOk R.

Lemma MinePatterns_elem logs p :
  p ∈ MinePatterns R logs <-> mine_map logs !! Pattern p = Some p.
Proof.
  unfold MinePatterns. rewrite list_elem_of_fmap. split.
  - intros ([k q] & -> & Hin). simpl.
    rewrite (range_order_perm R R_ok) in Hin.
    apply elem_of_map_to_list in Hin.
    rewrite (mine_map_keyed logs k q Hin). exact Hin.
  - intros Hp. exists (Pattern p, p). split; [reflexivity|].
    rewrite (range_order_perm R R_ok). apply elem_of_map_to_list, Hp.
Qed.

Lemma MinePatterns_NoDup logs : NoDup (Pattern <$> MinePatterns R logs).
Proof.
  unfold MinePatterns.
  assert (Heq : Pattern <$> (range_order R _ (map_to_list (mine_map logs))).*2
              = (range_order R _ (map_to_list (mine_map logs))).*1).
  { rewrite <- list_fmap_compose. apply Forall_fmap_ext_1, Forall_forall.
    intros [k q] Hin. simpl.
    rewrite (range_order_perm R R_ok) in Hin.
    apply elem_of_map_to_list in Hin. apply (mine_map_keyed logs k q Hin). }
  rewrite Heq, (range_order_perm R R_ok). apply NoDup_fst_map_to_list.
Qed.

Lemma count_of_mined key logs :
  count_of key (MinePatterns R logs) = map_count (mine_map logs) key.
Proof.
  unfold count_of, map_count.
  destruct (List.find _ _) as [p|] eqn:Hf.
  - apply find_some in Hf as [Hin Hk].
    apply String.eqb_eq in Hk. subst key.
    apply list_elem_of_In, MinePatterns_elem in Hin. rewrite Hin. reflexivity.
  - destruct (mine_map logs !! key) as [p|] eqn:Hm; [|reflexivity].
    pose proof (mine_map_keyed logs key p Hm) as Hk. subst key.
    apply MinePatterns_elem, list_elem_of_In in Hm.
    pose proof (find_none _ _ Hf p Hm) as Hc. simpl in Hc.
    rewrite String.eqb_refl in Hc. discriminate.
Qed.

Lemma merged_count_occurrences key parts :
  Z.of_nat (length (concat parts)) <= int_max ->
  merged_count R key parts = occurrences key (concat parts).
Proof.
  induction parts as [|part parts IH]; intros Hlen; simpl; [reflexivity|].
  simpl in Hlen. rewrite length_app in Hlen.
  rewrite occurrences_app, count_of_mined, mine_map_count, IH; lia.
Qed.

(** C7: mining is additive over counts.  For a record list cut into
    parts, the count mined for a message key from the whole list is the
    sum of the counts mined for it from the parts.  (A Go slice holds at
    most [int_max] records.) *)
Theorem C7_counts_add_up (key : string) (parts : list (list RawLogGo)) :
  Z.of_nat (length (concat parts)) <= int_max ->
  count_of key (MinePatterns R (concat parts)) = merged_count R key parts.
Proof.
  intros Hlen.
  rewrite count_of_mined, mine_map_count, merged_count_occurrences by exact Hlen.
  reflexivity.
Qed.

End Mined.

Lemma C7_counts_add_up_witness :
  count_of "first"
    (MinePatterns runtime0
       (concat [parse_entries runtime0 0 tie_entries;
                parse_entries runtime0 0 window_entries])) =
  merged_count runtime0 "first"
    [parse_entries runtime0 0 tie_entries; parse_entries runtime0 0 window_entries].
Proof.
  apply (C7_counts_add_up runtime0 runtime0_ok "first"
           [parse_entries runtime0 0 tie_entries;
            parse_entries runtime0 0 window_entries]).
  vm_compute. discriminate.
Defined.

Lemma perm3 {A} (l : list A) a b c :
  l ≡ₚ [a; b; c] ->
  l = [a; b; c] \/ l = [a; c; b] \/ l = [b; a; c] \/
  l = [b; c; a] \/ l = [c; a; b] \/ l = [c; b; a].
Proof.
  intros Hp.
  apply Permutation_cons_inv_r in Hp as (l1 & l2 & -> & Hp).
  apply Permutation_length_2_inv in Hp.
  destruct l1 as [|x [|y [|z l1]]]; simpl in Hp |- *;
    destruct Hp as [Hp|Hp]; simplify_eq; auto 10.
Qed.

Lemma filter_none {A} (P : A -> Prop) `{forall x, Decision (P x)} (l : list A) :
  (forall q, q ∈ l -> ~ P q) -> filter P l = [].
Proof.
  induction l as [|x l IH]; intros Hl; [reflexivity|].
  rewrite filter_cons, decide_False by (apply Hl; left).
  apply IH. intros q Hq. apply Hl. right. exact Hq.
Qed.

Lemma filter_unique {A B} `{EqDecision B} (f : A -> B) (l : list A) (p : A) :
  NoDup (f <$> l) -> p ∈ l -> filter (fun q => f q = f p) l = [p].
Proof.
  induction l as [|x l IH]; intros Hnd Hp; [inversion Hp|].
  rewrite fmap_cons in Hnd. apply NoDup_cons in Hnd as [Hx Hnd].
  rewrite filter_cons. destruct (decide (f x = f p)) as [Heq|Hne].
  - apply elem_of_cons in Hp as [->|Hp].
    + f_equal. apply filter_none. intros q Hq Hfq. apply Hx.
      rewrite <- Hfq. apply list_elem_of_fmap_2. exact Hq.
    + exfalso. apply Hx. rewrite Heq. apply list_elem_of_fmap_2. exact Hp.
  - apply elem_of_cons in Hp as [->|Hp]; [congruence|]. apply IH; assumption.
Qed.

Section Scenario.
Variable R : Runtime.
Hypothesis R_ok : RuntimeOk R.

Lemma mined_exactly_one (key : string) (logs : list RawLogGo) :
  Z.of_nat (length logs) <= int_max ->
  occurrences key logs <> 0 ->
  exists p, filter (fun q => Pattern q = key) (MinePatterns R logs) = [p] /\
            Count p = occurrences key logs.
Proof.
  intros Hlen Hocc. rewrite <- (mine_map_count key logs Hlen) in Hocc |- *.
  unfold map_count in *. destruct (mine_map logs !! key) as [p|] eqn:Hm; [|congruence].
  exists p. split; [|reflexivity].
  pose proof (mine_map_keyed logs key p Hm) as <-.
  apply filter_unique; [apply MinePatterns_NoDup, R_ok|].
  apply MinePatterns_elem; assumption.
Qed.

Lemma parse_entry_fields tick e level service message :
  has_fields e level service message -> level <> "" -> service <> "" ->
  let log := (parse_entry R tick e).1 in
  Level log = level /\ Service log = service /\ Message log = message.
Proof.
  intros (Hl & Hs & Hm) Hle Hse. unfold parse_entry, assert_string.
  rewrite Hl, Hs, Hm.
  apply String.eqb_neq in Hle, Hse. rewrite Hle, Hse. simpl.
  destruct (e !! "timestamp") as [[v| | |]|]; simpl;
    try destruct (v =? "")%string; simpl; auto.
Qed.

Lemma CreateBundle_fields logs patterns b :
  CreateBundle R logs patterns = Ok b ->
  AffectedServices b =
    range_order R _ (elements (fold_left (fun (m : gset string) log => {[Service log]} ∪ m) logs ∅)) /\
  LogPatterns b = patterns /\
  RootService b = Service <$> List.find is_root_level logs /\
  ErrorRateZ (Metrics b) =
    (if existsb (fun l => (Level l =? "ERROR")%string) logs then 5%float else 0%float) /\
  LatencyZ (Metrics b) =
    (let fullText := ToLower (unicode R) (Join (map Message logs) " ") in
     if Contains fullText "timeout" || Contains fullText "messages"
     then 3%float else 0%float) /\
  DerivedRootCauseHint b =
    match RootService b with
    | Some s => "Issue detected in " +:+ s
    | None => "Unknown issue"
    end.
Proof.
  destruct logs as [|first rest]; [discriminate|].
  intros [= <-]. repeat split.
Qed.

(** C8: three records with the messages "conn timeout", "conn timeout",
    "db ok", the services svc-a, svc-a, svc-b and the levels ERROR, ERROR,
    INFO, whatever else they carry, give a bundle with the affected
    services svc-a and svc-b, exactly one pattern for "conn timeout", of
    count 2, the root service svc-a, an error score of 5.0, a latency
    score of 3.0 and the hint "Issue detected in svc-a". *)
Theorem C8_three_records (e1 e2 e3 : gmap string Value) :
  has_fields e1 "ERROR" "svc-a" "conn timeout" ->
  has_fields e2 "ERROR" "svc-a" "conn timeout" ->
  has_fields e3 "INFO" "svc-b" "db ok" ->
  exists b, Process R (Some [e1; e2; e3]) = Ok b /\
    AffectedServices b ≡ₚ ["svc-a"; "svc-b"] /\
    (exists p, filter (fun q => Pattern q = "conn timeout") (LogPatterns b) = [p] /\
               Count p = 2) /\
    RootService b = Some "svc-a" /\
    ErrorRateZ (Metrics b) = 5%float /\
    LatencyZ (Metrics b) = 3%float /\
    DerivedRootCauseHint b = "Issue detected in svc-a".
Proof.
  intros H1 H2 H3.
  destruct (Process_nonempty R R_ok e1 [e2; e3]) as [b Hb]. exists b.
  split; [exact Hb|].
  pose proof (sort_Slice_perm R R_ok timestamp_less (parse_entries R 0 [e1; e2; e3])) as Hp.
  unfold Process, ParseLogs in Hb.
  set (sorted := sort_Slice R timestamp_less (parse_entries R 0 [e1; e2; e3])) in *.
  destruct (CreateBundle R sorted (MinePatterns R sorted)) as [b'|] eqn:Hc; [|discriminate].
  injection Hb as ->.
  apply CreateBundle_fields in Hc as (HA & HP & HR & HE & HL & HD).
  rewrite HD, HR, HA, HP, HE, HL. clear HD HR HA HP HE HL.
  simpl parse_entries in Hp.
  destruct (parse_entry R 0 e1) as [r1 t1] eqn:E1.
  destruct (parse_entry R t1 e2) as [r2 t2] eqn:E2.
  destruct (parse_entry R t2 e3) as [r3 t3] eqn:E3.
  pose proof (parse_entry_fields 0 e1 _ _ _ H1) as F1.
  pose proof (parse_entry_fields t1 e2 _ _ _ H2) as F2.
  pose proof (parse_entry_fields t2 e3 _ _ _ H3) as F3.
  rewrite E1 in F1. rewrite E2 in F2. rewrite E3 in F3.
  destruct F1 as (L1 & S1 & M1); [discriminate..|].
  destruct F2 as (L2 & S2 & M2); [discriminate..|].
  destruct F3 as (L3 & S3 & M3); [discriminate..|].
  destruct r1, r2, r3. simpl in L1, S1, M1, L2, S2, M2, L3, S3, M3. subst.
  assert (Hocc : exists p,
    filter (fun q => Pattern q = "conn timeout") (MinePatterns R sorted) = [p] /\ Count p = 2).
  { destruct (mined_exactly_one "conn timeout" sorted) as (p & Hf & Hcount).
    - rewrite (Permutation_length Hp). vm_compute. discriminate.
    - unfold occurrences. rewrite Hp. vm_compute. discriminate.
    - exists p. split; [exact Hf|]. rewrite Hcount. unfold occurrences. rewrite Hp.
      reflexivity. }
  split; [|split; [exact Hocc|]].
  - rewrite (range_order_perm R R_ok). clear Hocc.
    destruct (perm3 _ _ _ _ Hp) as [E|[E|[E|[E|[E|E]]]]]; rewrite E;
      vm_compute; first [reflexivity | apply Permutation_swap].
  - clear Hocc.
    destruct (perm3 _ _ _ _ Hp) as [E|[E|[E|[E|[E|E]]]]]; rewrite E;
      repeat split; vm_compute; reflexivity.
Qed.

End Scenario.

Lemma C8_three_records_witness :
  exists b, Process runtime0 (Some scenario_entries) = Ok b /\
    AffectedServices b ≡ₚ ["svc-a"; "svc-b"] /\
    (exists p, filter (fun q => Pattern q = "conn timeout") (LogPatterns b) = [p] /\
               Count p = 2) /\
    RootService b = Some "svc-a" /\
    ErrorRateZ (Metrics b) = 5%float /\
    LatencyZ (Metrics b) = 3%float /\
    DerivedRootCauseHint b = "Issue detected in svc-a".
Proof.
  apply (C8_three_records runtime0 runtime0_ok
           (entry_now "ERROR" "svc-a" "conn timeout")
           (entry_now "ERROR" "svc-a" "conn timeout")
           (entry_now "INFO" "svc-b" "db ok"));
    repeat split; vm_compute; reflexivity.
Defined.

End PreprocessorFacts.

(** ** The agent: file reader, line parser and tailer *)

Module AgentFacts.
Import Go Agent Reference.

(** *** The UTF-16 file reader *)

Lemma pair_ind {A} (P : list A -> Prop) :
  P [] -> (forall a, P [a]) -> (forall a b l, P l -> P (a :: b :: l)) ->
  forall l, P l.
Proof.
  intros H0 H1 H2.
  assert (H : forall l, P l /\ forall a, P (a :: l)).
  { induction l as [|x l [IH1 IH2]]; split; auto. }
  intros l. apply H.
Qed.

Lemma half_SS (n : nat) : (S (S n) / 2 = S (n / 2))%nat.
Proof.
  change (S (S n)) with (2 + n)%nat.
  replace (2 + n)%nat with (1 * 2 + n)%nat by lia.
  rewrite Nat.div_add_l by lia. reflexivity.
Qed.

Section Units.
Variable Uint16 : list byte -> Z.
Hypothesis Uint16_two : forall a b rest, Uint16 (a :: b :: rest) = Uint16 [a; b].

Lemma read_units_body (body : list byte) :
  map (fun i => Uint16 (drop (i * 2)%nat body)) (seq 0 (length body / 2)%nat)
  = units_of Uint16 body.
Proof.
  induction body as [| a | a b l IH] using pair_ind; [reflexivity..|].
  cbn [length]. rewrite half_SS. cbn [seq map units_of].
  f_equal; [apply Uint16_two|].
  rewrite <- seq_shift, map_map. exact IH.
Qed.

Lemma read_units_bom (x y : byte) (body : list byte) :
  read_units Uint16 (x :: y :: body) = units_of Uint16 body.
Proof.
  unfold read_units. cbn [length]. rewrite <- read_units_body.
  replace (S (S (length body)) - 2)%nat with (length body) by lia.
  reflexivity.
Qed.

Lemma units_of_odd_tail (body : list byte) (b : byte) :
  Nat.even (length body) = true ->
  units_of Uint16 (body ++ [b]) = units_of Uint16 body.
Proof.
  induction body as [| a | a c l IH] using pair_ind; intros He.
  - reflexivity.
  - discriminate.
  - cbn [app units_of]. f_equal. apply IH. exact He.
Qed.

End Units.

Lemma LittleEndian_two a b rest :
  LittleEndian_Uint16 (a :: b :: rest) = LittleEndian_Uint16 [a; b].
Proof. reflexivity. Qed.

Lemma BigEndian_two a b rest :
  BigEndian_Uint16 (a :: b :: rest) = BigEndian_Uint16 [a; b].
Proof. reflexivity. Qed.

Lemma readFileAutoUTF_le (x y : byte) (body : list byte) :
  starts_with (x :: y :: body) 0xFF 0xFE = true -> body <> [] ->
  readFileAutoUTF (Ok (x :: y :: body)) =
  Ok (string_of_runes (utf16_Decode (units_of LittleEndian_Uint16 body))).
Proof.
  intros Hbom Hne. unfold readFileAutoUTF.
  rewrite Hbom, (read_units_bom _ LittleEndian_two).
  replace (2 <? Z.of_nat (length (x :: y :: body))) with true; [reflexivity|].
  symmetry. apply Z.ltb_lt. destruct body; [congruence|]. cbn [length]. lia.
Qed.

Lemma readFileAutoUTF_be (x y : byte) (body : list byte) :
  starts_with (x :: y :: body) 0xFE 0xFF = true -> body <> [] ->
  readFileAutoUTF (Ok (x :: y :: body)) =
  Ok (string_of_runes (utf16_Decode (units_of BigEndian_Uint16 body))).
Proof.
  intros Hbom Hne. unfold readFileAutoUTF.
  assert (Hle : starts_with (x :: y :: body) 0xFF 0xFE = false).
  { unfold starts_with in *. apply andb_true_iff in Hbom as [Hx _].
    apply Z.eqb_eq in Hx. rewrite Hx. reflexivity. }
  rewrite Hle, Hbom, (read_units_bom _ BigEndian_two).
  replace (2 <? Z.of_nat (length (x :: y :: body))) with true; [reflexivity|].
  symmetry. apply Z.ltb_lt. destruct body; [congruence|]. cbn [length]. lia.
Qed.

Lemma readFileAutoUTF_raw (data : list byte) :
  utf16_input data = false ->
  readFileAutoUTF (Ok data) = Ok (string_of_bytes data).
Proof.
  unfold utf16_input, readFileAutoUTF. intros H.
  destruct (2 <? Z.of_nat (length data)) eqn:Hlen; [|reflexivity].
  apply Z.ltb_lt in Hlen.
  replace (3 <=? length data)%nat with true in H
    by (symmetry; apply Nat.leb_le; lia).
  cbn [andb] in H. apply orb_false_iff in H as [-> ->]. reflexivity.
Qed.

(** C10: the file is decoded as UTF-16 only when it is at least three
    bytes long and begins with a byte-order mark, little-endian [FF FE]
    or big-endian [FE FF]: every other file is returned verbatim, and so
    is a file made of the two-byte mark alone.  After the mark the bytes
    are decoded two by two, and when their number is odd the last byte
    is dropped from the decoded text. *)
Theorem C10_utf16_reader :
  (forall data, utf16_input data = false ->
     readFileAutoUTF (Ok data) = Ok (string_of_bytes data)) /\
  (forall data, utf16_input data = true ->
     exists x y body, data = x :: y :: body /\
       (readFileAutoUTF (Ok data) =
          Ok (string_of_runes (utf16_Decode (units_of LittleEndian_Uint16 body))) \/
        readFileAutoUTF (Ok data) =
          Ok (string_of_runes (utf16_Decode (units_of BigEndian_Uint16 body))))) /\
  readFileAutoUTF (Ok [xff; xfe]) = Ok (string_of_bytes [xff; xfe]) /\
  readFileAutoUTF (Ok [xfe; xff]) = Ok (string_of_bytes [xfe; xff]) /\
  (forall body b, Nat.even (length body) = true ->
     readFileAutoUTF (Ok (xff :: xfe :: body ++ [b])) =
       Ok (string_of_runes (utf16_Decode (units_of LittleEndian_Uint16 body))) /\
     readFileAutoUTF (Ok (xfe :: xff :: body ++ [b])) =
       Ok (string_of_runes (utf16_Decode (units_of BigEndian_Uint16 body)))).
Proof.
  split; [exact readFileAutoUTF_raw|].
  split; [|split; [reflexivity|split; [reflexivity|]]].
  - intros data H. unfold utf16_input in H.
    apply andb_true_iff in H as [Hlen Hbom]. apply Nat.leb_le in Hlen.
    destruct data as [|x [|y [|z body]]]; cbn [length] in Hlen; try lia.
    exists x, y, (z :: body). split; [reflexivity|].
    apply orb_true_iff in Hbom as [Hb|Hb].
    + left. apply readFileAutoUTF_le; [exact Hb|discriminate].
    + right. apply readFileAutoUTF_be; [exact Hb|discriminate].
  - intros body b He. split.
    + rewrite readFileAutoUTF_le by (try reflexivity; destruct body; discriminate).
      rewrite units_of_odd_tail by exact He. reflexivity.
    + rewrite readFileAutoUTF_be by (try reflexivity; destruct body; discriminate).
      rewrite units_of_odd_tail by exact He. reflexivity.
Qed.

Lemma C10_utf16_reader_witness :
  readFileAutoUTF (Ok [x41; x42]) = Ok "AB" /\
  readFileAutoUTF (Ok [xff; xfe; x41; x00; x42]) = Ok "A".
Proof.
  split.
  - exact (proj1 C10_utf16_reader [x41; x42] eq_refl).
  - exact (proj1 (proj2 (proj2 (proj2 (proj2 C10_utf16_reader))) [x41; x00] x42 eq_refl)).
Defined.

(** *** The line parser *)

Section Lines.
Variable U : Unicode.

(** The level of [parseLine]: the first of ERROR, WARN, DEBUG that the
    line contains, and INFO when it contains none of them. *)
Lemma parseLine_level (now line service : string) :
  Level (parseLine U now line service) =
  if Contains line "ERROR" then "ERROR"
  else if Contains line "WARN" then "WARN"
  else if Contains line "DEBUG" then "DEBUG"
  else "INFO".
Proof. reflexivity. Qed.

(** C2 at a line that holds both INFO and DEBUG: [parseLine] never
    searches the token INFO, so DEBUG wins, where the claim and the
    [switch] of [formatLogLine] give INFO. *)
Theorem C2_info_debug_line (now service : string) :
  Level (parseLine U now "INFO starting in DEBUG mode" service) = "DEBUG" /\
  Legacy.formatLogLine "INFO starting in DEBUG mode" !! "severity"
    = Some (VString "INFO").
Proof. split; vm_compute; reflexivity. Qed.

(** C3 at a line that begins with a date and a time of day: [timeRegex]
    ends after the date, so the time of day stays in the message. *)
Theorem C3_time_of_day_kept (now service : string) :
  Message (parseLine U now "2024-01-02 10:00:00 connection lost" service)
    = "10:00:00 connection lost" /\
  Message (parseLine U now "2024-01-02T10:00:00 connection lost" service)
    = "T10:00:00 connection lost" /\
  MatchString_prefix Legacy.timeRegex "2024-01-02 10:00:00 connection lost" = true.
Proof. repeat split; vm_compute; reflexivity. Qed.

(** *** The tailer *)

Lemma tail_loop_timestamps (clock : nat -> string) (service : string)
    (polls : list Poll) (t : Tailer) (out : list LogOutput) :
  Forall (fun log => exists n, Timestamp log = clock n) out ->
  Forall (fun log => exists n, Timestamp log = clock n)
         (emitted (tail_loop U clock service polls t out)).
Proof.
  revert t out. induction polls as [|p polls IH]; intros t out Hout; [exact Hout|].
  cbn [tail_loop].
  destruct (tail_turn U (clock (length out)) service p t) as [err|t' [log|]] eqn:Ht;
    [exact Hout| |apply IH, Hout].
  apply IH, Forall_app. split; [exact Hout|].
  constructor; [|constructor]. exists (length out).
  unfold tail_turn in Ht. destruct p as [|cur]; [discriminate|].
  destruct (ReadString cur (reader (check_rotation cur t))) as [[line eof] rd].
  destruct eof; [discriminate|].
  destruct (TrimSpace U line =? "")%string; [discriminate|].
  injection Ht as _ <-. reflexivity.
Qed.

(** C9: the record [parseLine] makes of a line carries the reading of the
    clock as its timestamp, whatever the line begins with, and so does
    every record the tailer hands on. *)
Theorem C9_timestamp_is_clock_reading :
  (forall now line service, Timestamp (parseLine U now line service) = now) /\
  (forall now line1 line2 service,
     Timestamp (parseLine U now line1 service) =
     Timestamp (parseLine U now line2 service)) /\
  (forall clock service opened polls,
     Forall (fun log => exists n, Timestamp log = clock n)
            (emitted (tailFile U clock service opened polls))).
Proof.
  split; [reflexivity|split; [reflexivity|]].
  intros clock service [cur0|e] polls; cbn [tailFile].
  - apply tail_loop_timestamps. constructor.
  - constructor.
Qed.

(** When the file is smaller than [lastSize], the turn starts over from
    offset zero with an empty buffer and a size tracker of zero. *)
Lemma check_rotation_reopens (cur : string) (t : Tailer) :
  Z.of_nat (String.length cur) < lastSize t ->
  check_rotation cur t =
  {| reader := {| offset := 0; buffered := "" |}; lastSize := 0 |}.
Proof.
  intros H. unfold check_rotation.
  apply Z.ltb_lt in H. rewrite H. reflexivity.
Qed.

(** The tailer past the end of the rewritten file stays where it is. *)
Lemma stuck_turn (now service : string) :
  tail_turn U now service (Snapshot file_rotated)
    {| reader := {| offset := 12; buffered := "" |}; lastSize := 2 |} =
  Continue {| reader := {| offset := 12; buffered := "" |}; lastSize := 2 |} None.
Proof. vm_compute. reflexivity. Qed.

Lemma stuck_loop (clock : nat -> string) (service : string) (k : nat)
    (out : list LogOutput) :
  tail_loop U clock service (repeat (Snapshot file_rotated) k)
    {| reader := {| offset := 12; buffered := "" |}; lastSize := 2 |} out =
  {| emitted := out; returned := None;
     state := {| reader := {| offset := 12; buffered := "" |}; lastSize := 2 |} |}.
Proof.
  induction k as [|k IH]; [reflexivity|].
  cbn [repeat tail_loop]. rewrite stuck_turn. exact IH.
Qed.

(** C4 at a file that shrinks between two turns.  The file holds 10 bytes
    when it is opened and 12 once a line is appended, which the tailer
    reads.  It is then truncated and rewritten with the 4 bytes of the
    line "new".  [lastSize] counts the bytes read since the open, 2, not
    the size of the file, so the shrink from 12 to 4 goes unseen: the file
    is not reopened, the tailer stays at offset 12, and however many turns
    follow the line "new" is never handed on. *)
Theorem C4_shrink_unseen (clock : nat -> string) (service : string) (k : nat) :
  let run := tailFile U clock service (Ok file_opened)
               (Snapshot file_grown :: repeat (Snapshot file_rotated) k) in
  Message <$> emitted run = ["c"] /\
  returned run = None /\
  lastSize (state run) = 2 /\
  offset (reader (state run)) = 12%nat /\
  String.length file_grown = 12%nat /\ String.length file_rotated = 4%nat.
Proof.
  cbn zeta. unfold tailFile. cbn [tail_loop].
  replace (tail_turn U (clock (length [])) service (Snapshot file_grown)
             {| reader := {| offset := String.length file_opened; buffered := "" |};
                lastSize := 0 |})
    with (Continue {| reader := {| offset := 12; buffered := "" |}; lastSize := 2 |}
            (Some {| Timestamp := clock 0%nat; Level := "INFO";
                     Service := service; Message := "c" |}))
    by (vm_compute; reflexivity).
  rewrite stuck_loop. repeat split.
Qed.

End Lines.

End AgentFacts.

(** ** Further facts on strings *)

Module StringFacts.
Import Go Agent Reference Vocabulary.

Lemma append_cons (x : ascii) (a b : string) : String x a +:+ b = String x (a +:+ b).
Proof. reflexivity. Qed.

Lemma append_assoc (a b c : string) : (a +:+ b) +:+ c = a +:+ (b +:+ c).
Proof.
  induction a as [|x a IH]; [reflexivity|]. rewrite !append_cons, IH. reflexivity.
Qed.

Lemma append_nil_r (s : string) : s +:+ "" = s.
Proof.
  induction s as [|c s IH]; [reflexivity|]. rewrite append_cons, IH. reflexivity.
Qed.

Lemma length_append (a b : string) :
  String.length (a +:+ b) = (String.length a + String.length b)%nat.
Proof.
  induction a as [|x a IH]; [reflexivity|].
  rewrite append_cons. cbn [String.length]. rewrite IH. reflexivity.
Qed.

Lemma drop_string_app (a b : string) : drop_string (String.length a) (a +:+ b) = b.
Proof. induction a as [|x a IH]; [destruct b; reflexivity|exact IH]. Qed.

Lemma rev_string_onto_app (s acc : string) :
  rev_string_onto s acc = rev_string s +:+ acc.
Proof.
  unfold rev_string. revert acc. induction s as [|c s IH]; intros acc; [reflexivity|].
  cbn [rev_string_onto]. rewrite IH, (IH (String c "")).
  rewrite append_assoc. reflexivity.
Qed.

Lemma rev_string_cons (c : ascii) (s : string) :
  rev_string (String c s) = rev_string s +:+ String c "".
Proof. unfold rev_string at 1. cbn [rev_string_onto]. apply rev_string_onto_app. Qed.

Lemma rev_string_app (a b : string) :
  rev_string (a +:+ b) = rev_string b +:+ rev_string a.
Proof.
  induction a as [|c a IH].
  - change ("" +:+ b) with b. rewrite append_nil_r. reflexivity.
  - rewrite append_cons, !rev_string_cons, IH, append_assoc. reflexivity.
Qed.

Lemma rev_string_involutive (s : string) : rev_string (rev_string s) = s.
Proof.
  induction s as [|c s IH]; [reflexivity|].
  rewrite rev_string_cons, rev_string_app, IH. reflexivity.
Qed.

Lemma all_ascii_app (a b : string) : all_ascii (a +:+ b) = all_ascii a && all_ascii b.
Proof.
  induction a as [|x a IH]; [reflexivity|].
  rewrite append_cons. cbn [all_ascii]. rewrite IH, andb_assoc. reflexivity.
Qed.

Lemma all_ascii_rev (s : string) : all_ascii (rev_string s) = all_ascii s.
Proof.
  induction s as [|c s IH]; [reflexivity|].
  rewrite rev_string_cons, all_ascii_app, IH. simpl.
  rewrite andb_true_r. apply andb_comm.
Qed.

Lemma all_space_app (a b : string) : all_space (a +:+ b) = all_space a && all_space b.
Proof.
  induction a as [|x a IH]; [reflexivity|].
  rewrite append_cons. cbn [all_space]. rewrite IH, andb_assoc. reflexivity.
Qed.

Lemma all_space_rev (s : string) : all_space (rev_string s) = all_space s.
Proof.
  induction s as [|c s IH]; [reflexivity|].
  rewrite rev_string_cons, all_space_app, IH. simpl.
  rewrite andb_true_r. apply andb_comm.
Qed.

Lemma lower_bytes_app a b : lower_bytes (a +:+ b) = lower_bytes a +:+ lower_bytes b.
Proof. induction a as [|x a IH]; simpl; [reflexivity|]. rewrite IH. reflexivity. Qed.

Lemma str_lt_asym a b : str_lt a b = true -> str_lt b a = false.
Proof.
  intros Hab. destruct (str_lt b a) eqn:Hba; [|reflexivity].
  rewrite <- (StringOrder.str_lt_irrefl a). symmetry.
  eapply StringOrder.str_lt_trans; eassumption.
Qed.

Lemma str_lt_weaken a b : str_lt a b = true -> str_le a b = true.
Proof. intros H. apply StringOrder.str_lt_le, str_lt_asym, H. Qed.

End StringFacts.

(** ** The preprocessor: what parsing, mining and bundling keep *)

Module PreprocessorMore.
Import Go Preprocessor Reference Vocabulary StringOrder PreprocessorFacts StringFacts.

Lemma parse_entry_nonempty (R : Runtime) tick e :
  Level (parse_entry R tick e).1 <> "" /\ Service (parse_entry R tick e).1 <> "".
Proof.
  unfold parse_entry.
  destruct (assert_string e "timestamp") as [ts [|]];
    [destruct (negb (ts =? "")%string)|]; cbn [fst Level Service].
  all: split.
  all: match goal with
       | |- context [assert_string ?e0 ?k] =>
           destruct (assert_string e0 k) as [v [|]]; [|discriminate];
           destruct (v =? "")%string eqn:E; cbn [negb]; [discriminate|];
           apply String.eqb_neq; exact E
       end.
Qed.

Lemma parse_entries_nonempty R tick entries :
  Forall (fun log => Level log <> "" /\ Service log <> "") (parse_entries R tick entries).
Proof.
  revert tick. induction entries as [|e rest IH]; intros tick; cbn [parse_entries].
  - constructor.
  - pose proof (parse_entry_nonempty R tick e) as Hne.
    destruct (parse_entry R tick e) as [log tick']. constructor; [exact Hne|apply IH].
Qed.

Lemma mine_map_snoc logs log :
  mine_map (logs ++ [log])%list = mine_step (mine_map logs) log.
Proof. unfold mine_map. rewrite fold_left_app. reflexivity. Qed.

Lemma mine_step_other m log key :
  Message log <> key -> mine_step m log !! key = m !! key.
Proof. intros H. unfold mine_step. apply lookup_insert_ne, H. Qed.

Lemma group_snoc key logs log :
  group key (logs ++ [log])%list =
  (group key logs ++ (if decide (Message log = key) then [log] else []))%list.
Proof.
  unfold group. rewrite filter_app, filter_cons, filter_nil.
  destruct (decide _); reflexivity.
Qed.

Lemma mine_map_None key logs : mine_map logs !! key = None <-> group key logs = [].
Proof.
  induction logs as [|log logs IH] using rev_ind.
  - unfold mine_map. cbn. rewrite lookup_empty. split; reflexivity.
  - rewrite mine_map_snoc, group_snoc. destruct (decide (Message log = key)) as [<-|Hne].
    + unfold mine_step. rewrite lookup_insert_eq. split; [discriminate|].
      intros H. apply app_eq_nil in H as [_ H]. discriminate.
    + rewrite mine_step_other by exact Hne. rewrite app_nil_r. exact IH.
Qed.

Lemma dom_mine_map logs : dom (mine_map logs) = list_to_set (Message <$> logs).
Proof.
  apply set_eq. intros key. rewrite elem_of_dom, elem_of_list_to_set, list_elem_of_fmap.
  rewrite <- not_eq_None_Some, mine_map_None. unfold group. split.
  - intros H. destruct (filter _ logs) as [|log l] eqn:E; [congruence|].
    assert (Hin : log ∈ filter (fun log => Message log = key) logs) by (rewrite E; left).
    apply list_elem_of_filter in Hin as [Hk Hin].
    exists log. split; [symmetry; exact Hk|exact Hin].
  - intros (log & -> & Hin) E.
    assert (Hin' : log ∈ filter (fun l => Message l = Message log) logs)
      by (apply list_elem_of_filter; split; [reflexivity|exact Hin]).
    rewrite E in Hin'. inversion Hin'.
Qed.

Lemma total_count_perm l1 l2 : l1 ≡ₚ l2 -> total_count l1 = total_count l2.
Proof. unfold total_count. induction 1; cbn [foldr] in *; lia. Qed.

Lemma total_count_step m log :
  map_count m (Message log) < int_max -> 0 <= map_count m (Message log) ->
  total_count (map_to_list (mine_step m log)).*2 = total_count (map_to_list m).*2 + 1.
Proof.
  intros Hmax Hmin. unfold mine_step, map_count in *.
  destruct (m !! Message log) as [p|] eqn:Hm.
  - rewrite <- (insert_delete_eq m) at 1.
    rewrite (total_count_perm (map_to_list m).*2
               ((Message log, p) :: map_to_list (delete (Message log) m)).*2).
    2:{ apply fmap_Permutation. symmetry. apply map_to_list_delete, Hm. }
    rewrite (total_count_perm _ _ (fmap_Permutation snd _ _
               (map_to_list_insert _ _ _ (lookup_delete_eq m (Message log))))).
    cbn [fmap list_fmap total_count foldr snd Count].
    rewrite int_add_small by (unfold int_min; lia). fold (total_count (map_to_list (delete (Message log) m)).*2). lia.
  - rewrite (total_count_perm _ _ (fmap_Permutation snd _ _
               (map_to_list_insert _ _ _ Hm))).
    cbn [fmap list_fmap total_count foldr snd Count].
    rewrite int_add_small by (unfold int_min, int_max; lia).
    fold (total_count (map_to_list m).*2). lia.
Qed.

Lemma total_count_mine_map logs :
  Z.of_nat (length logs) <= int_max ->
  total_count (map_to_list (mine_map logs)).*2 = Z.of_nat (length logs).
Proof.
  induction logs as [|log logs IH] using rev_ind; intros Hlen.
  - unfold mine_map. cbn [fold_left]. rewrite map_to_list_empty. reflexivity.
  - rewrite length_app in Hlen |- *. cbn [length] in *.
    rewrite mine_map_snoc, total_count_step, IH by
      (try rewrite mine_map_count by lia;
       pose proof (occurrences_bounds (Message log) logs); lia).
    lia.
Qed.

Lemma min_timestamp_snoc logs log t :
  min_timestamp logs t ->
  min_timestamp (logs ++ [log])%list
    (if str_lt (Timestamp log) t then Timestamp log else t).
Proof.
  intros [(r0 & Hr0 & Ht) Hall]. destruct (str_lt (Timestamp log) t) eqn:Hlt; split.
  - exists log. split; [apply elem_of_app; right; left|reflexivity].
  - intros r Hr. apply elem_of_app in Hr as [Hr|Hr].
    + eapply str_le_trans; [apply str_lt_weaken, Hlt|apply Hall, Hr].
    + apply list_elem_of_singleton in Hr as ->. apply str_le_refl.
  - exists r0. split; [apply elem_of_app; left; exact Hr0|exact Ht].
  - intros r Hr. apply elem_of_app in Hr as [Hr|Hr]; [apply Hall, Hr|].
    apply list_elem_of_singleton in Hr as ->. apply str_lt_le, Hlt.
Qed.

Lemma max_timestamp_snoc logs log t :
  max_timestamp logs t ->
  max_timestamp (logs ++ [log])%list
    (if str_gt (Timestamp log) t then Timestamp log else t).
Proof.
  change (str_gt (Timestamp log) t) with (str_lt t (Timestamp log)).
  intros [(r0 & Hr0 & Ht) Hall]. destruct (str_lt t (Timestamp log)) eqn:Hlt; split.
  - exists log. split; [apply elem_of_app; right; left|reflexivity].
  - intros r Hr. apply elem_of_app in Hr as [Hr|Hr].
    + eapply str_le_trans; [apply Hall, Hr|apply str_lt_weaken, Hlt].
    + apply list_elem_of_singleton in Hr as ->. apply str_le_refl.
  - exists r0. split; [apply elem_of_app; left; exact Hr0|exact Ht].
  - intros r Hr. apply elem_of_app in Hr as [Hr|Hr]; [apply Hall, Hr|].
    apply list_elem_of_singleton in Hr as ->. apply str_lt_le, Hlt.
Qed.

Lemma timestamp_single log :
  min_timestamp [log] (Timestamp log) /\ max_timestamp [log] (Timestamp log).
Proof.
  split; (split; [exists log; split; [left|reflexivity]|]);
    intros r Hr; apply list_elem_of_singleton in Hr as ->; apply str_le_refl.
Qed.

Lemma mine_map_group key logs p :
  mine_map logs !! key = Some p ->
  min_timestamp (group key logs) (FirstOccurrence p) /\
  max_timestamp (group key logs) (LastOccurrence p) /\
  ErrorClass <$> head (group key logs) = Some (PatternErrorClass p).
Proof.
  revert p. induction logs as [|log logs IH] using rev_ind; intros p.
  - unfold mine_map. cbn [fold_left]. rewrite lookup_empty. discriminate.
  - rewrite mine_map_snoc, group_snoc.
    destruct (decide (Message log = key)) as [<-|Hne].
    2:{ rewrite mine_step_other by exact Hne. rewrite app_nil_r. apply IH. }
    unfold mine_step. rewrite lookup_insert_eq. intros [= <-].
    cbn [FirstOccurrence LastOccurrence PatternErrorClass].
    destruct (mine_map logs !! Message log) as [q|] eqn:Hq.
    + destruct (IH q eq_refl) as (Hmin & Hmax & Hec).
      split; [apply min_timestamp_snoc, Hmin|].
      split; [apply max_timestamp_snoc, Hmax|].
      destruct (group (Message log) logs); [discriminate Hec|exact Hec].
    + apply mine_map_None in Hq. rewrite Hq. cbn [app head fmap option_fmap option_map].
      cbn [FirstOccurrence LastOccurrence PatternErrorClass].
      change (str_gt (Timestamp log) (Timestamp log))
        with (str_lt (Timestamp log) (Timestamp log)).
      rewrite str_lt_irrefl.
      split; [apply timestamp_single|split; [apply timestamp_single|reflexivity]].
Qed.

Lemma services_fold logs (acc : gset string) :
  fold_left (fun (m : gset string) log => {[Service log]} ∪ m) logs acc
  = list_to_set (Service <$> logs) ∪ acc.
Proof.
  revert acc. induction logs as [|log logs IH]; intros acc; cbn [fold_left].
  - cbn. symmetry. apply (left_id_L ∅ (∪)).
  - rewrite IH. cbn [fmap list_fmap list_to_set].
    apply set_eq. intros x. rewrite !elem_of_union. tauto.
Qed.

Lemma find_first {A} (f : A -> bool) (l : list A) (x : A) :
  List.find f l = Some x ->
  exists before after, l = (before ++ x :: after)%list /\ f x = true /\
    Forall (fun y => f y = false) before.
Proof.
  induction l as [|a l IH]; cbn [List.find]; [discriminate|].
  destruct (f a) eqn:Ha.
  - intros [= ->]. exists [], l. repeat split; [exact Ha|constructor].
  - intros H. destruct (IH H) as (before & after & -> & Hx & Hb).
    exists (a :: before), after. repeat split; [exact Hx|constructor; assumption].
Qed.

Lemma find_nothing {A} (f : A -> bool) (l : list A) :
  List.find f l = None <-> Forall (fun y => f y = false) l.
Proof.
  induction l as [|a l IH]; cbn [List.find].
  - split; [constructor|reflexivity].
  - destruct (f a) eqn:Ha.
    + split; [discriminate|]. intros H. apply Forall_inv in H. congruence.
    + rewrite IH. split; [constructor; assumption|apply Forall_inv_tail].
Qed.

Lemma float_5_not_0 : 5%float <> 0%float.
Proof.
  intros H. apply (f_equal (fun x => PrimFloat.eqb x 0%float)) in H.
  vm_compute in H. discriminate.
Qed.

Lemma prefix_sep (a b w : string) :
  space_free w = true -> String.prefix w (a +:+ String " " b) = String.prefix w a.
Proof.
  revert w. induction a as [|x a IH]; intros [|c w] Hw; simpl; try reflexivity.
  - simpl in Hw. apply andb_true_iff in Hw as [Hc _].
    destruct (ascii_dec c " ") as [->|]; [discriminate Hc|reflexivity].
  - simpl in Hw. apply andb_true_iff in Hw as [_ Hw].
    destruct (ascii_dec c x); [apply IH, Hw|reflexivity].
Qed.

Lemma Contains_sep (a b w : string) :
  space_free w = true ->
  Contains (a +:+ String " " b) w = Contains a w || Contains b w.
Proof.
  intros Hw. induction a as [|x a IH].
  - change ("" +:+ String " " b) with (String " " b).
    pose proof (prefix_sep "" b w Hw) as Hp.
    change ("" +:+ String " " b) with (String " " b) in Hp.
    cbn [Contains]. rewrite Hp.
    destruct (String.prefix w ""); reflexivity.
  - change (String x a +:+ String " " b) with (String x (a +:+ String " " b)).
    pose proof (prefix_sep (String x a) b w Hw) as Hp.
    change (String x a +:+ String " " b) with (String x (a +:+ String " " b)) in Hp.
    cbn [Contains]. rewrite Hp, IH.
    destruct (String.prefix w (String x a)); reflexivity.
Qed.

Lemma Contains_Join (msgs : list string) (w : string) :
  space_free w = true -> w <> "" ->
  Contains (Join msgs " ") w = existsb (fun m => Contains m w) msgs.
Proof.
  intros Hw Hne. induction msgs as [|m [|m' msgs] IH].
  - cbn. destruct w; [congruence|reflexivity].
  - cbn [Join existsb]. rewrite orb_false_r. reflexivity.
  - change (Join (m :: m' :: msgs) " ") with (m +:+ " " +:+ Join (m' :: msgs) " ").
    change (" " +:+ Join (m' :: msgs) " ") with (String " " (Join (m' :: msgs) " ")).
    rewrite Contains_sep, IH by exact Hw. reflexivity.
Qed.

Lemma lower_bytes_Join msgs :
  lower_bytes (Join msgs " ") = Join (map lower_bytes msgs) " ".
Proof.
  induction msgs as [|m [|m' msgs] IH]; [reflexivity..|].
  change (Join (m :: m' :: msgs) " ") with (m +:+ " " +:+ Join (m' :: msgs) " ").
  rewrite !lower_bytes_app, IH. reflexivity.
Qed.

Lemma all_ascii_Join msgs :
  Forall (fun m => all_ascii m = true) msgs -> all_ascii (Join msgs " ") = true.
Proof.
  induction msgs as [|m [|m' msgs] IH]; intros H; [reflexivity|apply (Forall_inv H)|].
  change (Join (m :: m' :: msgs) " ") with (m +:+ " " +:+ Join (m' :: msgs) " ").
  rewrite !all_ascii_app, (Forall_inv H), IH by apply (Forall_inv_tail H). reflexivity.
Qed.

Section WithRuntime.
Variable R : Runtime.
Hypothesis R_ok : RuntimeOk R.

(** Without records there is no bundle: [Process] returns the error of
    [ParseLogs] on a nil slice and the error of [CreateBundle] on an empty
    one. *)
Theorem Process_without_records :
  Process R None = Err "rawData is nil" /\
  Process R (Some []) = Err "cannot create bundle from empty logs".
Proof.
  split; [reflexivity|].
  unfold Process, ParseLogs. cbn [parse_entries].
  pose proof (sort_Slice_perm R R_ok timestamp_less []) as Hp.
  apply Permutation_nil_r in Hp. rewrite Hp. reflexivity.
Qed.

(** [ParseLogs] never fails on a slice that is not nil; it yields one
    record per raw entry, and no record has an empty level or an empty
    service name, whatever the entries hold. *)
Theorem ParseLogs_defaults (entries : list (gmap string Value)) :
  exists logs, ParseLogs R (Some entries) = Ok logs /\
    length logs = length entries /\
    Forall (fun log => Level log <> "" /\ Service log <> "") logs.
Proof.
  eexists. split; [reflexivity|].
  pose proof (sort_Slice_perm R R_ok timestamp_less (parse_entries R 0 entries)) as Hp.
  split; [rewrite (Permutation_length Hp); apply parse_entries_length|].
  rewrite Hp. apply parse_entries_nonempty.
Qed.

(** [MinePatterns] yields exactly one pattern per distinct message: no two
    patterns share their text, and a text is a pattern if and only if it
    is the message of some record. *)
Theorem MinePatterns_keys (logs : list RawLogGo) :
  NoDup (Pattern <$> MinePatterns R logs) /\
  forall key, key ∈ Pattern <$> MinePatterns R logs <-> key ∈ Message <$> logs.
Proof.
  split; [apply MinePatterns_NoDup, R_ok|]. intros key.
  rewrite <- (elem_of_list_to_set (C := gset string) key (Message <$> logs)).
  rewrite <- dom_mine_map, elem_of_dom, list_elem_of_fmap. split.
  - intros (p & -> & Hp). apply (MinePatterns_elem R R_ok) in Hp. eauto.
  - intros [p Hp]. exists p. pose proof (mine_map_keyed logs key p Hp) as Hk. subst key.
    split; [reflexivity|]. apply (MinePatterns_elem R R_ok), Hp.
Qed.

(** The counts of the mined patterns add up to the number of records.
    (A Go slice holds at most [int_max] records.) *)
Theorem MinePatterns_total (logs : list RawLogGo) :
  Z.of_nat (length logs) <= int_max ->
  total_count (MinePatterns R logs) = Z.of_nat (length logs).
Proof.
  intros Hlen. unfold MinePatterns.
  rewrite (total_count_perm _ (map_to_list (mine_map logs)).*2)
    by (apply fmap_Permutation, (range_order_perm R R_ok)).
  apply total_count_mine_map, Hlen.
Qed.

(** The first and last occurrence of a mined pattern are the least and
    the greatest timestamp among the records with that message, so the
    first is never after the last. *)
Theorem MinePatterns_occurrences (logs : list RawLogGo) :
  Forall (fun p =>
    min_timestamp (group (Pattern p) logs) (FirstOccurrence p) /\
    max_timestamp (group (Pattern p) logs) (LastOccurrence p) /\
    str_le (FirstOccurrence p) (LastOccurrence p) = true) (MinePatterns R logs).
Proof.
  apply Forall_forall. intros p Hp. apply (MinePatterns_elem R R_ok) in Hp.
  destruct (mine_map_group _ _ _ Hp) as (Hmin & Hmax & _).
  split; [exact Hmin|split; [exact Hmax|]].
  destruct Hmin as [(r & Hr & <-) _]. apply Hmax, Hr.
Qed.

(** The error class of a mined pattern is the one of the first record, in
    the order of the slice, that carries the message; later records with
    the same message do not change it. *)
Theorem MinePatterns_errorClass (logs : list RawLogGo) :
  Forall (fun p =>
    exists first, head (group (Pattern p) logs) = Some first /\
      PatternErrorClass p = ErrorClass first) (MinePatterns R logs).
Proof.
  apply Forall_forall. intros p Hp. apply (MinePatterns_elem R R_ok) in Hp.
  destruct (mine_map_group _ _ _ Hp) as (_ & _ & Hec).
  destruct (head (group (Pattern p) logs)) as [first|]; [|discriminate].
  exists first. split; [reflexivity|]. injection Hec as ->. reflexivity.
Qed.

(** The affected services of a bundle are the service names of its
    records, each listed once, and the dependency graph is the same
    list. *)
Theorem CreateBundle_services (first : RawLogGo) (rest : list RawLogGo)
    (patterns : list LogPatternGo) :
  exists b, CreateBundle R (first :: rest) patterns = Ok b /\
    NoDup (AffectedServices b) /\
    (forall s, s ∈ AffectedServices b <->
       exists log, log ∈ first :: rest /\ Service log = s) /\
    DependencyGraph b = AffectedServices b.
Proof.
  eexists. split; [reflexivity|].
  cbn [AffectedServices DependencyGraph fold_left].
  rewrite services_fold.
  split; [|split; [|reflexivity]].
  - rewrite (range_order_perm R R_ok). apply NoDup_elements.
  - intros s. rewrite (range_order_perm R R_ok).
    rewrite elem_of_elements, elem_of_union, elem_of_list_to_set, list_elem_of_fmap.
    split.
    + intros [(log & -> & Hin)|H].
      * exists log. split; [right; exact Hin|reflexivity].
      * apply elem_of_union in H as [H|H]; [|apply elem_of_empty in H; destruct H].
        apply elem_of_singleton in H as ->. exists first. split; [left|reflexivity].
    + intros (log & Hin & <-). apply elem_of_cons in Hin as [->|Hin].
      * right. apply elem_of_union. left. apply elem_of_singleton. reflexivity.
      * left. exists log. split; [reflexivity|exact Hin].
Qed.

End WithRuntime.

Lemma Process_without_records_witness :
  Process runtime0 None = Err "rawData is nil" /\
  Process runtime0 (Some []) = Err "cannot create bundle from empty logs".
Proof. exact (Process_without_records runtime0 runtime0_ok). Defined.

Lemma ParseLogs_defaults_witness :
  exists logs, ParseLogs runtime0 (Some scenario_entries) = Ok logs /\
    length logs = length scenario_entries /\
    Forall (fun log => Level log <> "" /\ Service log <> "") logs.
Proof. exact (ParseLogs_defaults runtime0 runtime0_ok scenario_entries). Defined.

Lemma MinePatterns_keys_witness :
  NoDup (Pattern <$> MinePatterns runtime0 sample_logs) /\
  forall key, key ∈ Pattern <$> MinePatterns runtime0 sample_logs
              <-> key ∈ Message <$> sample_logs.
Proof. exact (MinePatterns_keys runtime0 runtime0_ok sample_logs). Defined.

Lemma MinePatterns_total_witness :
  total_count (MinePatterns runtime0 sample_logs) = 3.
Proof.
  apply (MinePatterns_total runtime0 runtime0_ok sample_logs).
  vm_compute. discriminate.
Defined.

Lemma MinePatterns_occurrences_witness :
  Forall (fun p =>
    min_timestamp (group (Pattern p) sample_logs) (FirstOccurrence p) /\
    max_timestamp (group (Pattern p) sample_logs) (LastOccurrence p) /\
    str_le (FirstOccurrence p) (LastOccurrence p) = true)
    (MinePatterns runtime0 sample_logs).
Proof. exact (MinePatterns_occurrences runtime0 runtime0_ok sample_logs). Defined.

Lemma MinePatterns_errorClass_witness :
  Forall (fun p =>
    exists first, head (group (Pattern p) sample_logs) = Some first /\
      PatternErrorClass p = ErrorClass first) (MinePatterns runtime0 sample_logs).
Proof. exact (MinePatterns_errorClass runtime0 runtime0_ok sample_logs). Defined.

Lemma CreateBundle_services_witness :
  exists b, CreateBundle runtime0 sample_logs [] = Ok b /\
    NoDup (AffectedServices b) /\
    (forall s, s ∈ AffectedServices b <->
       exists log, log ∈ sample_logs /\ Service log = s) /\
    DependencyGraph b = AffectedServices b.
Proof.
  exact (CreateBundle_services runtime0 runtime0_ok
           (sample_log "2024-01-01T00:00:03Z" "ERROR" "svc-a" "conn timeout")
           [sample_log "2024-01-01T00:00:01Z" "ERROR" "svc-a" "conn timeout";
            sample_log "2024-01-01T00:00:02Z" "INFO" "svc-b" "db ok"] []).
Defined.

(** The root service of a bundle is the service of the earliest record in
    the slice whose level is ERROR, FATAL or CRITICAL, and there is none
    exactly when no record has such a level.  The error score is 5
    exactly when some record has the level ERROR, and then a root service
    is named; the hint is "Unknown issue" exactly when none is. *)
Theorem CreateBundle_root (R : Runtime) (first : RawLogGo) (rest : list RawLogGo)
    (patterns : list LogPatternGo) :
  let logs := first :: rest in
  exists b, CreateBundle R logs patterns = Ok b /\
    (RootService b = None <-> Forall (fun log => is_root_level log = false) logs) /\
    (forall s, RootService b = Some s ->
       exists before log after, logs = (before ++ log :: after)%list /\
         Service log = s /\ is_root_level log = true /\
         Forall (fun l => is_root_level l = false) before) /\
    (ErrorRateZ (Metrics b) = 5%float <->
       exists log, log ∈ logs /\ Level log = "ERROR") /\
    (ErrorRateZ (Metrics b) = 5%float -> RootService b <> None) /\
    (DerivedRootCauseHint b = "Unknown issue" <-> RootService b = None).
Proof.
  cbn zeta. set (logs := first :: rest).
  destruct (CreateBundle R logs patterns) as [b|e] eqn:Hb; [|discriminate].
  exists b. split; [reflexivity|].
  apply CreateBundle_fields in Hb as (_ & _ & HR & HE & _ & HD).
  rewrite HD, HE, HR. clear HD HE HR.
  assert (Herr : (if existsb (fun l => (Level l =? "ERROR")%string) logs
                  then 5%float else 0%float) = 5%float <->
                 exists log, log ∈ logs /\ Level log = "ERROR").
  { destruct (existsb _ logs) eqn:E.
    - apply existsb_exists in E as (log & Hin & Hl).
      split; [|reflexivity]. intros _. exists log.
      split; [apply list_elem_of_In, Hin|apply String.eqb_eq, Hl].
    - split; [intros H; symmetry in H; destruct (float_5_not_0 H)|].
      intros (log & Hin & Hl).
      assert (existsb (fun l => (Level l =? "ERROR")%string) logs = true); [|congruence].
      apply existsb_exists. exists log. split; [apply list_elem_of_In, Hin|].
      apply String.eqb_eq, Hl. }
  split; [|split; [|split; [exact Herr|split]]].
  - destruct (List.find is_root_level logs) as [log|] eqn:E; cbn [fmap option_fmap option_map].
    + split; [discriminate|]. intros H. apply find_nothing in H. congruence.
    + split; [intros _; apply find_nothing, E|reflexivity].
  - intros s Hs. destruct (List.find is_root_level logs) as [log|] eqn:E; [|discriminate].
    injection Hs as <-. destruct (find_first _ _ _ E) as (before & after & Hl & Hx & Hb).
    exists before, log, after. repeat split; assumption.
  - intros H. apply Herr in H as (log & Hin & Hl).
    destruct (List.find is_root_level logs) eqn:E; [discriminate|].
    apply find_nothing in E. apply (proj1 (Forall_forall _ _) E) in Hin.
    unfold is_root_level in Hin. rewrite Hl in Hin. discriminate.
  - destruct (List.find is_root_level logs); cbn [fmap option_fmap option_map];
      split; try discriminate; try reflexivity.
Qed.

(** When the messages are ASCII text, the latency score is 3 exactly when
    some single message, in lower case, holds "timeout" or "messages":
    joining the messages with blanks creates no further match. *)
Theorem CreateBundle_latency (R : Runtime) (first : RawLogGo) (rest : list RawLogGo)
    (patterns : list LogPatternGo) :
  let logs := first :: rest in
  Forall (fun log => all_ascii (Message log) = true) logs ->
  exists b, CreateBundle R logs patterns = Ok b /\
    LatencyZ (Metrics b) =
      if existsb (fun log => mentions "timeout" log || mentions "messages" log) logs
      then 3%float else 0%float.
Proof.
  cbn zeta. set (logs := first :: rest). intros Hascii.
  destruct (CreateBundle R logs patterns) as [b|e] eqn:Hb; [|discriminate].
  exists b. split; [reflexivity|].
  apply CreateBundle_fields in Hb as (_ & _ & _ & _ & HL & _).
  rewrite HL. cbn zeta. unfold ToLower.
  rewrite all_ascii_Join by (apply Forall_fmap; exact Hascii).
  rewrite lower_bytes_Join, !Contains_Join by (reflexivity || discriminate).
  rewrite map_map.
  replace (existsb (fun m => Contains m "timeout") (map (fun x => lower_bytes (Message x)) logs)
           || existsb (fun m => Contains m "messages") (map (fun x => lower_bytes (Message x)) logs))
    with (existsb (fun log => mentions "timeout" log || mentions "messages" log) logs);
    [reflexivity|].
  clear. induction logs as [|log logs IH]; [reflexivity|].
  cbn [existsb map]. rewrite IH. unfold mentions.
  destruct (Contains (lower_bytes (Message log)) "timeout"),
           (Contains (lower_bytes (Message log)) "messages"),
           (existsb (fun m => Contains m "timeout") _); reflexivity.
Qed.

Lemma CreateBundle_latency_witness :
  exists b, CreateBundle runtime0 sample_logs [] = Ok b /\
    LatencyZ (Metrics b) = 3%float.
Proof.
  apply (CreateBundle_latency runtime0
           (sample_log "2024-01-01T00:00:03Z" "ERROR" "svc-a" "conn timeout")
           [sample_log "2024-01-01T00:00:01Z" "ERROR" "svc-a" "conn timeout";
            sample_log "2024-01-01T00:00:02Z" "INFO" "svc-b" "db ok"] []).
  repeat constructor.
Defined.

End PreprocessorMore.

(** ** The UTF-16 file reader: byte order, code points, round trip *)

Module ReaderMore.
Import Go Agent Reference Vocabulary AgentFacts.

Lemma lor_shiftl_add (lo hi k : Z) :
  0 <= k -> 0 <= lo < 2 ^ k -> Z.lor lo (Z.shiftl hi k) = lo + hi * 2 ^ k.
Proof.
  intros Hk Hlo. rewrite <- Z.add_lor_land, Z.shiftl_mul_pow2 by exact Hk.
  replace (Z.land lo (hi * 2 ^ k)) with 0; [lia|].
  symmetry. apply Z.bits_inj'. intros n Hn.
  rewrite Z.land_spec, Z.bits_0.
  destruct (Z.lt_ge_cases n k) as [Hlt|Hge].
  - rewrite Z.mul_pow2_bits_low by exact Hlt. apply andb_false_r.
  - rewrite <- (Z.mod_small lo (2 ^ k)) by exact Hlo.
    rewrite Z.mod_pow2_bits_high by lia. reflexivity.
Qed.

Lemma byte_Z_range (b : byte) : 0 <= byte_Z b < 256.
Proof.
  unfold byte_Z. pose proof (Byte.to_N_bounded b) as H. lia.
Qed.

Lemma byte_Z_of (z : Z) : 0 <= z < 256 -> byte_Z (byte_of_Z z) = z.
Proof.
  intros Hz. unfold byte_Z, byte_of_Z.
  destruct (Byte.of_N (Z.to_N z)) as [b|] eqn:E.
  - simpl. rewrite (Byte.to_of_N _ E). lia.
  - apply Byte.of_N_None_iff in E. lia.
Qed.

Lemma byte_of_Z_byte_Z (b : byte) : byte_of_Z (byte_Z b) = b.
Proof. unfold byte_of_Z, byte_Z. rewrite N2Z.id, Byte.of_to_N. reflexivity. Qed.

Lemma LittleEndian_value (lo hi : byte) (rest : list byte) :
  LittleEndian_Uint16 (lo :: hi :: rest) = byte_Z lo + byte_Z hi * 256.
Proof.
  unfold LittleEndian_Uint16. apply (lor_shiftl_add _ _ 8); [lia|].
  change (2 ^ 8) with 256. apply byte_Z_range.
Qed.

Lemma BigEndian_value (hi lo : byte) (rest : list byte) :
  BigEndian_Uint16 (hi :: lo :: rest) = byte_Z lo + byte_Z hi * 256.
Proof.
  unfold BigEndian_Uint16. apply (lor_shiftl_add _ _ 8); [lia|].
  change (2 ^ 8) with 256. apply byte_Z_range.
Qed.

Lemma units_of_le (units : list Z) :
  Forall is_unit units ->
  units_of LittleEndian_Uint16
    (flat_map (fun u => [byte_of_Z (u mod 256); byte_of_Z (u / 256)]) units) = units.
Proof.
  induction 1 as [|u units Hu _ IH]; [reflexivity|].
  cbn [flat_map app units_of]. rewrite IH, LittleEndian_value.
  unfold is_unit in Hu.
  rewrite !byte_Z_of by
    (try apply Z.mod_pos_bound; try (split; [apply Z.div_pos|apply Z.div_lt_upper_bound]); lia).
  f_equal. pose proof (Z.div_mod u 256). lia.
Qed.

Lemma units_of_be (units : list Z) :
  Forall is_unit units ->
  units_of BigEndian_Uint16
    (flat_map (fun u => [byte_of_Z (u / 256); byte_of_Z (u mod 256)]) units) = units.
Proof.
  induction 1 as [|u units Hu _ IH]; [reflexivity|].
  cbn [flat_map app units_of]. rewrite IH, BigEndian_value.
  unfold is_unit in Hu.
  rewrite !byte_Z_of by
    (try apply Z.mod_pos_bound; try (split; [apply Z.div_pos|apply Z.div_lt_upper_bound]); lia).
  f_equal. pose proof (Z.div_mod u 256). lia.
Qed.

Lemma read_utf16_units (units : list Z) :
  units <> [] -> Forall is_unit units ->
  readFileAutoUTF (Ok (utf16le_bytes units)) = Ok (string_of_runes (utf16_Decode units)) /\
  readFileAutoUTF (Ok (utf16be_bytes units)) = Ok (string_of_runes (utf16_Decode units)).
Proof.
  intros Hne Hu. unfold utf16le_bytes, utf16be_bytes. split.
  - rewrite readFileAutoUTF_le, units_of_le; [reflexivity|exact Hu|reflexivity|].
    destruct units; [congruence|discriminate].
  - rewrite readFileAutoUTF_be, units_of_be; [reflexivity|exact Hu|reflexivity|].
    destruct units; [congruence|discriminate].
Qed.



Lemma DecodeRune_range (r1 r2 : Z) :
  surr1 <= r1 < surr2 -> surr2 <= r2 < surr3 ->
  surrSelf <= DecodeRune r1 r2 <= MaxRune.
Proof.
  unfold DecodeRune, surr1, surr2, surr3, surrSelf, MaxRune. intros H1 H2.
  rewrite Z.lor_comm, (lor_shiftl_add _ _ 10) by (change (2 ^ 10) with 1024; lia).
  change (2 ^ 10) with 1024. lia.
Qed.

Lemma valid_plain (u : Z) :
  is_unit u -> (u <? surr1) || (surr3 <=? u) = true -> valid_rune u.
Proof.
  unfold valid_rune, is_unit, MaxRune, surr1, surr3. intros Hu E.
  apply orb_true_iff in E as [E|E]; [apply Z.ltb_lt in E|apply Z.leb_le in E]; lia.
Qed.

Lemma utf16_Decode_one (u : Z) :
  utf16_Decode [u] =
  if (u <? surr1) || (surr3 <=? u) then [u] else [replacementChar].
Proof. reflexivity. Qed.

Lemma utf16_Decode_two (u r2 : Z) (l : list Z) :
  utf16_Decode (u :: r2 :: l) =
  if (u <? surr1) || (surr3 <=? u) then u :: utf16_Decode (r2 :: l)
  else if (surr1 <=? u) && (u <? surr2) && (surr2 <=? r2) && (r2 <? surr3)
       then DecodeRune u r2 :: utf16_Decode l
       else replacementChar :: utf16_Decode (r2 :: l).
Proof. reflexivity. Qed.

Lemma utf16_Decode_valid (units : list Z) :
  Forall is_unit units ->
  Forall valid_rune (utf16_Decode units) /\
  (length (utf16_Decode units) <= length units)%nat.
Proof.
  intros Hu.
  assert (Hrep : valid_rune replacementChar).
  { unfold valid_rune, replacementChar, MaxRune, surr1, surr3. lia. }
  assert (H : forall l, Forall is_unit l ->
    (Forall valid_rune (utf16_Decode l) /\ (length (utf16_Decode l) <= length l)%nat) /\
    forall u, is_unit u ->
      Forall valid_rune (utf16_Decode (u :: l)) /\
      (length (utf16_Decode (u :: l)) <= S (length l))%nat).
  { induction 1 as [|r2 l Hr2 Hl [[IHv IHl] IHc]].
    - split; [split; [constructor|reflexivity]|]. intros u Hu'.
      rewrite utf16_Decode_one.
      destruct ((u <? surr1) || (surr3 <=? u)) eqn:E; split;
        try (cbn [length]; lia).
      + constructor; [apply valid_plain; assumption|constructor].
      + constructor; [exact Hrep|constructor].
    - split; [apply IHc, Hr2|]. intros u Hu'.
      destruct (IHc r2 Hr2) as [Hc1 Hc2].
      rewrite utf16_Decode_two.
      destruct ((u <? surr1) || (surr3 <=? u)) eqn:E.
      + split; [constructor; [apply valid_plain; assumption|exact Hc1]|].
        cbn [length] in *. lia.
      + destruct ((surr1 <=? u) && (u <? surr2) && (surr2 <=? r2) && (r2 <? surr3)) eqn:E2.
        * split; [constructor; [|exact IHv]|cbn [length] in *; lia].
          repeat (apply andb_true_iff in E2 as [E2 ?]).
          pose proof (DecodeRune_range u r2) as Hd.
          unfold valid_rune, surr1, surr2, surr3, surrSelf, MaxRune in *. lia.
        * split; [constructor; [exact Hrep|exact Hc1]|cbn [length] in *; lia]. }
  apply H, Hu.
Qed.

Lemma units_of_range (Uint16 : list byte -> Z) (body : list byte) :
  (forall a b, is_unit (Uint16 [a; b])) ->
  Forall is_unit (units_of Uint16 body) /\
  length (units_of Uint16 body) = (length body / 2)%nat.
Proof.
  intros HU. induction body as [| a | a b l [IH1 IH2]] using pair_ind.
  - split; [constructor|reflexivity].
  - split; [constructor|reflexivity].
  - cbn [units_of length]. rewrite half_SS, IH2.
    split; [constructor; [apply HU|exact IH1]|reflexivity].
Qed.

Lemma LittleEndian_unit (a b : byte) : is_unit (LittleEndian_Uint16 [a; b]).
Proof.
  rewrite LittleEndian_value. unfold is_unit.
  pose proof (byte_Z_range a). pose proof (byte_Z_range b). lia.
Qed.

Lemma BigEndian_unit (a b : byte) : is_unit (BigEndian_Uint16 [a; b]).
Proof.
  rewrite BigEndian_value. unfold is_unit.
  pose proof (byte_Z_range a). pose proof (byte_Z_range b). lia.
Qed.

(** What the reader decodes from UTF-16 is made of Unicode scalar values
    only (an unpaired surrogate becomes U+FFFD), at most one for each
    pair of bytes after the byte-order mark. *)
Theorem readFileAutoUTF_scalar_values (data : list byte) :
  utf16_input data = true ->
  exists runes, readFileAutoUTF (Ok data) = Ok (string_of_runes runes) /\
    Forall valid_rune runes /\
    (length runes <= (length data - 2) / 2)%nat.
Proof.
  intros H. unfold utf16_input in H.
  apply andb_true_iff in H as [Hlen Hbom]. apply Nat.leb_le in Hlen.
  destruct data as [|x [|y [|z body]]]; cbn [length] in Hlen; try lia.
  replace (length (x :: y :: z :: body) - 2)%nat with (length (z :: body))
    by (cbn [length]; lia).
  apply orb_true_iff in Hbom as [Hb|Hb].
  - exists (utf16_Decode (units_of LittleEndian_Uint16 (z :: body))).
    destruct (units_of_range LittleEndian_Uint16 (z :: body) LittleEndian_unit) as [Hu Hl].
    destruct (utf16_Decode_valid _ Hu) as [Hv Hn].
    split; [apply readFileAutoUTF_le; [exact Hb|discriminate]|].
    split; [exact Hv|]. rewrite <- Hl. exact Hn.
  - exists (utf16_Decode (units_of BigEndian_Uint16 (z :: body))).
    destruct (units_of_range BigEndian_Uint16 (z :: body) BigEndian_unit) as [Hu Hl].
    destruct (utf16_Decode_valid _ Hu) as [Hv Hn].
    split; [apply readFileAutoUTF_be; [exact Hb|discriminate]|].
    split; [exact Hv|]. rewrite <- Hl. exact Hn.
Qed.

Lemma readFileAutoUTF_scalar_values_witness :
  exists runes,
    readFileAutoUTF (Ok [xff; xfe; x3d; xd8; x41; x00; x42]) = Ok (string_of_runes runes) /\
    Forall valid_rune runes /\ (length runes <= 2)%nat.
Proof.
  apply (readFileAutoUTF_scalar_values [xff; xfe; x3d; xd8; x41; x00; x42]).
  reflexivity.
Defined.

Lemma utf16_Decode_ascii (text : list byte) :
  Forall is_ascii_byte text -> utf16_Decode (byte_Z <$> text) = byte_Z <$> text.
Proof.
  induction 1 as [|b text Hb _ IH]; [reflexivity|].
  assert (E : (byte_Z b <? surr1) || (surr3 <=? byte_Z b) = true).
  { unfold is_ascii_byte, surr1 in *. apply orb_true_iff. left. apply Z.ltb_lt. lia. }
  destruct text as [|b' text].
  - rewrite fmap_cons, fmap_nil, utf16_Decode_one, E. reflexivity.
  - rewrite !fmap_cons in *. rewrite utf16_Decode_two, E, IH. reflexivity.
Qed.

Lemma encode_rune_ascii (b : byte) : is_ascii_byte b -> encode_rune (byte_Z b) = [b].
Proof.
  unfold is_ascii_byte, encode_rune. intros Hb. pose proof (byte_Z_range b) as Hr.
  replace ((byte_Z b <? 0) || (MaxRune <? byte_Z b)
           || (surr1 <=? byte_Z b) && (byte_Z b <? surr3)) with false.
  2:{ symmetry. unfold MaxRune, surr1, surr3.
      rewrite !orb_false_iff, andb_false_iff, !Z.ltb_ge, Z.leb_gt. lia. }
  replace (byte_Z b <? 128) with true by (symmetry; apply Z.ltb_lt; lia).
  f_equal. apply byte_of_Z_byte_Z.
Qed.

Lemma string_of_runes_ascii (text : list byte) :
  Forall is_ascii_byte text -> string_of_runes (byte_Z <$> text) = string_of_bytes text.
Proof.
  intros H. unfold string_of_runes. f_equal.
  induction H as [|b text Hb _ IH]; [reflexivity|].
  rewrite fmap_cons. cbn [map concat]. rewrite IH, encode_rune_ascii by exact Hb.
  reflexivity.
Qed.

(** Round trip for ASCII text: a text of ASCII bytes, not empty, written
    as UTF-16 in either byte order after the mark, is read back as that
    same text. *)
Theorem readFileAutoUTF_ascii_text (text : list byte) :
  text <> [] -> Forall is_ascii_byte text ->
  readFileAutoUTF (Ok (utf16le_bytes (byte_Z <$> text))) = Ok (string_of_bytes text) /\
  readFileAutoUTF (Ok (utf16be_bytes (byte_Z <$> text))) = Ok (string_of_bytes text).
Proof.
  intros Hne Hascii.
  assert (Hu : Forall is_unit (byte_Z <$> text)).
  { apply Forall_fmap. eapply Forall_impl; [exact Hascii|].
    intros b Hb. unfold is_unit, is_ascii_byte in *. cbn.
    pose proof (byte_Z_range b). lia. }
  assert (Hne' : byte_Z <$> text <> []) by (destruct text; [congruence|discriminate]).
  destruct (read_utf16_units _ Hne' Hu) as [Hle Hbe].
  rewrite Hle, Hbe, utf16_Decode_ascii, string_of_runes_ascii by exact Hascii.
  split; reflexivity.
Qed.

Lemma readFileAutoUTF_ascii_text_witness :
  readFileAutoUTF (Ok (utf16le_bytes (byte_Z <$> [x6f; x6b]))) = Ok "ok" /\
  readFileAutoUTF (Ok (utf16be_bytes (byte_Z <$> [x6f; x6b]))) = Ok "ok".
Proof.
  apply (readFileAutoUTF_ascii_text [x6f; x6b]); [discriminate|].
  repeat constructor; unfold is_ascii_byte; vm_compute; reflexivity.
Defined.

End ReaderMore.

(** ** The line parsers: date, white space, level and type *)

Module LineMore.
Import Go Agent Reference Vocabulary AgentFacts StringFacts.

Lemma dead_deriv (c : ascii) (r : regex) :
  dead r = true -> nullable r = false /\ dead (deriv c r) = true.
Proof.
  induction r as [| |p|r1 IH1 r2 IH2|r1 IH1 r2 IH2|r IH]; cbn [dead nullable deriv];
    try discriminate; intros H.
  - split; reflexivity.
  - apply orb_true_iff in H as [H|H].
    + destruct (IH1 H) as [Hn Hd]. rewrite Hn. cbn [andb dead]. rewrite Hd. split; reflexivity.
    + destruct (IH2 H) as [Hn Hd]. rewrite Hn, andb_false_r. split; [reflexivity|].
      destruct (nullable r1); cbn [dead]; rewrite ?Hd, H, ?orb_true_r; reflexivity.
  - apply andb_true_iff in H as [H1 H2].
    destruct (IH1 H1) as [Hn1 Hd1], (IH2 H2) as [Hn2 Hd2].
    rewrite Hn1, Hn2, Hd1, Hd2. split; reflexivity.
Qed.

Lemma dead_no_match (r : regex) (s : string) :
  dead r = true -> full_match r s = false /\ prefix_match r s = None.
Proof.
  revert r. induction s as [|c s IH]; intros r H.
  - cbn. destruct (dead_deriv "a" r H) as [-> _]. split; reflexivity.
  - cbn [full_match prefix_match]. destruct (dead_deriv c r H) as [-> Hd].
    destruct (IH _ Hd) as [-> ->]. split; reflexivity.
Qed.

Lemma prefix_match_cons (r : regex) (c : ascii) (s : string) :
  prefix_match r (String c s) =
  if nullable r then Some O else S <$> prefix_match (deriv c r) s.
Proof. reflexivity. Qed.

Lemma shaped_cons (p : ascii -> bool) ps (c : ascii) (s : string) :
  shaped (p :: ps) (String c s) = p c && shaped ps s.
Proof. reflexivity. Qed.

Lemma fmap_S_if (x : option nat) (b : bool) (m : nat) :
  x = (if b then Some m else None) -> S <$> x = if b then Some (S m) else None.
Proof. intros ->. destruct b; reflexivity. Qed.

Ltac shape_step :=
  lazymatch goal with
  | |- prefix_match ?r ?s = _ =>
      destruct s as [|? s]; [reflexivity|];
      rewrite prefix_match_cons, shaped_cons;
      lazymatch goal with
      | |- context [nullable ?r'] => change (nullable r') with false
      end;
      cbn [deriv nullable andb orb Repeat Chr];
      lazymatch goal with
      | |- context [?p ?c && shaped _ _] =>
          destruct (p c) eqn:?; cbn [andb];
          [apply fmap_S_if
          |lazymatch goal with
           | |- context [prefix_match ?r0 ?s0] =>
               rewrite (proj2 (dead_no_match r0 s0 eq_refl)); reflexivity
           end]
      end
  end.

Lemma timeRegex_match (s : string) :
  prefix_match timeRegex s = if date_shape s then Some 10%nat else None.
Proof.
  unfold date_shape, timeRegex. do 10 shape_step. destruct s; reflexivity.
Qed.

Lemma parseLine_message (U : Unicode) (now line service : string) :
  Message (parseLine U now line service) =
  if date_shape line then TrimSpace U (drop_string 10 line) else TrimSpace U line.
Proof.
  unfold parseLine, ReplaceAllString_prefix. cbn [Message].
  rewrite timeRegex_match. destruct (date_shape line); reflexivity.
Qed.

(** [parseLine] removes exactly the ten bytes of a leading date
    [dddd-dd-dd] and then trims; a line that does not begin with such a
    date is only trimmed. *)
Theorem parseLine_strips_date (U : Unicode) (now line service : string) :
  Message (parseLine U now line service) =
  if date_shape line then TrimSpace U (drop_string 10 line) else TrimSpace U line.
Proof. apply parseLine_message. Qed.

Lemma digit_not_space (c : ascii) :
  digit c = true -> space c = false /\ Ascii.eqb "a" c = false.
Proof.
  intros Hd. split.
  - unfold digit, space in *. apply andb_true_iff in Hd as [H1 H2].
    apply Z.leb_le in H1, H2. rewrite !orb_false_iff, !Z.eqb_neq. lia.
  - destruct (Ascii.eqb_spec "a" c) as [<-|]; [discriminate Hd|reflexivity].
Qed.

Lemma timeRegex_first (c : ascii) (s : string) :
  digit c = false -> prefix_match Legacy.timeRegex (String c s) = None.
Proof.
  intros Hd. unfold Legacy.timeRegex, timeRegex.
  rewrite prefix_match_cons.
  lazymatch goal with
  | |- context [nullable ?r'] => change (nullable r') with false
  end.
  cbn [deriv nullable andb orb Repeat Chr]. rewrite Hd.
  lazymatch goal with
  | |- context [prefix_match ?r0 ?s0] =>
      rewrite (proj2 (dead_no_match r0 s0 eq_refl)); reflexivity
  end.
Qed.

Lemma javaStackLine_first (c : ascii) (s : string) :
  space c = false -> Ascii.eqb "a" c = false ->
  full_match Legacy.javaStackLine (String c s) = false.
Proof.
  intros Hs Ha. unfold Legacy.javaStackLine. cbn [full_match].
  cbn [deriv nullable andb orb Chr Plus]. rewrite Hs, Ha.
  lazymatch goal with
  | |- full_match ?r0 ?s0 = false => exact (proj1 (dead_no_match r0 s0 eq_refl))
  end.
Qed.

Lemma line_types_exclusive (line : string) :
  MatchString_prefix Legacy.timeRegex line = true ->
  full_match Legacy.javaStackLine line = false.
Proof.
  unfold MatchString_prefix. intros H. apply bool_decide_eq_true in H as [n Hn].
  destruct line as [|c s]; [discriminate Hn|].
  destruct (digit c) eqn:Hd; [|rewrite timeRegex_first in Hn by exact Hd; discriminate].
  destruct (digit_not_space c Hd) as [Hs Ha]. apply javaStackLine_first; assumption.
Qed.

Lemma formatLogLine_severity (line : string) :
  Legacy.formatLogLine line !! "severity" =
  if Contains line "ERROR" then Some (VString "ERROR")
  else if Contains line "WARN" then Some (VString "WARN")
  else if Contains line "INFO" then Some (VString "INFO")
  else if Contains line "DEBUG" then Some (VString "DEBUG")
  else None.
Proof.
  unfold Legacy.formatLogLine.
  destruct (Contains line "ERROR"); [apply lookup_insert_eq|].
  destruct (Contains line "WARN"); [apply lookup_insert_eq|].
  destruct (Contains line "INFO"); [apply lookup_insert_eq|].
  destruct (Contains line "DEBUG"); [apply lookup_insert_eq|].
  destruct (MatchString_prefix Legacy.timeRegex line),
           (full_match Legacy.javaStackLine line);
    repeat (rewrite lookup_insert_ne by discriminate);
    apply lookup_singleton_ne; discriminate.
Qed.

Lemma formatLogLine_type (line : string) :
  Legacy.formatLogLine line !! "type" =
  if full_match Legacy.javaStackLine line then Some (VString "stacktrace_line")
  else if MatchString_prefix Legacy.timeRegex line then Some (VString "timestamped")
  else None.
Proof.
  unfold Legacy.formatLogLine.
  assert (H : forall m : gmap string Value,
    (if Contains line "ERROR" then <["severity" := VString "ERROR"]> m
     else if Contains line "WARN" then <["severity" := VString "WARN"]> m
     else if Contains line "INFO" then <["severity" := VString "INFO"]> m
     else if Contains line "DEBUG" then <["severity" := VString "DEBUG"]> m
     else m) !! "type" = m !! "type").
  { intros m. destruct (Contains line "ERROR"), (Contains line "WARN"),
      (Contains line "INFO"), (Contains line "DEBUG");
      try reflexivity; apply lookup_insert_ne; discriminate. }
  rewrite H. clear H.
  destruct (full_match Legacy.javaStackLine line); [apply lookup_insert_eq|].
  destruct (MatchString_prefix Legacy.timeRegex line); [apply lookup_insert_eq|].
  apply lookup_singleton_ne. discriminate.
Qed.

(** [formatLogLine] marks a line "timestamped" exactly when it begins
    with a date and a time of day, and "stacktrace_line" exactly when it
    is a Java stack frame; no line is both, so the second mark never
    overwrites the first. *)
Theorem formatLogLine_type_exact (line : string) :
  (Legacy.formatLogLine line !! "type" = Some (VString "timestamped") <->
     MatchString_prefix Legacy.timeRegex line = true) /\
  (Legacy.formatLogLine line !! "type" = Some (VString "stacktrace_line") <->
     full_match Legacy.javaStackLine line = true) /\
  (MatchString_prefix Legacy.timeRegex line = true ->
     full_match Legacy.javaStackLine line = false).
Proof.
  rewrite formatLogLine_type. pose proof (line_types_exclusive line) as Hx.
  split; [|split; [|exact Hx]].
  - destruct (MatchString_prefix Legacy.timeRegex line).
    + rewrite Hx by reflexivity. split; reflexivity.
    + destruct (full_match Legacy.javaStackLine line); split; discriminate.
  - destruct (full_match Legacy.javaStackLine line); [split; reflexivity|].
    destruct (MatchString_prefix Legacy.timeRegex line); split; discriminate.
Qed.

(** The two line parsers give the same level, except that [formatLogLine]
    gives none to a line without any of the four tokens, where
    [parseLine] says INFO, and that it says INFO for a line with both the
    tokens INFO and DEBUG and with neither ERROR nor WARN, where
    [parseLine] says DEBUG. *)
Theorem levels_compared (U : Unicode) (now line service : string) :
  Legacy.formatLogLine line !! "severity" =
  if Contains line "ERROR" || Contains line "WARN"
     || Contains line "INFO" || Contains line "DEBUG"
  then Some (VString
         (if negb (Contains line "ERROR") && negb (Contains line "WARN")
             && Contains line "INFO" && Contains line "DEBUG"
          then "INFO" else Level (parseLine U now line service)))
  else None.
Proof.
  rewrite formatLogLine_severity, parseLine_level.
  destruct (Contains line "ERROR"), (Contains line "WARN"),
    (Contains line "INFO"), (Contains line "DEBUG"); reflexivity.
Qed.

Lemma drop_spaces_split (s : string) :
  exists sp, s = sp +:+ drop_spaces s /\ all_space sp = true /\
    head_space (drop_spaces s) = false.
Proof.
  induction s as [|c s (sp & Hs & Hsp & Hh)].
  - exists "". repeat split.
  - cbn [drop_spaces]. destruct (asciiSpace c) eqn:Hc.
    + exists (String c sp). rewrite append_cons, <- Hs. cbn [all_space].
      rewrite Hc, Hsp. repeat split. exact Hh.
    + exists "". cbn [all_space head_space]. rewrite Hc. repeat split.
Qed.

Lemma drop_spaces_ascii (s : string) :
  all_ascii s = true -> all_ascii (drop_spaces s) = true.
Proof.
  induction s as [|c s IH]; [reflexivity|]. cbn [drop_spaces].
  destruct (asciiSpace c); [|trivial]. simpl. intros H.
  apply andb_true_iff in H as [_ H]. apply IH, H.
Qed.

Lemma trim_right_ascii (r : string) :
  all_ascii r = true -> trim_right r = inl (drop_spaces r).
Proof.
  induction r as [|c r IH]; [reflexivity|]. simpl. intros H.
  apply andb_true_iff in H as [Hc H]. apply negb_true_iff in Hc. rewrite Hc.
  destruct (asciiSpace c); [apply IH, H|reflexivity].
Qed.

Lemma TrimSpace_ascii (U : Unicode) (s : string) :
  all_ascii s = true -> TrimSpace U s = trim_ascii s.
Proof.
  unfold trim_ascii. induction s as [|c s IH]; [reflexivity|]. intros H.
  cbn [TrimSpace drop_spaces].
  pose proof H as H'. simpl in H'. apply andb_true_iff in H' as [Hc Hs].
  apply negb_true_iff in Hc. rewrite Hc.
  destruct (asciiSpace c); [apply IH, Hs|].
  rewrite trim_right_ascii by (rewrite all_ascii_rev; exact H). reflexivity.
Qed.

Lemma trim_ascii_split (s : string) :
  exists pre post, s = pre +:+ trim_ascii s +:+ post /\
    all_space pre = true /\ all_space post = true /\
    head_space (trim_ascii s) = false /\
    head_space (rev_string (trim_ascii s)) = false.
Proof.
  unfold trim_ascii.
  destruct (drop_spaces_split s) as (pre & Hs & Hpre & Hh).
  destruct (drop_spaces_split (rev_string (drop_spaces s))) as (sp & Hr & Hsp & Hh').
  set (y := drop_spaces s) in *. set (x := drop_spaces (rev_string y)) in *.
  assert (Hy : y = rev_string x +:+ rev_string sp).
  { rewrite <- rev_string_app, <- Hr, rev_string_involutive. reflexivity. }
  exists pre, (rev_string sp). split; [rewrite <- Hy; exact Hs|].
  split; [exact Hpre|]. split; [rewrite all_space_rev; exact Hsp|].
  split; [|rewrite rev_string_involutive; exact Hh'].
  rewrite Hy in Hh. destruct (rev_string x); [reflexivity|exact Hh].
Qed.

Lemma drop_string_ascii (n : nat) (s : string) :
  all_ascii s = true -> all_ascii (drop_string n s) = true.
Proof.
  revert s. induction n as [|n IH]; intros [|c s] H; cbn [drop_string]; try exact H.
  apply IH. simpl in H. apply andb_true_iff in H as [_ H]. exact H.
Qed.

(** On a line of ASCII bytes [parseLine] does not consult the tables of
    package unicode, and it removes white space only: what is left of the
    line after the date is the message between two runs of white space,
    and the message neither begins nor ends with white space. *)
Theorem parseLine_ascii (U1 U2 : Unicode) (now line service : string) :
  all_ascii line = true ->
  parseLine U1 now line service = parseLine U2 now line service /\
  let body := if date_shape line then drop_string 10 line else line in
  let msg := Message (parseLine U1 now line service) in
  exists pre post, body = pre +:+ msg +:+ post /\
    all_space pre = true /\ all_space post = true /\
    head_space msg = false /\ head_space (rev_string msg) = false.
Proof.
  intros H.
  assert (Hb : all_ascii (if date_shape line then drop_string 10 line else line) = true).
  { destruct (date_shape line); [apply drop_string_ascii|]; exact H. }
  assert (Hm : forall U, Message (parseLine U now line service) =
                 trim_ascii (if date_shape line then drop_string 10 line else line)).
  { intros U. rewrite parseLine_message.
    destruct (date_shape line); apply TrimSpace_ascii; exact Hb. }
  split.
  - pose proof (Hm U1) as H1. pose proof (Hm U2) as H2.
    unfold parseLine in *. cbn [Message] in H1, H2. rewrite H1, H2. reflexivity.
  - cbn zeta. rewrite Hm. apply trim_ascii_split.
Qed.

Lemma parseLine_ascii_witness :
  parseLine no_unicode "now" "2024-01-02  disk full  " "svc"
    = parseLine no_unicode "now" "2024-01-02  disk full  " "svc" /\
  exists pre post,
    "  disk full  " = pre +:+ "disk full" +:+ post /\
    all_space pre = true /\ all_space post = true /\
    head_space "disk full" = false /\ head_space (rev_string "disk full") = false.
Proof.
  apply (parseLine_ascii no_unicode no_unicode "now" "2024-01-02  disk full  " "svc").
  reflexivity.
Defined.

End LineMore.

(** ** The tailer: appended lines, partial lines, rotation, cancellation *)

Module TailerMore.
Import Go Agent Reference Vocabulary AgentFacts StringFacts.

Lemma newline_index_cons (c : ascii) (s : string) :
  newline_index (String c s) =
  if Ascii.eqb c (ascii_of_nat 10) then Some O else S <$> newline_index s.
Proof.
  unfold newline_index, nl. cbn [String.index String.prefix].
  destruct (ascii_dec (ascii_of_nat 10) c) as [<-|Hne].
  - destruct s; reflexivity.
  - destruct (Ascii.eqb_spec c (ascii_of_nat 10)) as [->|_]; [congruence|].
    destruct (String.index 0 _ s); reflexivity.
Qed.

Lemma newline_index_line (line rest : string) :
  newline_free line = true ->
  newline_index (line +:+ nl +:+ rest) = Some (String.length line).
Proof.
  intros H. induction line as [|c line IH].
  - change ("" +:+ nl +:+ rest) with (String (ascii_of_nat 10) rest).
    rewrite newline_index_cons, Ascii.eqb_refl. reflexivity.
  - cbn [newline_free] in H. apply andb_true_iff in H as [Hc H].
    apply negb_true_iff in Hc.
    rewrite append_cons, newline_index_cons, Hc, IH by exact H. reflexivity.
Qed.

Lemma newline_index_free (s : string) :
  newline_free s = true -> newline_index s = None.
Proof.
  induction s as [|c s IH]; [reflexivity|]. cbn [newline_free]. intros H.
  apply andb_true_iff in H as [Hc H]. apply negb_true_iff in Hc.
  rewrite newline_index_cons, Hc, IH by exact H. reflexivity.
Qed.

Lemma substring_line (line rest : string) :
  substring 0 (S (String.length line)) (line +:+ nl +:+ rest) = line +:+ nl.
Proof.
  induction line as [|c line IH].
  - change ("" +:+ nl +:+ rest) with (String (ascii_of_nat 10) rest).
    cbn [String.length substring]. destruct rest; reflexivity.
  - rewrite !append_cons. cbn [String.length substring]. rewrite IH. reflexivity.
Qed.

Lemma substring_none (n : nat) (s : string) : substring n 0 s = "".
Proof. revert s. induction n as [|n IH]; intros [|c s]; cbn; auto. Qed.

Lemma block_end_line (i : nat) :
  Nat.min ((i / defaultBufSize + 1) * defaultBufSize) (S i) = S i.
Proof.
  apply Nat.min_r. unfold defaultBufSize.
  pose proof (Nat.div_mod_eq i 4096) as H.
  pose proof (Nat.mod_upper_bound i 4096). lia.
Qed.

Section WithUnicode.
Variable U : Unicode.

Lemma ReadString_eof (cur : string) :
  ReadString cur {| offset := String.length cur; buffered := "" |} =
  ("", true, {| offset := String.length cur; buffered := "" |}).
Proof.
  unfold ReadString. cbn [buffered offset].
  change (newline_index "") with (@None nat). cbv beta iota zeta.
  change ("" +:+ drop_string (String.length cur) cur)
    with (drop_string (String.length cur) cur).
  pose proof (drop_string_app cur "") as Hd. rewrite append_nil_r in Hd. rewrite Hd.
  change (newline_index "") with (@None nat). cbv beta iota. cbn [String.length].
  rewrite Nat.add_0_r. reflexivity.
Qed.

Lemma ReadString_line (cur line : string) :
  newline_free line = true ->
  ReadString (cur +:+ line +:+ nl) {| offset := String.length cur; buffered := "" |} =
  (line +:+ nl, false,
   {| offset := String.length (cur +:+ line +:+ nl); buffered := "" |}).
Proof.
  intros Hfree. unfold ReadString. cbn [buffered offset].
  change (newline_index "") with (@None nat). cbv beta iota zeta.
  change ("" +:+ drop_string (String.length cur) (cur +:+ line +:+ nl))
    with (drop_string (String.length cur) (cur +:+ line +:+ nl)).
  rewrite drop_string_app.
  pose proof (newline_index_line line "" Hfree) as Hi.
  pose proof (substring_line line "") as Hs.
  rewrite !append_nil_r in Hi, Hs. rewrite Hi. cbv beta iota. rewrite Hs.
  assert (Hlen : String.length (line +:+ nl) = S (String.length line)).
  { rewrite length_append. cbn. lia. }
  rewrite Hlen, block_end_line. cbn [String.length].
  rewrite Nat.sub_0_r, Nat.sub_diag, substring_none.
  rewrite length_append, Hlen. reflexivity.
Qed.

(** An idle turn *)
Lemma turn_idle (now service cur : string) (L : Z) :
  L <= Z.of_nat (String.length cur) ->
  tail_turn U now service (Snapshot cur)
    {| reader := {| offset := String.length cur; buffered := "" |}; lastSize := L |} =
  Continue {| reader := {| offset := String.length cur; buffered := "" |}; lastSize := L |} None.
Proof.
  intros HL. unfold tail_turn, check_rotation. cbn [lastSize reader].
  replace (Z.of_nat (String.length cur) <? L) with false by (symmetry; apply Z.ltb_ge; lia).
  cbn [lastSize reader]. rewrite ReadString_eof. reflexivity.
Qed.

(** A turn that finds one more line *)
Lemma turn_line (now service cur line : string) (L : Z) :
  newline_free line = true ->
  0 <= L <= Z.of_nat (String.length cur) ->
  L + Z.of_nat (S (String.length line)) <= int_max ->
  tail_turn U now service (Snapshot (cur +:+ line +:+ nl))
    {| reader := {| offset := String.length cur; buffered := "" |}; lastSize := L |} =
  Continue
    {| reader := {| offset := String.length (cur +:+ line +:+ nl); buffered := "" |};
       lastSize := L + Z.of_nat (S (String.length line)) |}
    (hand_on U now service line).
Proof.
  intros Hfree HL Hmax. unfold tail_turn, check_rotation. cbn [lastSize reader].
  replace (Z.of_nat (String.length (cur +:+ line +:+ nl)) <? L) with false
    by (symmetry; apply Z.ltb_ge; rewrite length_append; lia).
  cbn [lastSize reader]. rewrite ReadString_line by exact Hfree.
  assert (Hlen : String.length (line +:+ nl) = S (String.length line)).
  { rewrite length_append. cbn. lia. }
  rewrite Hlen, PreprocessorFacts.int_add_small by (unfold int_min, int_max in *; lia).
  unfold hand_on.
  destruct (TrimSpace U (line +:+ nl) =? "")%string; reflexivity.
Qed.

Lemma tail_loop_grow (clock : nat -> string) (service : string)
    (lines : list (option string)) (cur : string) (L : Z) (out : list LogOutput) :
  Forall (fun o => from_option newline_free true o = true) lines ->
  0 <= L <= Z.of_nat (String.length cur) ->
  L + Z.of_nat (String.length (appended (line_chunk <$> lines))) <= int_max ->
  tail_loop U clock service (grow cur (line_chunk <$> lines))
    {| reader := {| offset := String.length cur; buffered := "" |}; lastSize := L |} out =
  {| emitted := handed_on U clock service (omap id lines) out;
     returned := None;
     state := {| reader := {| offset := String.length (cur +:+ appended (line_chunk <$> lines));
                              buffered := "" |};
                 lastSize := L + Z.of_nat (String.length (appended (line_chunk <$> lines))) |} |}.
Proof.
  intros Hfree. revert cur L out.
  induction Hfree as [|o lines Ho _ IH]; intros cur L out HL Hmax.
  - cbn. rewrite append_nil_r, Z.add_0_r. reflexivity.
  - rewrite fmap_cons in *. cbn [grow tail_loop appended foldr] in *.
    fold (appended (line_chunk <$> lines)) in *.
    rewrite length_append in Hmax. destruct o as [l|]; cbn [line_chunk from_option] in *.
    + assert (Hlen : String.length (l +:+ nl) = S (String.length l)).
      { rewrite length_append. cbn. lia. }
      rewrite Hlen in Hmax.
      assert (Hcur : String.length (cur +:+ l +:+ nl)
                     = (String.length cur + S (String.length l))%nat).
      { rewrite length_append, Hlen. reflexivity. }
      rewrite turn_line by (try exact Ho; lia).
      unfold omap; cbn [list_omap id handed_on]. fold (omap id lines).
      destruct (hand_on U (clock (length out)) service l) as [log|] eqn:Eh;
        rewrite IH by lia;
        rewrite append_assoc, (length_append (l +:+ nl)), Hlen, Nat2Z.inj_add,
          !Z.add_assoc;
        reflexivity.
    + rewrite append_nil_r, turn_idle by lia.
      change ("" +:+ appended (line_chunk <$> lines)) with (appended (line_chunk <$> lines)).
      rewrite IH by (cbn [String.length] in Hmax; lia). reflexivity.
Qed.

(** Tailing starts at the end of the file and follows what is appended:
    when whole lines are appended one per turn, with idle turns in
    between, the records handed on are those of the appended lines that
    are not blank, each once and in order; nothing is made of what the
    file held when it was opened, and the size tracker counts the bytes
    appended. *)
Theorem tailFile_appended_lines (clock : nat -> string) (service cur0 : string)
    (lines : list (option string)) :
  Forall (fun o => from_option newline_free true o = true) lines ->
  Z.of_nat (String.length (appended (line_chunk <$> lines))) <= int_max ->
  let run := tailFile U clock service (Ok cur0) (grow cur0 (line_chunk <$> lines)) in
  emitted run = handed_on U clock service (omap id lines) [] /\
  returned run = None /\
  offset (reader (state run))
    = String.length (cur0 +:+ appended (line_chunk <$> lines)) /\
  buffered (reader (state run)) = "" /\
  lastSize (state run) = Z.of_nat (String.length (appended (line_chunk <$> lines))).
Proof.
  intros Hfree Hmax. cbn zeta. unfold tailFile.
  rewrite tail_loop_grow by (try exact Hfree; lia). repeat split.
Qed.

Lemma ReadString_partial (cur part : string) :
  newline_free part = true ->
  ReadString (cur +:+ part) {| offset := String.length cur; buffered := "" |} =
  (part, true, {| offset := String.length (cur +:+ part); buffered := "" |}).
Proof.
  intros Hfree. unfold ReadString. cbn [buffered offset].
  change (newline_index "") with (@None nat). cbv beta iota zeta.
  change ("" +:+ drop_string (String.length cur) (cur +:+ part))
    with (drop_string (String.length cur) (cur +:+ part)).
  rewrite drop_string_app, newline_index_free by exact Hfree. cbv beta iota.
  cbn [String.length]. rewrite Nat.sub_0_r, length_append. reflexivity.
Qed.

Lemma turn_partial (now service cur part : string) (L : Z) :
  newline_free part = true ->
  L <= Z.of_nat (String.length cur) ->
  tail_turn U now service (Snapshot (cur +:+ part))
    {| reader := {| offset := String.length cur; buffered := "" |}; lastSize := L |} =
  Continue {| reader := {| offset := String.length (cur +:+ part); buffered := "" |};
              lastSize := L |} None.
Proof.
  intros Hfree HL. unfold tail_turn, check_rotation. cbn [lastSize reader].
  replace (Z.of_nat (String.length (cur +:+ part)) <? L) with false
    by (symmetry; apply Z.ltb_ge; rewrite length_append; lia).
  cbn [lastSize reader]. rewrite ReadString_partial by exact Hfree. reflexivity.
Qed.

(** A line that is written in two steps, with a turn of the tailer in
    between, loses its first part: the part met at the end of the file is
    read and dropped, and the record is made of the second part alone. *)
Theorem tailFile_partial_line (clock : nat -> string)
    (service cur0 part1 part2 : string) :
  newline_free part1 = true -> newline_free part2 = true ->
  Z.of_nat (S (String.length part2)) <= int_max ->
  let run := tailFile U clock service (Ok cur0)
               [Snapshot (cur0 +:+ part1);
                Snapshot ((cur0 +:+ part1) +:+ part2 +:+ nl)] in
  emitted run = option_list (hand_on U (clock 0%nat) service part2) /\
  returned run = None /\
  lastSize (state run) = Z.of_nat (S (String.length part2)).
Proof.
  intros H1 H2 Hmax. cbn zeta. unfold tailFile. cbn [tail_loop].
  rewrite turn_partial by (try exact H1; lia).
  cbn [length]. rewrite turn_line by (try exact H2; lia).
  destruct (hand_on U (clock 0%nat) service part2); cbn; repeat split.
Qed.

Lemma tail_turn_rotation (now service line rest : string) (t : Tailer) :
  newline_free line = true ->
  Z.of_nat (String.length (line +:+ nl +:+ rest)) < lastSize t ->
  lastSize t <= int_max ->
  exists rd,
    tail_turn U now service (Snapshot (line +:+ nl +:+ rest)) t =
    Continue {| reader := rd; lastSize := Z.of_nat (S (String.length line)) |}
             (hand_on U now service line).
Proof.
  intros Hfree Hlt Hmax. unfold tail_turn.
  rewrite check_rotation_reopens by exact Hlt. cbn [reader lastSize].
  unfold ReadString. cbn [buffered offset].
  change (newline_index "") with (@None nat). cbv beta iota zeta.
  change ("" +:+ drop_string 0 (line +:+ nl +:+ rest)) with (line +:+ nl +:+ rest).
  rewrite newline_index_line, substring_line by exact Hfree. cbv beta iota.
  assert (Hlen : String.length (line +:+ nl) = S (String.length line)).
  { rewrite length_append. cbn. lia. }
  rewrite Hlen. rewrite PreprocessorFacts.int_add_small.
  2:{ rewrite !length_append in Hlt. cbn [String.length nl] in Hlt.
      unfold int_min, int_max in *. lia. }
  unfold hand_on. eexists.
  destruct (TrimSpace U (line +:+ nl) =? "")%string; reflexivity.
Qed.

Lemma tail_loop_app (clock : nat -> string) (service : string)
    (polls1 polls2 : list Poll) (t : Tailer) (out : list LogOutput) :
  tail_loop U clock service (polls1 ++ polls2) t out =
  let run1 := tail_loop U clock service polls1 t out in
  match returned run1 with
  | Some _ => run1
  | None => tail_loop U clock service polls2 (state run1) (emitted run1)
  end.
Proof.
  revert t out. induction polls1 as [|p polls1 IH]; intros t out; [reflexivity|].
  cbn [app tail_loop].
  destruct (tail_turn U (clock (length out)) service p t) as [err|t' [log|]];
    [reflexivity|apply IH..].
Qed.

Lemma tail_loop_extends (clock : nat -> string) (service : string)
    (polls : list Poll) (t : Tailer) (out : list LogOutput) :
  out `prefix_of` emitted (tail_loop U clock service polls t out).
Proof.
  revert t out. induction polls as [|p polls IH]; intros t out; [reflexivity|].
  cbn [tail_loop].
  destruct (tail_turn U (clock (length out)) service p t) as [err|t' [log|]];
    [reflexivity| |apply IH].
  etransitivity; [|apply IH]. apply prefix_app_r. reflexivity.
Qed.

Lemma tail_loop_service (clock : nat -> string) (service : string)
    (polls : list Poll) (t : Tailer) (out : list LogOutput) :
  Forall (fun log => Service log = service) out ->
  Forall (fun log => Service log = service)
         (emitted (tail_loop U clock service polls t out)).
Proof.
  revert t out. induction polls as [|p polls IH]; intros t out Hout; [exact Hout|].
  cbn [tail_loop].
  destruct (tail_turn U (clock (length out)) service p t) as [err|t' [log|]] eqn:Ht;
    [exact Hout| |apply IH, Hout].
  apply IH, Forall_app. split; [exact Hout|]. constructor; [|constructor].
  unfold tail_turn in Ht. destruct p as [|cur]; [discriminate|].
  destruct (ReadString cur (reader (check_rotation cur t))) as [[line eof] rd].
  destruct eof; [discriminate|].
  destruct (TrimSpace U line =? "")%string; [discriminate|].
  injection Ht as _ <-. reflexivity.
Qed.

(** Cancelling ends the run: once the context is found cancelled,
    [tailFile] returns nil with the records handed on so far, and the
    turns that would follow are never taken. *)
Theorem tailFile_cancelled (clock : nat -> string) (service : string)
    (opened : result string) (polls1 polls2 : list Poll) :
  let run1 := tailFile U clock service opened polls1 in
  returned run1 = None ->
  tailFile U clock service opened (polls1 ++ Cancelled :: polls2) =
  {| emitted := emitted run1; returned := Some None; state := state run1 |}.
Proof.
  cbn zeta. unfold tailFile. destruct opened as [cur0|e]; [|discriminate].
  intros H. rewrite tail_loop_app. cbv zeta. rewrite H. reflexivity.
Qed.

(** Records are handed on once and for all: the records of a run are a
    prefix of the records of every longer run, and each carries the
    service name given to [tailFile]. *)
Theorem tailFile_emitted_grows (clock : nat -> string) (service : string)
    (opened : result string) (polls1 polls2 : list Poll) :
  emitted (tailFile U clock service opened polls1)
    `prefix_of` emitted (tailFile U clock service opened (polls1 ++ polls2)) /\
  Forall (fun log => Service log = service)
         (emitted (tailFile U clock service opened (polls1 ++ polls2))).
Proof.
  unfold tailFile. destruct opened as [cur0|e]; [|split; [reflexivity|constructor]].
  split; [|apply tail_loop_service; constructor].
  rewrite tail_loop_app. cbv zeta.
  destruct (returned (tail_loop U clock service polls1 _ [])); [reflexivity|].
  apply tail_loop_extends.
Qed.

(** A rewrite of the file is seen when the new content is shorter than
    the bytes read since the file was opened: the next turn then starts
    over from offset zero, hands on the first line of the new content and
    counts the size anew. *)
Theorem tailFile_rotation_seen (clock : nat -> string) (service cur0 : string)
    (lines : list (option string)) (line rest : string) :
  Forall (fun o => from_option newline_free true o = true) lines ->
  Z.of_nat (String.length (appended (line_chunk <$> lines))) <= int_max ->
  newline_free line = true ->
  (String.length (line +:+ nl +:+ rest)
     < String.length (appended (line_chunk <$> lines)))%nat ->
  let before := handed_on U clock service (omap id lines) [] in
  let run := tailFile U clock service (Ok cur0)
               (grow cur0 (line_chunk <$> lines)
                  ++ [Snapshot (line +:+ nl +:+ rest)])%list in
  emitted run =
    (before ++ option_list (hand_on U (clock (length before)) service line))%list /\
  returned run = None /\
  lastSize (state run) = Z.of_nat (S (String.length line)).
Proof.
  intros Hfree Hmax Hline Hshort. cbn zeta.
  unfold tailFile. rewrite tail_loop_app. cbv zeta.
  rewrite tail_loop_grow by (try exact Hfree; lia).
  cbn [returned state emitted tail_loop].
  destruct (tail_turn_rotation
              (clock (length (handed_on U clock service (omap id lines) []))) service
              line rest
              {| reader := {| offset := String.length
                                          (cur0 +:+ appended (line_chunk <$> lines));
                              buffered := "" |};
                 lastSize := 0 + Z.of_nat (String.length
                                             (appended (line_chunk <$> lines))) |}
              Hline) as [rd Hrd]; [cbn [lastSize]; lia..|].
  rewrite Hrd.
  destruct (hand_on U _ service line);
    cbn [option_list emitted returned state lastSize];
    rewrite ?app_nil_r; repeat split.
Qed.

End WithUnicode.

Lemma tailFile_appended_lines_witness :
  let run := tailFile no_unicode (fun _ => "now") "svc" (Ok file_opened)
               (grow file_opened (line_chunk <$> [Some "c"; None; Some " "; Some "d"])) in
  emitted run = handed_on no_unicode (fun _ => "now") "svc" ["c"; " "; "d"] [] /\
  returned run = None /\
  offset (reader (state run)) = 16%nat /\
  buffered (reader (state run)) = "" /\
  lastSize (state run) = 6.
Proof.
  apply (tailFile_appended_lines no_unicode (fun _ => "now") "svc" file_opened
           [Some "c"; None; Some " "; Some "d"]).
  - repeat constructor.
  - vm_compute. discriminate.
Defined.

Lemma tailFile_partial_line_witness :
  let run := tailFile no_unicode (fun _ => "now") "svc" (Ok file_opened)
               [Snapshot (file_opened +:+ "ERROR disk");
                Snapshot ((file_opened +:+ "ERROR disk") +:+ " full" +:+ nl)] in
  emitted run = option_list (hand_on no_unicode "now" "svc" " full") /\
  returned run = None /\
  lastSize (state run) = 6.
Proof.
  apply (tailFile_partial_line no_unicode (fun _ => "now") "svc" file_opened
           "ERROR disk" " full"); [reflexivity..|].
  vm_compute. discriminate.
Defined.

Lemma tailFile_cancelled_witness :
  tailFile no_unicode (fun _ => "now") "svc" (Ok file_opened)
    ([Snapshot file_grown] ++ Cancelled :: [Snapshot file_rotated]) =
  {| emitted := emitted (tailFile no_unicode (fun _ => "now") "svc" (Ok file_opened)
                           [Snapshot file_grown]);
     returned := Some None;
     state := state (tailFile no_unicode (fun _ => "now") "svc" (Ok file_opened)
                       [Snapshot file_grown]) |}.
Proof.
  apply (tailFile_cancelled no_unicode (fun _ => "now") "svc" (Ok file_opened)
           [Snapshot file_grown] [Snapshot file_rotated]).
  reflexivity.
Defined.

Lemma tailFile_rotation_seen_witness :
  let before := handed_on no_unicode (fun _ => "now") "svc" ["first"; "second"] [] in
  let run := tailFile no_unicode (fun _ => "now") "svc" (Ok "")
               (grow "" (line_chunk <$> [Some "first"; Some "second"])
                  ++ [Snapshot ("new" +:+ nl +:+ "")])%list in
  emitted run =
    (before ++ option_list (hand_on no_unicode "now" "svc" "new"))%list /\
  returned run = None /\
  lastSize (state run) = 4.
Proof.
  apply (tailFile_rotation_seen no_unicode (fun _ => "now") "svc" ""
           [Some "first"; Some "second"] "new" "").
  - repeat constructor.
  - vm_compute. discriminate.
  - reflexivity.
  - vm_compute. lia.
Defined.

End TailerMore.

(** * The number of lines asked for: [Atoi], [parseLines], [loadConfig] *)

Module NumberMore.
Import Go Preprocessor Agent Reference Vocabulary.

Lemma digit_value_digit (c : ascii) :
  digit c = true ->
  digit_value c = Some (byte_val c - 48) /\ 0 <= byte_val c - 48 <= 9.
Proof.
  unfold digit, digit_value. cbv zeta. intros H. rewrite H. split; [reflexivity|].
  apply andb_true_iff in H. destruct H as [H1 H2].
  apply Z.leb_le in H1. apply Z.leb_le in H2. lia.
Qed.

Lemma digit_no_sign (c : ascii) :
  digit c = true -> Ascii.eqb c "-" = false /\ Ascii.eqb c "+" = false.
Proof.
  intros H. split; apply Ascii.eqb_neq; intros ->; discriminate H.
Qed.

Lemma pow10_S (n : nat) : 10 ^ Z.of_nat (S n) = 10 * 10 ^ Z.of_nat n.
Proof. rewrite Nat2Z.inj_succ, Z.pow_succ_r by lia. reflexivity. Qed.

Lemma pow10_pos (n : nat) : 1 <= 10 ^ Z.of_nat n.
Proof. pose proof (Z.pow_pos_nonneg 10 (Z.of_nat n)). lia. Qed.

Lemma decimal_bounds (s : string) :
  all_digits s = true -> 0 <= decimal s < 10 ^ Z.of_nat (String.length s).
Proof.
  induction s as [|c s IH]; [intros _; cbn; lia|].
  cbn [all_digits decimal String.length]. intros H.
  apply andb_true_iff in H. destruct H as [Hc Hs].
  destruct (digit_value_digit c Hc) as [_ Hd]. specialize (IH Hs).
  rewrite pow10_S. pose proof (pow10_pos (String.length s)). nia.
Qed.

Lemma atoi_digits_decimal (s : string) : forall n,
  all_digits s = true ->
  atoi_digits s n = Some (n * 10 ^ Z.of_nat (String.length s) + decimal s).
Proof.
  induction s as [|c s IH]; intros n.
  - intros _. cbn. f_equal. lia.
  - cbn [all_digits atoi_digits decimal String.length]. intros H.
    apply andb_true_iff in H. destruct H as [Hc Hs].
    destruct (digit_value_digit c Hc) as [-> _].
    rewrite (IH _ Hs), pow10_S. f_equal. ring.
Qed.

Lemma parse_uint_decimal (s : string) : forall n,
  all_digits s = true -> 0 <= n <= maxUint64 ->
  parse_uint_digits s n =
  if n * 10 ^ Z.of_nat (String.length s) + decimal s <=? maxUint64
  then (n * 10 ^ Z.of_nat (String.length s) + decimal s, None)
  else (maxUint64, Some ErrRange).
Proof.
  change maxUint64 with 18446744073709551615.
  induction s as [|c s IH]; intros n.
  - intros _ Hn. cbn [parse_uint_digits decimal String.length].
    replace (n * 10 ^ Z.of_nat 0 + 0) with n by (cbn; lia).
    replace (n <=? _) with true by (symmetry; apply Z.leb_le; lia). reflexivity.
  - cbn [all_digits parse_uint_digits decimal String.length]. intros H Hn.
    apply andb_true_iff in H. destruct H as [Hc Hs].
    destruct (digit_value_digit c Hc) as [-> Hd].
    pose proof (decimal_bounds s Hs) as Hdec.
    pose proof (pow10_pos (String.length s)) as Hpow.
    rewrite pow10_S.
    change (maxUint64 / 10 + 1) with 1844674407370955162.
    change maxUint64 with 18446744073709551615.
    set (P := 10 ^ Z.of_nat (String.length s)) in *.
    set (d := byte_val c - 48) in *.
    rewrite Z.geb_leb. destruct (1844674407370955162 <=? n) eqn:H1.
    { apply Z.leb_le in H1.
      replace (_ <=? 18446744073709551615) with false; [reflexivity|].
      symmetry. apply Z.leb_gt. nia. }
    apply Z.leb_gt in H1. cbv zeta. rewrite Z.gtb_ltb.
    destruct (18446744073709551615 <? n * 10 + d) eqn:H2.
    { apply Z.ltb_lt in H2.
      replace (_ <=? 18446744073709551615) with false; [reflexivity|].
      symmetry. apply Z.leb_gt. nia. }
    apply Z.ltb_ge in H2. rewrite (IH _ Hs) by lia. fold P.
    replace (n * (10 * P) + (d * P + decimal s)) with ((n * 10 + d) * P + decimal s) by ring.
    reflexivity.
Qed.

(** [Atoi] on a text of decimal digits: the number written, or the
    greatest [int] with the range error when the number does not fit. *)
Lemma Atoi_decimal (s : string) :
  all_digits s = true -> s <> "" ->
  Atoi s = if decimal s <? 2 ^ 63 then (decimal s, None)
           else (2 ^ 63 - 1, Some ErrRange).
Proof.
  intros Hs Hne. destruct s as [|c s]; [congruence|].
  pose proof Hs as Hs'. cbn [all_digits] in Hs'.
  apply andb_true_iff in Hs'. destruct Hs' as [Hc _].
  destruct (digit_no_sign c Hc) as [Hm Hp].
  pose proof (decimal_bounds _ Hs) as Hdec.
  unfold Atoi. cbv zeta.
  destruct ((0 <? Z.of_nat (String.length (String c s)))
            && (Z.of_nat (String.length (String c s)) <? 19)) eqn:Hlen.
  - rewrite Hm, Hp. cbn [orb andb].
    rewrite (atoi_digits_decimal _ 0 Hs). cbn [Z.mul].
    apply andb_true_iff in Hlen. destruct Hlen as [_ Hlen]. apply Z.ltb_lt in Hlen.
    assert (10 ^ Z.of_nat (String.length (String c s)) <= 10 ^ 18)
      by (apply Z.pow_le_mono_r; lia).
    replace (decimal (String c s) <? 2 ^ 63) with true; [reflexivity|].
    symmetry. apply Z.ltb_lt. change (10 ^ 18) with 1000000000000000000 in *.
    change (2 ^ 63) with 9223372036854775808. lia.
  - unfold ParseInt. rewrite Hm, Hp. cbn [orb negb andb].
    unfold ParseUint. cbn [String.eqb].
    rewrite (parse_uint_decimal _ 0 Hs) by (unfold maxUint64; lia).
    rewrite Z.mul_0_l, Z.add_0_l.
    change maxUint64 with 18446744073709551615.
    change (2 ^ 63) with 9223372036854775808.
    destruct (decimal (String c s) <=? 18446744073709551615) eqn:H1.
    + rewrite Z.geb_leb, Z.ltb_antisym.
      destruct (9223372036854775808 <=? decimal (String c s)); reflexivity.
    + apply Z.leb_gt in H1.
      replace (decimal (String c s) <? 9223372036854775808) with false
        by (symmetry; apply Z.ltb_ge; lia).
      reflexivity.
Qed.

Lemma parseLines_cases (linesStr : string) (server : ServerConfig) :
  parseLines linesStr server = DefaultLines server \/
  parseLines linesStr server = MaxLines server \/
  0 < parseLines linesStr server <= MaxLines server.
Proof.
  unfold parseLines. destruct (Atoi linesStr) as [n err].
  destruct (bool_decide (err <> None) || (n <=? 0)) eqn:H; [left; reflexivity|].
  apply orb_false_iff in H. destruct H as [_ H]. apply Z.leb_gt in H.
  destruct (MaxLines server <? n) eqn:H2; [right; left; reflexivity|].
  apply Z.ltb_ge in H2. right; right. lia.
Qed.

Lemma parseLines_limits (linesStr : string) (server : ServerConfig) :
  0 < DefaultLines server -> 0 < MaxLines server ->
  0 < parseLines linesStr server <= line_limit (DefaultLines server) (MaxLines server).
Proof.
  intros Hd Hm. unfold line_limit.
  destruct (parseLines_cases linesStr server) as [-> | [-> | H]]; lia.
Qed.

(** A query that writes a number in decimal digits gets that number of
    lines, cut down to the maximum; zero, and a number that does not fit
    an [int], get the default instead. *)
Theorem parseLines_number (linesStr : string) (server : ServerConfig) :
  all_digits linesStr = true -> linesStr <> "" ->
  parseLines linesStr server =
  if (0 <? decimal linesStr) && (decimal linesStr <? 2 ^ 63)
  then Z.min (decimal linesStr) (MaxLines server)
  else DefaultLines server.
Proof.
  intros Hs Hne. unfold parseLines. rewrite (Atoi_decimal _ Hs Hne).
  destruct (decimal linesStr <? 2 ^ 63) eqn:H1.
  - rewrite andb_true_r. cbn [orb]. rewrite bool_decide_eq_false_2 by (intros H; apply H; reflexivity).
    cbn [orb]. rewrite (Z.ltb_antisym (decimal linesStr) 0). destruct (decimal linesStr <=? 0); [reflexivity|].
    cbn [negb]. destruct (MaxLines server <? decimal linesStr) eqn:H2.
    + apply Z.ltb_lt in H2. rewrite Z.min_r by lia. reflexivity.
    + apply Z.ltb_ge in H2. rewrite Z.min_l by lia. reflexivity.
  - rewrite andb_false_r. rewrite bool_decide_eq_true_2 by discriminate. reflexivity.
Qed.

Lemma parseLines_number_witness :
  parseLines "99999999999999999999" {| Addr := ""; DefaultLines := 100; MaxLines := 200 |}
  = 100.
Proof.
  apply (parseLines_number "99999999999999999999"
           {| Addr := ""; DefaultLines := 100; MaxLines := 200 |});
    [reflexivity | discriminate].
Defined.

Lemma legacy_parseLines_cases (linesStr : string) (cfg : Legacy.Config)
    (server : Legacy.ServerConfig) :
  Legacy.Server cfg = Some server ->
  Legacy.parseLines linesStr (Some cfg) = Legacy.DefaultLines server \/
  Legacy.parseLines linesStr (Some cfg) = Legacy.MaxLines server \/
  0 < Legacy.parseLines linesStr (Some cfg) <= Legacy.MaxLines server.
Proof.
  intros Hserver. unfold Legacy.parseLines. rewrite Hserver.
  destruct (linesStr =? "")%string; [left; reflexivity|].
  destruct (Atoi linesStr) as [n err].
  destruct (bool_decide (err <> None) || (n <=? 0)) eqn:H; [left; reflexivity|].
  apply orb_false_iff in H. destruct H as [_ H]. apply Z.leb_gt in H.
  destruct (Legacy.MaxLines server <? n) eqn:H2; [right; left; reflexivity|].
  apply Z.ltb_ge in H2. right; right. lia.
Qed.

(** A configuration that [loadConfig] accepted has a server part with a
    positive default and a positive maximum, so that every query is
    answered with a positive number of lines, at most the greater of the
    two. *)
Theorem loadConfig_parseLines (Unmarshal : list byte -> result Legacy.Config)
    (file : result (list byte)) (cfg : Legacy.Config) :
  Legacy.loadConfig Unmarshal file = Ok cfg ->
  exists server,
    Legacy.Server cfg = Some server /\
    0 < Legacy.DefaultLines server /\ 0 < Legacy.MaxLines server /\
    forall linesStr,
      0 < Legacy.parseLines linesStr (Some cfg)
      <= line_limit (Legacy.DefaultLines server) (Legacy.MaxLines server).
Proof.
  unfold Legacy.loadConfig. destruct file as [data|e]; [|discriminate].
  destruct (Unmarshal data) as [cfg0|e]; [|discriminate].
  cbv zeta. intros [= <-]. eexists. split; [reflexivity|].
  set (server0 := match Legacy.Server cfg0 with
                  | Some s => s
                  | None => _
                  end).
  match goal with |- 0 < Legacy.DefaultLines ?s /\ 0 < Legacy.MaxLines ?s /\ _ =>
    assert (0 < Legacy.DefaultLines s /\ 0 < Legacy.MaxLines s) as [Hd Hm]
  end.
  { destruct (Legacy.DefaultLines server0 <=? 0) eqn:H1;
      cbn [Legacy.DefaultLines Legacy.MaxLines];
      destruct (Legacy.MaxLines server0 <=? 0) eqn:H2;
      cbn [Legacy.DefaultLines Legacy.MaxLines];
      try apply Z.leb_gt in H1; try apply Z.leb_gt in H2; lia. }
  split; [exact Hd|]. split; [exact Hm|]. intros linesStr. unfold line_limit.
  match goal with |- context [Legacy.parseLines _ (Some ?c)] =>
    destruct (legacy_parseLines_cases linesStr c _ eq_refl) as [-> | [-> | H]]
  end; lia.
Qed.

Lemma loadConfig_parseLines_witness :
  exists server,
    Legacy.Server (Legacy.Build_Config (Some (Legacy.Build_ServerConfig "" 100 1000)) None ∅)
    = Some server /\
    0 < Legacy.DefaultLines server /\ 0 < Legacy.MaxLines server /\
    forall linesStr,
      0 < Legacy.parseLines linesStr
            (Some (Legacy.Build_Config (Some (Legacy.Build_ServerConfig "" 100 1000)) None ∅))
      <= line_limit (Legacy.DefaultLines server) (Legacy.MaxLines server).
Proof.
  apply (loadConfig_parseLines
           (fun _ => Ok (Legacy.Build_Config None None ∅)) (Ok [])).
  reflexivity.
Defined.

(** Without a configuration nothing bounds the number of lines: a query
    that writes a positive number that fits an [int] gets that number, and
    any other number gets 100. *)
Theorem parseLines_uncapped (linesStr : string) :
  all_digits linesStr = true -> linesStr <> "" ->
  Legacy.parseLines linesStr None =
  if (0 <? decimal linesStr) && (decimal linesStr <? 2 ^ 63)
  then decimal linesStr else 100.
Proof.
  intros Hs Hne. unfold Legacy.parseLines.
  replace (linesStr =? "")%string with false
    by (symmetry; apply String.eqb_neq, Hne).
  rewrite (Atoi_decimal _ Hs Hne).
  destruct (decimal linesStr <? 2 ^ 63) eqn:H1.
  - rewrite andb_true_r. rewrite bool_decide_eq_false_2 by (intros H; apply H; reflexivity).
    cbn [orb]. rewrite (Z.ltb_antisym (decimal linesStr) 0). destruct (decimal linesStr <=? 0); reflexivity.
  - rewrite andb_false_r. rewrite bool_decide_eq_true_2 by discriminate. reflexivity.
Qed.

Lemma parseLines_uncapped_witness :
  Legacy.parseLines "5000000" None = 5000000.
Proof.
  apply (parseLines_uncapped "5000000"); [reflexivity | discriminate].
Defined.

End NumberMore.

(** * The sources of log text: the scanner, [ReadLogs], [logsHandler],
      [sanitizeBinary] *)

Module SourceMore.
Import Go Preprocessor Agent Reference Vocabulary.
Import NumberMore.

Lemma count_newlines_app (a b : string) :
  count_newlines (a +:+ b) = (count_newlines a + count_newlines b)%nat.
Proof.
  induction a as [|c a IH]; [reflexivity|].
  rewrite StringFacts.append_cons. cbn [count_newlines]. rewrite IH.
  destruct (Ascii.eqb c _); reflexivity.
Qed.

Lemma newline_free_count (s : string) :
  newline_free s = true -> count_newlines s = 0%nat.
Proof.
  induction s as [|c s IH]; [reflexivity|]. cbn [newline_free count_newlines].
  destruct (Ascii.eqb c _); [discriminate|]. exact IH.
Qed.

Lemma newline_free_onto (s acc : string) :
  newline_free (rev_string_onto s acc) = newline_free s && newline_free acc.
Proof.
  revert acc. induction s as [|c s IH]; intros acc; [reflexivity|].
  cbn [rev_string_onto newline_free]. rewrite IH. cbn [newline_free].
  destruct (negb _), (newline_free s), (newline_free acc); reflexivity.
Qed.

Lemma newline_free_dropCR (acc : string) :
  newline_free acc = true -> newline_free (rev_string (dropCR_rev acc)) = true.
Proof.
  intros H. unfold rev_string. rewrite newline_free_onto, andb_true_r.
  destruct acc as [|c r]; [reflexivity|]. cbn [dropCR_rev].
  destruct (Ascii.eqb c _); [|exact H].
  cbn [newline_free] in H. apply andb_true_iff in H. apply H.
Qed.

Lemma scan_from_free (s : string) : forall acc n,
  newline_free acc = true ->
  Forall (fun t => newline_free t = true) (fst (scan_from s acc n)).
Proof.
  induction s as [|c s IH]; intros acc n Hacc; cbn [scan_from].
  - destruct (n =? 0); [constructor|].
    constructor; [apply newline_free_dropCR, Hacc|constructor].
  - destruct (Ascii.eqb c (ascii_of_nat 10)) eqn:Hc.
    + specialize (IH "" 0 eq_refl). destruct (scan_from s "" 0) as [tokens err].
      constructor; [apply newline_free_dropCR, Hacc|exact IH].
    + destruct (MaxScanTokenSize <=? n + 1); [constructor|].
      apply IH. cbn [newline_free]. rewrite Hc. exact Hacc.
Qed.

Lemma scan_from_length (s : string) : forall acc n,
  (length (fst (scan_from s acc n)) <= S (count_newlines s))%nat.
Proof.
  induction s as [|c s IH]; intros acc n; cbn [scan_from count_newlines].
  - destruct (n =? 0); cbn; lia.
  - destruct (Ascii.eqb c (ascii_of_nat 10)).
    + specialize (IH "" 0). destruct (scan_from s "" 0) as [tokens err].
      cbn in *. lia.
    + destruct (MaxScanTokenSize <=? n + 1); [cbn; lia|apply IH].
Qed.

Lemma Join_newlines (tokens : list string) :
  Forall (fun t => newline_free t = true) tokens ->
  count_newlines (Join tokens nl) = pred (length tokens).
Proof.
  induction 1 as [|t rest Ht Hrest IH]; [reflexivity|].
  destruct rest as [|t' rest].
  - cbn. apply newline_free_count, Ht.
  - change (Join (t :: t' :: rest) nl) with (t +:+ nl +:+ Join (t' :: rest) nl).
    rewrite !count_newlines_app, IH, (newline_free_count t Ht). reflexivity.
Qed.

Lemma Forall_drop_free (k : nat) (tokens : list string) :
  Forall (fun t => newline_free t = true) tokens ->
  Forall (fun t => newline_free t = true) (drop k tokens).
Proof. apply Forall_drop. Qed.

(** The lines kept by either [ReadLogs]: at most [lines] of them when
    [lines] is positive. *)
Lemma selected_length (all : list string) (lines : Z) :
  let len := Z.of_nat (length all) in
  let lines' := if (lines <=? 0) || (len <? lines) then len else lines in
  len <> 0 ->
  0 < Z.of_nat (length (drop (Z.to_nat (len - lines')) all)) /\
  (0 < lines -> Z.of_nat (length (drop (Z.to_nat (len - lines')) all)) <= lines).
Proof.
  intros len lines' Hlen. rewrite length_drop. subst lines'.
  destruct (lines <=? 0) eqn:H1; cbn [orb].
  - apply Z.leb_le in H1. replace (len - len) with 0 by lia. cbn. fold len. lia.
  - apply Z.leb_gt in H1. destruct (len <? lines) eqn:H2.
    + apply Z.ltb_lt in H2. replace (len - len) with 0 by lia. cbn. fold len. lia.
    + apply Z.ltb_ge in H2. fold len. lia.
Qed.

Lemma readFileAutoUTF_total (data : list byte) :
  exists content, readFileAutoUTF (Ok data) = Ok content.
Proof.
  unfold readFileAutoUTF.
  destruct (_ && _); [eexists; reflexivity|].
  destruct (_ && _); eexists; reflexivity.
Qed.

Lemma ReadLogs_newlines (file : result (list byte)) (lines : Z) (out : string) :
  ReadLogs file lines = Ok out ->
  0 < lines -> Z.of_nat (count_newlines out) < lines.
Proof.
  unfold ReadLogs. destruct (readFileAutoUTF file) as [content|e]; [|discriminate].
  pose proof (scan_from_free content "" 0 eq_refl) as Hfree.
  fold (scan_lines content) in Hfree.
  set (all := fst (scan_lines content)) in *.
  destruct (Z.of_nat (length all) =? 0) eqn:Hlen.
  - intros [= <-] Hl. cbn. lia.
  - apply Z.eqb_neq in Hlen. intros [= <-] Hl.
    destruct (selected_length all lines Hlen) as [Hpos Hle].
    rewrite Join_newlines by apply Forall_drop, Hfree.
    specialize (Hle Hl). lia.
Qed.

(** The file source of the agent never fails on a file that could be
    read, whatever its bytes, and what it returns for a positive [lines]
    holds fewer than [lines] newlines: at most [lines] lines. *)
Theorem ReadLogs_bounded (data : list byte) (lines : Z) :
  exists out, ReadLogs (Ok data) lines = Ok out /\
              (0 < lines -> Z.of_nat (count_newlines out) < lines).
Proof.
  assert (exists out, ReadLogs (Ok data) lines = Ok out) as [out Hout].
  { unfold ReadLogs. destruct (readFileAutoUTF_total data) as [content ->].
    cbv zeta. destruct (_ =? 0); eexists; reflexivity. }
  exists out. split; [exact Hout|]. apply (ReadLogs_newlines _ _ _ Hout).
Qed.

Section Handler.
Variable U : Unicode.

Lemma handler_loop_length (clock : nat -> string) (service : string)
    (tokens : list string) : forall out,
  (length (handler_loop U clock service tokens out) <= length out + length tokens)%nat.
Proof.
  induction tokens as [|t rest IH]; intros out; cbn [handler_loop length]; [lia|].
  cbv zeta. destruct (_ =? _)%string.
  - specialize (IH out). lia.
  - specialize (IH (out ++ [parseLine U (clock (length out)) (TrimSpace U t) service])%list).
    rewrite length_app in IH. cbn [length] in IH. lia.
Qed.

Lemma handler_loop_service (clock : nat -> string) (service : string)
    (tokens : list string) : forall out,
  Forall (fun log => Agent.Service log = service) out ->
  Forall (fun log => Agent.Service log = service)
         (handler_loop U clock service tokens out).
Proof.
  induction tokens as [|t rest IH]; intros out Hout; cbn [handler_loop]; [exact Hout|].
  cbv zeta. destruct (_ =? _)%string; [apply IH, Hout|].
  apply IH. apply Forall_app. split; [exact Hout|].
  constructor; [reflexivity|constructor].
Qed.

(** The handler of [/logs] on a file target, under a configuration with
    a positive default and a positive maximum: whatever the file and the
    query hold, the answer is a list of records, no more of them than the
    greater of the two bounds, each with the service of the target. *)
Theorem logsHandler_bounded (ReadFile : string -> result (list byte))
    (Get : string -> result string) (globalConfig : Config)
    (clock : nat -> string) (app key linesStr : string)
    (server : ServerConfig) (path : string) (target : LogTarget) :
  Server globalConfig = Some server ->
  0 < DefaultLines server -> 0 < MaxLines server ->
  sourceFromConfig globalConfig app key = Ok (FileLogSource path, target) ->
  exists out,
    logsHandler U ReadFile Get globalConfig clock app key linesStr = Encoded out /\
    Z.of_nat (length out) <= line_limit (DefaultLines server) (MaxLines server) /\
    Forall (fun log => Agent.Service log = Service_ target) out.
Proof.
  intros Hserver Hd Hm Hsrc. unfold logsHandler. rewrite Hsrc, Hserver.
  cbv zeta. eexists. split; [reflexivity|]. split.
  2:{ apply handler_loop_service. constructor. }
  pose proof (parseLines_limits linesStr server Hd Hm) as Hlim.
  set (lines := parseLines linesStr server) in *.
  etransitivity; [|apply Hlim].
  pose proof (handler_loop_length clock (Service_ target)) as Hlen.
  cbn [source_ReadLogs].
  destruct (ReadLogs (ReadFile path) lines) as [raw|e] eqn:Hraw.
  - specialize (Hlen (fst (scan_lines raw)) []). cbn [length] in Hlen.
    pose proof (scan_from_length raw "" 0) as Hscan. fold (scan_lines raw) in Hscan.
    pose proof (ReadLogs_newlines _ _ _ Hraw) as Hnl. lia.
  - specialize (Hlen (fst (scan_lines "")) []). cbn in Hlen. cbn. lia.
Qed.

End Handler.

Lemma logsHandler_bounded_witness :
  exists out,
    logsHandler no_unicode (fun _ => Ok sample_file) (fun _ => Err "no route")
      sample_config (fun _ => "2024-01-01T00:00:00Z") "shop" "app" "1" = Encoded out /\
    Z.of_nat (length out) <= 1000 /\
    Forall (fun log => Agent.Service log = "billing") out.
Proof.
  apply (logsHandler_bounded no_unicode (fun _ => Ok sample_file)
           (fun _ => Err "no route") sample_config (fun _ => "2024-01-01T00:00:00Z")
           "shop" "app" "1"
           {| Addr := ""; DefaultLines := 100; MaxLines := 1000 |}
           "/var/log/shop.log" sample_target);
    [reflexivity | reflexivity | reflexivity | vm_compute; reflexivity].
Defined.

(** ** The file source of the older agent *)

Lemma read_all_ok (ctx : nat -> option string) (tokens : list string) : forall i allLines,
  Legacy.read_all ctx i tokens = Ok allLines -> allLines = tokens.
Proof.
  induction tokens as [|t rest IH]; intros i allLines; cbn [Legacy.read_all].
  - intros [= <-]. reflexivity.
  - destruct (ctx i); [discriminate|].
    destruct (Legacy.read_all ctx (S i) rest) as [l|e] eqn:H; [|discriminate].
    intros [= <-]. f_equal. apply (IH _ _ H).
Qed.

Lemma read_all_background (tokens : list string) : forall i,
  Legacy.read_all background i tokens = Ok tokens.
Proof.
  induction tokens as [|t rest IH]; intros i; cbn [Legacy.read_all]; [reflexivity|].
  unfold background at 1. rewrite IH. reflexivity.
Qed.

(** What the older file source returns, when it returns text, ends with a
    newline, and for a positive [lines] holds at most [lines] newlines:
    at most [lines] lines, each closed by its newline. *)
Theorem ReadLogs_closed_lines (content : string) (ctx : nat -> option string)
    (lines : Z) (out : string) :
  Legacy.ReadLogs (Ok content) ctx lines = Ok out -> out <> "" ->
  (exists body, out = body +:+ nl) /\
  (0 < lines -> Z.of_nat (count_newlines out) <= lines).
Proof.
  unfold Legacy.ReadLogs.
  pose proof (scan_from_free content "" 0 eq_refl) as Hfree.
  fold (scan_lines content) in Hfree.
  destruct (scan_lines content) as [tokens tooLong]. cbn [fst] in Hfree.
  destruct (Legacy.read_all ctx 0 tokens) as [allLines|e] eqn:Hall; [|discriminate].
  apply read_all_ok in Hall. subst allLines.
  destruct tooLong; [discriminate|]. cbv zeta.
  destruct (Z.of_nat (length tokens) =? 0) eqn:Hlen.
  - intros [= <-] Hne. congruence.
  - apply Z.eqb_neq in Hlen. intros [= <-] _.
    split; [eexists; reflexivity|]. intros Hl.
    destruct (selected_length tokens lines Hlen) as [Hpos Hle].
    rewrite count_newlines_app, Join_newlines by apply Forall_drop, Hfree.
    specialize (Hle Hl). change (count_newlines nl) with 1%nat. lia.
Qed.

Lemma ReadLogs_closed_lines_witness :
  (exists body, "b" +:+ nl +:+ "c" +:+ nl = body +:+ nl) /\
  (0 < 2 -> Z.of_nat (count_newlines ("b" +:+ nl +:+ "c" +:+ nl)) <= 2).
Proof.
  apply (ReadLogs_closed_lines ("a" +:+ nl +:+ "b" +:+ nl +:+ "c") background 2);
    [reflexivity | discriminate].
Defined.

Lemma scan_long_line (long rest : string) : forall acc n,
  newline_free long = true ->
  0 <= n < MaxScanTokenSize ->
  MaxScanTokenSize <= n + Z.of_nat (String.length long) ->
  scan_from (long +:+ rest) acc n = ([], true).
Proof.
  induction long as [|c long IH]; intros acc n Hfree Hn Hlen.
  - cbn [String.length] in Hlen. lia.
  - rewrite StringFacts.append_cons. cbn [scan_from].
    cbn [newline_free] in Hfree. apply andb_true_iff in Hfree.
    destruct Hfree as [Hc Hfree]. apply negb_true_iff in Hc. rewrite Hc.
    destruct (MaxScanTokenSize <=? n + 1) eqn:H1; [reflexivity|].
    apply Z.leb_gt in H1. apply IH; [exact Hfree|lia|].
    cbn [String.length] in Hlen. lia.
Qed.

Lemma scan_too_long (pre long rest : string) : forall acc n,
  newline_free long = true ->
  0 <= n < MaxScanTokenSize ->
  MaxScanTokenSize <= Z.of_nat (String.length long) ->
  snd (scan_from (pre +:+ long +:+ rest) acc n) = true.
Proof.
  induction pre as [|c pre IH]; intros acc n Hfree Hn Hlen.
  - change ("" +:+ long +:+ rest) with (long +:+ rest).
    rewrite scan_long_line by (try assumption; lia). reflexivity.
  - rewrite StringFacts.append_cons. cbn [scan_from].
    destruct (Ascii.eqb c (ascii_of_nat 10)).
    + specialize (IH "" 0 Hfree). 
      destruct (scan_from (pre +:+ long +:+ rest) "" 0) as [tokens err].
      cbn [snd] in *. apply IH; [unfold MaxScanTokenSize; lia|exact Hlen].
    + destruct (MaxScanTokenSize <=? n + 1) eqn:H1; [reflexivity|].
      apply Z.leb_gt in H1. apply IH; [exact Hfree|lia|exact Hlen].
Qed.

(** A file with a run of 64 KiB without a newline cannot be read by the
    older file source: the call fails, and with a context that is never
    done it fails with the error of the scanner; no line is returned,
    not even those in front of the long one. *)
Theorem ReadLogs_long_line (pre long rest : string) (ctx : nat -> option string)
    (lines : Z) :
  newline_free long = true ->
  MaxScanTokenSize <= Z.of_nat (String.length long) ->
  (exists e, Legacy.ReadLogs (Ok (pre +:+ long +:+ rest)) ctx lines = Err e) /\
  Legacy.ReadLogs (Ok (pre +:+ long +:+ rest)) background lines
  = Err "scan file: bufio.Scanner: token too long".
Proof.
  intros Hfree Hlen.
  pose proof (scan_too_long pre long rest "" 0 Hfree) as Hscan.
  fold (scan_lines (pre +:+ long +:+ rest)) in Hscan.
  unfold Legacy.ReadLogs.
  destruct (scan_lines (pre +:+ long +:+ rest)) as [tokens tooLong].
  cbn [snd] in Hscan. rewrite Hscan by (try assumption; unfold MaxScanTokenSize; lia).
  split.
  - destruct (Legacy.read_all ctx 0 tokens); eexists; reflexivity.
  - rewrite read_all_background. reflexivity.
Qed.

Lemma ReadLogs_long_line_witness :
  (exists e, Legacy.ReadLogs (Ok (("a" +:+ nl) +:+ long_line +:+ nl))
                             background 10 = Err e) /\
  Legacy.ReadLogs (Ok (("a" +:+ nl) +:+ long_line +:+ nl)) background 10
  = Err "scan file: bufio.Scanner: token too long".
Proof.
  apply (ReadLogs_long_line ("a" +:+ nl) long_line nl background 10);
    vm_compute; [reflexivity | discriminate].
Defined.

Lemma scan_first_line (first rest : string) : forall acc n,
  newline_free first = true ->
  0 <= n -> n + Z.of_nat (String.length first) < MaxScanTokenSize ->
  exists t tokens, fst (scan_from (first +:+ nl +:+ rest) acc n) = t :: tokens.
Proof.
  induction first as [|c first IH]; intros acc n Hfree Hn Hlen.
  - change ("" +:+ nl +:+ rest) with (String (ascii_of_nat 10) rest).
    cbn [scan_from]. rewrite Ascii.eqb_refl.
    destruct (scan_from rest "" 0) as [tokens err]. eexists _, _. reflexivity.
  - rewrite StringFacts.append_cons. cbn [scan_from].
    cbn [newline_free] in Hfree. apply andb_true_iff in Hfree.
    destruct Hfree as [Hc Hfree]. apply negb_true_iff in Hc. rewrite Hc.
    cbn [String.length] in Hlen.
    replace (MaxScanTokenSize <=? n + 1) with false by (symmetry; apply Z.leb_gt; lia).
    apply IH; [exact Hfree|lia|lia].
Qed.

(** Under a context that is done from the start the older file source
    returns no text: only an empty result is ever returned, and a file
    that begins with a line of less than 64 KiB gives the error of the
    context. *)
Theorem ReadLogs_cancelled (ctx : nat -> option string) (e : string) (lines : Z) :
  ctx 0%nat = Some e ->
  (forall opened out, Legacy.ReadLogs opened ctx lines = Ok out -> out = "") /\
  (forall first rest,
      newline_free first = true ->
      Z.of_nat (String.length first) < MaxScanTokenSize ->
      Legacy.ReadLogs (Ok (first +:+ nl +:+ rest)) ctx lines = Err e).
Proof.
  intros Hctx. split.
  - intros [content|e0] out; [|discriminate]. unfold Legacy.ReadLogs.
    destruct (scan_lines content) as [tokens tooLong].
    destruct tokens as [|t tokens].
    + cbn [Legacy.read_all]. destruct tooLong; [discriminate|].
      cbn. intros [= <-]. reflexivity.
    + cbn [Legacy.read_all]. rewrite Hctx. discriminate.
  - intros first rest Hfree Hlen. unfold Legacy.ReadLogs.
    destruct (scan_first_line first rest "" 0 Hfree) as (t & tokens & Hscan);
      [lia|lia|].
    fold (scan_lines (first +:+ nl +:+ rest)) in Hscan.
    destruct (scan_lines (first +:+ nl +:+ rest)) as [tokens' tooLong].
    cbn [fst] in Hscan. subst tokens'. cbn [Legacy.read_all]. rewrite Hctx. reflexivity.
Qed.

Lemma ReadLogs_cancelled_witness :
  (forall opened out,
      Legacy.ReadLogs opened (fun _ => Some "context canceled") 5 = Ok out -> out = "") /\
  (forall first rest,
      newline_free first = true ->
      Z.of_nat (String.length first) < MaxScanTokenSize ->
      Legacy.ReadLogs (Ok (first +:+ nl +:+ rest)) (fun _ => Some "context canceled") 5
      = Err "context canceled").
Proof.
  apply (ReadLogs_cancelled (fun _ => Some "context canceled") "context canceled" 5).
  reflexivity.
Defined.

(** ** [sanitizeBinary] *)

Lemma keeps_ascii (b : byte) : Legacy.keeps b = true -> is_ascii_byte b.
Proof.
  unfold Legacy.keeps, is_ascii_byte. cbv zeta. intros H.
  repeat (apply orb_true_iff in H; destruct H as [H|H]);
    try (apply andb_true_iff in H; destruct H as [H1 H2];
         apply Z.leb_le in H1; apply Z.leb_le in H2);
    try apply Z.eqb_eq in H; lia.
Qed.

Lemma sanitizeBinary_filter (data : list byte) :
  Legacy.sanitizeBinary data = string_of_bytes (List.filter Legacy.keeps data).
Proof.
  unfold Legacy.sanitizeBinary.
  apply (ReaderMore.string_of_runes_ascii (List.filter Legacy.keeps data)).
  apply Forall_forall. intros b Hb. apply list_elem_of_In, filter_In in Hb.
  apply keeps_ascii, Hb.
Qed.

Lemma filter_keeps_idem (data : list byte) :
  List.filter Legacy.keeps (List.filter Legacy.keeps data) = List.filter Legacy.keeps data.
Proof.
  induction data as [|b data IH]; [reflexivity|]. cbn [List.filter].
  destruct (Legacy.keeps b) eqn:Hb; [|exact IH].
  cbn [List.filter]. rewrite Hb, IH. reflexivity.
Qed.

(** [sanitizeBinary] returns, in their order, exactly the bytes of the
    input that are printable ASCII, newline, carriage return or tab;
    cleaning a second time changes nothing. *)
Theorem sanitizeBinary_kept (data : list byte) :
  bytes_of (Legacy.sanitizeBinary data) = List.filter Legacy.keeps data /\
  Legacy.sanitizeBinary (bytes_of (Legacy.sanitizeBinary data))
  = Legacy.sanitizeBinary data.
Proof.
  assert (bytes_of (Legacy.sanitizeBinary data) = List.filter Legacy.keeps data) as H.
  { rewrite sanitizeBinary_filter. unfold bytes_of, string_of_bytes.
    apply list_byte_of_string_of_list_byte. }
  split; [exact H|]. rewrite H, !sanitizeBinary_filter, filter_keeps_idem. reflexivity.
Qed.

End SourceMore.
